(** * sqlproxyccl: routing of a startup message to a tenant cluster

    A shallow embedding of [pkg/ccl/sqlproxyccl/proxy_handler.go]: the
    parsing of the cluster identifier out of the [database] and [options]
    startup parameters, the rewriting of the startup message, the
    resolution of the backend address, the guards and the dial loop of
    [handle], the construction of the handler and the pod watcher.

    Go strings are byte strings: they are [string] here, one [ascii] per
    byte.  [uint64] and [int] values are in [Z], with the wrap-around
    written where the code can reach it.  The startup message is a pointer
    to a struct that holds a map: both live in an explicit [Heap]. *)

From Stdlib Require Import ZArith Ascii DecimalString.
From Stdlib Require DecimalPos DecimalN.
From stdpp Require Import gmap strings list fin_maps.

Local Open Scope Z_scope.

(** ** Bytes and strings *)

(** [len(s)] *)
Definition len (s : string) : Z := Z.of_nat (String.length s).

Definition byte (c : ascii) : Z := Z.of_N (N_of_ascii c).

(** [lo <= c && c <= hi] on bytes. *)
Definition between (lo hi c : ascii) : bool :=
  (byte lo <=? byte c) && (byte c <=? byte hi).

(** [s[lo:hi]]; Go panics when the bounds are out of range ([None]). *)
Definition slice (s : string) (lo hi : Z) : option string :=
  if decide (0 ≤ lo ∧ lo ≤ hi ∧ hi ≤ len s)
  then Some (String.substring (Z.to_nat lo) (Z.to_nat (hi - lo)) s)
  else None.

(** [strings.Split(s, sep)] for a separator of one byte. *)
Fixpoint Split (s : string) (sep : ascii) : list string :=
  match s with
  | EmptyString => [EmptyString]
  | String c s' =>
      if decide (c = sep) then EmptyString :: Split s' sep
      else match Split s' sep with
           | p :: ps => String c p :: ps
           | [] => [String c EmptyString]
           end
  end.

(** [strings.LastIndex(s, substr)]: the index of the last occurrence of
    [substr] in [s], [-1] when there is none. *)
Fixpoint LastIndex (s substr : string) : Z :=
  match s with
  | EmptyString => if decide (substr = EmptyString) then 0 else -1
  | String _ s' =>
      let r := LastIndex s' substr in
      if decide (0 ≤ r) then r + 1
      else if String.prefix substr s then 0 else -1
  end.

(** [strings.ReplaceAll(s, old, new)] for a non-empty [old]: the
    occurrences of [old] are replaced from left to right and do not
    overlap.  [skip] counts the bytes of an occurrence still to be dropped.
    With an empty [old] Go inserts [new] around every rune; both callers
    pass a non-empty [old], and the model leaves [s] as it is there. *)
Fixpoint ReplaceAll_from (skip : nat) (s old new : string) : string :=
  match s with
  | EmptyString => EmptyString
  | String c s' =>
      match skip with
      | S k => ReplaceAll_from k s' old new
      | O =>
          if String.prefix old s
          then new +:+ ReplaceAll_from (String.length old - 1) s' old new
          else String c (ReplaceAll_from O s' old new)
      end
  end.

Definition ReplaceAll (s old new : string) : string :=
  if decide (old = EmptyString) then s else ReplaceAll_from O s old new.

(** The white space of [unicode.IsSpace] in UTF-8: the six ASCII bytes
    [\t \n \v \f \r ' '], then U+0085 and U+00A0 (two bytes), then U+1680,
    U+2000..U+200A, U+2028, U+2029, U+202F, U+205F and U+3000 (three
    bytes). *)
Definition asciiSpace (c : ascii) : bool :=
  let b := byte c in (b =? 9) || (b =? 10) || (b =? 11) || (b =? 12) || (b =? 13) || (b =? 32).

Definition isSpace2 (c1 c2 : ascii) : bool :=
  (byte c1 =? 194) && ((byte c2 =? 133) || (byte c2 =? 160)).

Definition isSpace3 (c1 c2 c3 : ascii) : bool :=
  let b1 := byte c1 in let b2 := byte c2 in let b3 := byte c3 in
  ((b1 =? 225) && (b2 =? 154) && (b3 =? 128))
  || ((b1 =? 226) && (b2 =? 128)
      && (((128 <=? b3) && (b3 <=? 138)) || (b3 =? 168) || (b3 =? 169) || (b3 =? 175)))
  || ((b1 =? 226) && (b2 =? 129) && (b3 =? 159))
  || ((b1 =? 227) && (b2 =? 128) && (b3 =? 128)).

(** [strings.TrimLeftFunc(s, unicode.IsSpace)]: a rune is decoded at the
    front and dropped while it is white space; bytes that are not valid
    UTF-8 decode to U+FFFD, which is not. *)
Fixpoint TrimLeftSpace (s : string) : string :=
  match s with
  | EmptyString => EmptyString
  | String c1 s1 =>
      if asciiSpace c1 then TrimLeftSpace s1
      else match s1 with
           | EmptyString => s
           | String c2 s2 =>
               if isSpace2 c1 c2 then TrimLeftSpace s2
               else match s2 with
                    | EmptyString => s
                    | String c3 s3 =>
                        if isSpace3 c1 c2 c3 then TrimLeftSpace s3 else s
                    end
           end
  end.

(** The same from the end, on the reversed string: [rs] holds the bytes of
    the string last byte first, so an encoding is read backwards. *)
Fixpoint TrimLeftSpace_rev (rs : string) : string :=
  match rs with
  | EmptyString => EmptyString
  | String c1 s1 =>
      if asciiSpace c1 then TrimLeftSpace_rev s1
      else match s1 with
           | EmptyString => rs
           | String c2 s2 =>
               if isSpace2 c2 c1 then TrimLeftSpace_rev s2
               else match s2 with
                    | EmptyString => rs
                    | String c3 s3 =>
                        if isSpace3 c3 c2 c1 then TrimLeftSpace_rev s3 else rs
                    end
           end
  end.

Definition TrimRightSpace (s : string) : string :=
  String.rev (TrimLeftSpace_rev (String.rev s)).

(** [strings.TrimSpace(s)] *)
Definition TrimSpace (s : string) : string := TrimRightSpace (TrimLeftSpace s).

(** [%d] of a [uint64]. *)
Definition formatUint (n : Z) : string :=
  NilEmpty.string_of_uint (N.to_uint (Z.to_N n)).

(** [strconv.ParseUint(s, 10, 64)]: [None] stands for the error (syntax or
    range); the value returned with it is not used by the caller. *)
Definition maxUint64 : Z := 2 ^ 64 - 1.

Fixpoint ParseUint_loop (s : string) (n : Z) : option Z :=
  match s with
  | EmptyString => Some n
  | String c s' =>
      if between "0"%char "9"%char c then
        let d := byte c - byte "0"%char in
        let cutoff := maxUint64 / 10 + 1 in
        if decide (cutoff ≤ n) then None
        else
          let n := (n * 10) mod 2 ^ 64 in
          let n1 := (n + d) mod 2 ^ 64 in
          if decide (n1 < n ∨ maxUint64 < n1) then None
          else ParseUint_loop s' n1
      else None
  end.

Definition ParseUint (s : string) : option Z :=
  if decide (s = EmptyString) then None else ParseUint_loop s 0.

(** ** Regular expressions *)

(** The class [\s] of Go's [regexp]: [\t \n \f \r ' ']. *)
Definition reSpace (c : ascii) : bool :=
  let b := byte c in (b =? 9) || (b =? 10) || (b =? 12) || (b =? 13) || (b =? 32).

(** The longest run of bytes satisfying [p] at the front of [s], and what
    follows it: a greedy [[p]*]. *)
Fixpoint span (p : ascii → bool) (s : string) : string * string :=
  match s with
  | EmptyString => (EmptyString, EmptyString)
  | String c s' =>
      if p c then let '(run, rest) := span p s' in (String c run, rest)
      else (EmptyString, s)
  end.

Fixpoint stripPrefix (lit s : string) : option string :=
  match lit, s with
  | EmptyString, _ => Some s
  | String a lit', String b s' => if decide (a = b) then stripPrefix lit' s' else None
  | String _ _, EmptyString => None
  end.

(** [clusterIdentifierLongOptionRE] anchored at the front of [s]: either
    [-c] and a run of [\s], or [--]; then [cluster=]; then the one group, a
    run of [\S].  The result is the text of the whole match and of the
    group.  The two alternatives differ in their second byte, the run of
    [\s] is followed by a byte that is not white space and the run of [\S]
    by the end of the match, so a match that starts at a given byte is
    unique and the greedy one. *)
Definition clusterIdentifierLongOptionRE (s : string) : option (string * string) :=
  match s with
  | String "-" (String "c" r) =>
      let '(ws, r1) := span reSpace r in
      match stripPrefix "cluster=" r1 with
      | Some r2 =>
          let '(id, _) := span (λ c, negb (reSpace c)) r2 in
          Some ("-c" +:+ ws +:+ "cluster=" +:+ id, id)
      | None => None
      end
  | String "-" (String "-" r) =>
      match stripPrefix "cluster=" r with
      | Some r2 =>
          let '(id, _) := span (λ c, negb (reSpace c)) r2 in
          Some ("--cluster=" +:+ id, id)
      | None => None
      end
  | _ => None
  end.

(** The matches of [clusterIdentifierLongOptionRE] in [s], leftmost first
    and without overlap, at most [n] of them; each is the list of its
    submatches.  [skip] counts the bytes of the last match still to be
    passed. *)
Fixpoint FindAll_from (skip n : nat) (s : string) : list (list string) :=
  match s with
  | EmptyString => []
  | String _ s' =>
      match skip with
      | S k => FindAll_from k n s'
      | O =>
          match n with
          | O => []
          | S n' =>
              match clusterIdentifierLongOptionRE s with
              | Some (whole, id) =>
                  [whole; id] :: FindAll_from (String.length whole - 1) n' s'
              | None => FindAll_from O n s'
              end
          end
      end
  end.

(** [clusterIdentifierLongOptionRE.FindAllStringSubmatch(s, n)]; a negative
    [n] asks for all the matches (Go then takes [n = len(s) + 1]). *)
Definition FindAllStringSubmatch (s : string) (n : Z) : list (list string) :=
  FindAll_from O (Z.to_nat (if decide (n < 0) then len s + 1 else n)) s.

Definition isLowerAlnum (c : ascii) : bool :=
  between "a" "z" c || between "0" "9" c.

(** [[a-z0-9-]{4,18}[a-z0-9]$] after [k] bytes of the middle part. *)
Fixpoint clusterNameRegex_tail (k : nat) (s : string) : bool :=
  match s with
  | EmptyString => false
  | String c EmptyString => isLowerAlnum c && (4 <=? k)%nat && (k <=? 18)%nat
  | String c s' =>
      (isLowerAlnum c || bool_decide (c = "-"%char)) && clusterNameRegex_tail (S k) s'
  end.

(** [clusterNameRegex.MatchString(s)] for [^[a-z0-9][a-z0-9-]{4,18}[a-z0-9]$]. *)
Definition clusterNameRegex (s : string) : bool :=
  match s with
  | EmptyString => false
  | String c s' => isLowerAlnum c && clusterNameRegex_tail O s'
  end.

Definition clusterTenantSep : string := "-".

(** ** Errors *)

(** The codes of [google.golang.org/grpc/codes]. *)
Inductive Code :=
| OK | Canceled | Unknown | InvalidArgument | DeadlineExceeded | NotFound
| AlreadyExists | PermissionDenied | ResourceExhausted | FailedPrecondition
| Aborted | OutOfRange | Unimplemented | Internal | Unavailable | DataLoss
| Unauthenticated.

Definition Code_String (c : Code) : string :=
  match c with
  | OK => "OK" | Canceled => "Canceled" | Unknown => "Unknown"
  | InvalidArgument => "InvalidArgument" | DeadlineExceeded => "DeadlineExceeded"
  | NotFound => "NotFound" | AlreadyExists => "AlreadyExists"
  | PermissionDenied => "PermissionDenied" | ResourceExhausted => "ResourceExhausted"
  | FailedPrecondition => "FailedPrecondition" | Aborted => "Aborted"
  | OutOfRange => "OutOfRange" | Unimplemented => "Unimplemented"
  | Internal => "Internal" | Unavailable => "Unavailable" | DataLoss => "DataLoss"
  | Unauthenticated => "Unauthenticated"
  end.

(** A Go [error] as this file builds it: [errors.New] and [errors.Errorf]
    (with the message formatted), [errors.WithHint] and [errors.WithHintf]
    around an error, and [status.Error]. *)
Inductive error :=
| errors_New (msg : string)
| errors_WithHint (err : error) (hint : string)
| status_Error (c : Code) (msg : string).

(** [err.Error()]: a hint is kept beside the message, not in it. *)
Fixpoint Error (e : error) : string :=
  match e with
  | errors_New msg => msg
  | errors_WithHint e' _ => Error e'
  | status_Error c msg => "rpc error: code = " +:+ Code_String c +:+ " desc = " +:+ msg
  end.

(** [status.Code(err)] of a non-nil error: [Unknown] unless the error
    carries a gRPC status. *)
Definition status_Code (e : error) : Code :=
  match e with
  | status_Error c _ => c
  | _ => Unknown
  end.

Definition dquote : string := String "034"%char EmptyString.
Definition newline : string := String "010"%char EmptyString.
Definition tab : string := String "009"%char EmptyString.

Definition clusterIdentifierHint : string :=
  "Ensure that your cluster identifier is uniquely specified using any of the" +:+ newline +:+
  "following methods:" +:+ newline +:+ newline +:+
  "1) Database parameter:" +:+ newline +:+
  "   Use " +:+ dquote +:+ "<cluster identifier>.<database name>" +:+ dquote +:+
  " as the database parameter." +:+ newline +:+
  "   (e.g. database=" +:+ dquote +:+ "active-roach-42.defaultdb" +:+ dquote +:+ ")" +:+
  newline +:+ newline +:+
  "2) Options parameter:" +:+ newline +:+
  "   Use " +:+ dquote +:+ "--cluster=<cluster identifier>" +:+ dquote +:+
  " as the options parameter." +:+ newline +:+
  "   (e.g. options=" +:+ dquote +:+ "--cluster=active-roach-42" +:+ dquote +:+ ")" +:+
  newline +:+ newline +:+
  "For more details, please visit our docs site at:" +:+ newline +:+
  tab +:+ "https://www.cockroachlabs.com/docs/cockroachcloud/connect-to-a-serverless-cluster" +:+
  newline.

Definition clusterNameFormHint : string :=
  "Cluster identifiers come in the form of <name>-<tenant ID> (e.g. lazy-roach-3).".

Definition missingTenantIDHint : string :=
  "Did you forget to include your tenant ID in the cluster identifier?".

(** ** The two parameters *)

Definition parseDatabaseParam (databaseParam : string) : string * string * option error :=
  if decide (databaseParam = EmptyString) then (EmptyString, EmptyString, None)
  else
    let parts := Split databaseParam "."%char in
    if decide (length parts ≤ 1)%nat then (EmptyString, databaseParam, None)
    else
      let clusterIdentifier := default EmptyString (parts !! 0%nat) in
      let databaseName := default EmptyString (parts !! 1%nat) in
      if decide ((2 < length parts)%nat ∨ clusterIdentifier = EmptyString
                 ∨ databaseName = EmptyString)
      then (EmptyString, EmptyString, Some (errors_New "invalid database param"))
      else (clusterIdentifier, databaseName, None).

Definition parseOptionsParam (optionsParam : string) : string * string * option error :=
  let matches := FindAllStringSubmatch optionsParam 2 in
  match matches with
  | [] => (EmptyString, optionsParam, None)
  | _ :: _ :: _ =>
      (EmptyString, EmptyString, Some (errors_New "multiple cluster flags provided"))
  | [m0] =>
      match m0 with
      | [whole; id] =>
          if decide (String.length id = 0%nat)
          then (EmptyString, EmptyString, Some (errors_New "invalid cluster flag"))
          else
            let newOptionsParam := ReplaceAll optionsParam whole EmptyString in
            let newOptionsParam := TrimSpace newOptionsParam in
            (id, newOptionsParam, None)
      | _ => (EmptyString, EmptyString, Some (errors_New "internal server error"))
      end
  end.

(** ** Tenant identifiers *)

(** Modelled from the spec: [roachpb.TenantID] and its constants are
    declared in [pkg/roachpb], outside the sources at hand.  The spec makes
    a tenant ID an unsigned 64-bit integer whose values 0 and 1 are
    reserved and whose least legal value is 2; [MaxTenantID] is the largest
    value of the type. *)
Record TenantID := MakeTenantID { ToUint64 : Z }.

Definition MinTenantID : TenantID := MakeTenantID 2.
Definition MaxTenantID : TenantID := MakeTenantID maxUint64.

Global Instance TenantID_eq_dec : EqDecision TenantID.
Proof. solve_decision. Defined.

Global Instance Code_eq_dec : EqDecision Code.
Proof. solve_decision. Defined.

Global Instance error_eq_dec : EqDecision error.
Proof. solve_decision. Defined.

(** ** The heap: startup messages and their parameter maps *)

Definition loc := positive.

(** [pgproto3.StartupMessage]; [Parameters] is a Go map, that is a
    reference, [None] for the nil map. *)
Record StartupMessage := {
  ProtocolVersion : Z;
  Parameters : option loc;
}.

Record Heap := {
  messages : gmap loc StartupMessage;
  maps : gmap loc (gmap string string);
}.

(** A computation on the heap that may panic ([None]). *)
Definition M (A : Type) : Type := Heap → option (A * Heap).

Global Instance M_ret : MRet M := λ A a h, Some (a, h).
Global Instance M_bind : MBind M := λ A B f c h,
  match c h with
  | Some (a, h') => f a h'
  | None => None
  end.

(** [*p] for a pointer to a startup message; a nil or dangling pointer
    panics. *)
Definition load (p : loc) : M StartupMessage := λ h,
  match messages h !! p with
  | Some sm => Some (sm, h)
  | None => None
  end.

(** [&pgproto3.StartupMessage{...}] *)
Definition new (sm : StartupMessage) : M loc := λ h,
  let p := fresh (dom (messages h)) in
  Some (p, {| messages := <[p:=sm]> (messages h); maps := maps h |}).

(** [map[string]string{}] *)
Definition makeMap : M (option loc) := λ h,
  let l := fresh (dom (maps h)) in
  Some (Some l, {| messages := messages h; maps := <[l:=∅]> (maps h) |}).

(** The content of a map; the nil map reads as the empty one. *)
Definition mapContent (m : option loc) : M (gmap string string) := λ h,
  match m with
  | None => Some (∅, h)
  | Some l => match maps h !! l with
              | Some c => Some (c, h)
              | None => None
              end
  end.

(** [m[key]]: the value, the empty string for a key that is absent. *)
Definition mapIndex (m : option loc) (key : string) : M string :=
  c ← mapContent m; mret (default EmptyString (c !! key)).

(** The entries that [for key, value := range m] goes through.  Go leaves
    their order open; the model takes the order of [map_to_list]. *)
Definition mapRange (m : option loc) : M (list (string * string)) :=
  c ← mapContent m; mret (map_to_list c).

(** [m[key] = value]; an assignment to an entry of the nil map panics. *)
Definition mapAssign (m : option loc) (key value : string) : M unit := λ h,
  match m with
  | None => None
  | Some l => match maps h !! l with
              | Some c => Some (tt, {| messages := messages h;
                                      maps := <[l:=<[key:=value]> c]> (maps h) |})
              | None => None
              end
  end.

Definition liftOption {A} (o : option A) : M A := λ h,
  match o with
  | Some a => Some (a, h)
  | None => None
  end.

(** ** clusterNameAndTenantFromParams *)

(** The body of the loop that fills [paramsOut]. *)
Definition copyParam (paramsOut : option loc) (databaseName newOptionsParam : string)
    (key value : string) : M unit :=
  if decide (key = "database") then mapAssign paramsOut key databaseName
  else if decide (key = "options") then
    if decide (newOptionsParam ≠ EmptyString)
    then mapAssign paramsOut key newOptionsParam
    else mret tt
  else mapAssign paramsOut key value.

(** The loop over the entries [kvs] of [msg.Parameters]. *)
Fixpoint copyParams (paramsOut : option loc) (databaseName newOptionsParam : string)
    (kvs : list (string * string)) : M unit :=
  match kvs with
  | [] => mret tt
  | (key, value) :: kvs' =>
      _ ← copyParam paramsOut databaseName newOptionsParam key value;
      copyParams paramsOut databaseName newOptionsParam kvs'
  end.

Definition invalidIdentifier (clusterIdentifier : string) : error :=
  errors_New ("invalid cluster identifier '" +:+ clusterIdentifier +:+ "'").

(** The calls to [log.Errorf] are left out: [ctx] serves them only. *)
Definition clusterNameAndTenantFromParams (msg : loc)
    : M (loc * string * TenantID * option error) :=
  m ← load msg;
  database ← mapIndex (Parameters m) "database";
  let '(clusterIdentifierDB, databaseName, err) := parseDatabaseParam database in
  match err with
  | Some err => mret (msg, EmptyString, MaxTenantID, Some err)
  | None =>
  options ← mapIndex (Parameters m) "options";
  let '(clusterIdentifierOpt, newOptionsParam, err) := parseOptionsParam options in
  match err with
  | Some err => mret (msg, EmptyString, MaxTenantID, Some err)
  | None =>
  if decide (clusterIdentifierDB = EmptyString ∧ clusterIdentifierOpt = EmptyString) then
    let err := errors_New "missing cluster identifier" in
    let err := errors_WithHint err clusterIdentifierHint in
    mret (msg, EmptyString, MaxTenantID, Some err)
  else if decide (clusterIdentifierDB ≠ EmptyString ∧ clusterIdentifierOpt ≠ EmptyString
                  ∧ clusterIdentifierDB ≠ clusterIdentifierOpt) then
    let err := errors_New "multiple different cluster identifiers provided" in
    let err := errors_WithHint err
      ("Is '" +:+ clusterIdentifierDB +:+ "' or '" +:+ clusterIdentifierOpt
       +:+ "' the identifier for the cluster that you're connecting to?") in
    let err := errors_WithHint err clusterIdentifierHint in
    mret (msg, EmptyString, MaxTenantID, Some err)
  else
  let clusterIdentifierDB :=
    if decide (clusterIdentifierDB = EmptyString) then clusterIdentifierOpt
    else clusterIdentifierDB in
  let sepIdx := LastIndex clusterIdentifierDB clusterTenantSep in
  if decide (sepIdx = -1 ∨ sepIdx = len clusterIdentifierDB - 1) then
    let err := invalidIdentifier clusterIdentifierDB in
    let err := errors_WithHint err missingTenantIDHint in
    let err := errors_WithHint err clusterNameFormHint in
    mret (msg, EmptyString, MaxTenantID, Some err)
  else
  clusterName ← liftOption (slice clusterIdentifierDB 0 sepIdx);
  tenantIDStr ← liftOption (slice clusterIdentifierDB (sepIdx + 1) (len clusterIdentifierDB));
  if negb (clusterNameRegex clusterName) then
    let err := invalidIdentifier clusterIdentifierDB in
    let err := errors_WithHint err ("Is '" +:+ clusterName +:+ "' a valid cluster name?") in
    let err := errors_WithHint err clusterNameFormHint in
    mret (msg, EmptyString, MaxTenantID, Some err)
  else
  match ParseUint tenantIDStr with
  | None =>
    let err := invalidIdentifier clusterIdentifierDB in
    let err := errors_WithHint err ("Is '" +:+ tenantIDStr +:+ "' a valid tenant ID?") in
    let err := errors_WithHint err clusterNameFormHint in
    mret (msg, EmptyString, MaxTenantID, Some err)
  | Some tenID =>
  if decide (tenID < ToUint64 MinTenantID) then
    let err := invalidIdentifier clusterIdentifierDB in
    let err := errors_WithHint err ("Tenant ID " +:+ formatUint tenID +:+ " is invalid.") in
    mret (msg, EmptyString, MaxTenantID, Some err)
  else
  paramsOut ← makeMap;
  kvs ← mapRange (Parameters m);
  _ ← copyParams paramsOut databaseName newOptionsParam kvs;
  outMsg ← new {| ProtocolVersion := ProtocolVersion m; Parameters := paramsOut |};
  mret (outMsg, clusterName, MakeTenantID tenID, None)
  end end end.

(** ** handle: from the startup message to the message for the backend *)

(** Modelled from the spec: the error codes are declared in [error.go],
    outside the sources at hand; these are the codes the spec lists as
    visible on the wire. *)
Inductive errorCode :=
| codeParamsRoutingFailed | codeProxyRefusedConnection | codeBackendDown
| codeBackendDial | codeIdleDisconnect | codeExpiredClientConnection.

Record codeError := { code : errorCode; err : error }.

(** The steps of [handle] between the admission of the connection and the
    tagging of the context: the identifiers are parsed, a failure is
    turned into the client's error, and the remote address of the client,
    [conn.RemoteAddr().String()], is written into the parameters of the
    message that goes to the backend. *)
Definition handle_backendStartupMsg (remoteAddr : string) (msg : loc)
    : M (codeError + loc * string * TenantID) :=
  '(backendStartupMsg, clusterName, tenID, err) ← clusterNameAndTenantFromParams msg;
  match err with
  | Some err => mret (inl {| code := codeParamsRoutingFailed; err := err |})
  | None =>
      m ← load backendStartupMsg;
      _ ← mapAssign (Parameters m) "crdb:remote_addr" remoteAddr;
      mret (inr (backendStartupMsg, clusterName, tenID))
  end.

(** ** outgoingAddress *)

Section OutgoingAddress.
(** The tenant directory is a collaborator whose code is elsewhere: its
    state is abstract and [EnsureTenantAddr] is a transition on it that
    yields an address or an error.  [resolveTCPAddr] is the hook of the
    source around [net.ResolveTCPAddr]; only its error is looked at. *)
Variable Directory : Type.
Variable EnsureTenantAddr : Directory → TenantID → string → string * option error * Directory.
Variable resolveTCPAddr : string → string → option error.

(** The fields of [proxyHandler] that [outgoingAddress] reads;
    [directory] is [None] for the nil pointer. *)
Record proxyHandler := {
  RoutingRule : string;
  directory : option Directory;
}.

(** The resolution through the routing rule, the second half of
    [outgoingAddress]. *)
Definition outgoingAddress_rule (handler : proxyHandler) (name : string)
    (tenID : TenantID) : string * option error :=
  let addr := ReplaceAll (RoutingRule handler) "{{clusterName}}"
                (name +:+ "-" +:+ formatUint (ToUint64 tenID)) in
  match resolveTCPAddr "tcp" addr with
  | Some err => (EmptyString, Some (status_Error NotFound (Error err)))
  | None => (addr, None)
  end.

(** [outgoingAddress]: the address and the error, and the handler with
    the state its directory is left in. *)
Definition outgoingAddress (handler : proxyHandler) (name : string)
    (tenID : TenantID) : string * option error * proxyHandler :=
  match directory handler with
  | Some d =>
      let '(addr, err, d') := EnsureTenantAddr d tenID name in
      let handler' := {| RoutingRule := RoutingRule handler; directory := Some d' |} in
      match err with
      | Some err =>
          if decide (status_Code err ≠ NotFound) then (EmptyString, Some err, handler')
          else (outgoingAddress_rule handler' name tenID, handler')
      | None => (addr, None, handler')
      end
  | None => (outgoingAddress_rule handler name tenID, handler)
  end.
End OutgoingAddress.

Arguments RoutingRule {_} _.
Arguments directory {_} _.
Arguments outgoingAddress_rule {_} _ _ _ _.
Arguments outgoingAddress {_} _ _ _ _ _.

(** ** Vocabulary of the statements *)

(** [c[key]] on the content of a map. *)
Definition param (c : gmap string string) (key : string) : string :=
  default EmptyString (c !! key).

(** What the parameters of the message at [msg] are in the heap [h]. *)
Definition paramsOf (h : Heap) (msg : loc) : option (gmap string string) :=
  fst <$> (m ← load msg; mapContent (Parameters m)) h.

(** The parameters [c] carry the cluster identifier [id]: both parameters
    parse, [id] is in [database], in [options], or in both alike. *)
Definition carries (c : gmap string string) (id : string) : Prop :=
  ∃ idDB databaseName idOpt newOptionsParam,
    parseDatabaseParam (param c "database") = (idDB, databaseName, None)
    ∧ parseOptionsParam (param c "options") = (idOpt, newOptionsParam, None)
    ∧ id ≠ EmptyString
    ∧ (idDB = id ∨ idDB = EmptyString)
    ∧ (idOpt = id ∨ idOpt = EmptyString)
    ∧ (idDB = id ∨ idOpt = id).

(** What one turn of the loop writes for an entry, [None] for nothing. *)
Definition rewriteParam (databaseName newOptionsParam key value : string) : option string :=
  if decide (key = "database") then Some databaseName
  else if decide (key = "options") then
    if decide (newOptionsParam ≠ EmptyString) then Some newOptionsParam else None
  else Some value.

(** The map a run of the loop over [kvs] leaves, from [acc]. *)
Definition rewriteEntries (databaseName newOptionsParam : string)
    (acc : gmap string string) (kvs : list (string * string)) : gmap string string :=
  foldl (λ acc kv, match rewriteParam databaseName newOptionsParam kv.1 kv.2 with
                   | Some v => <[kv.1:=v]> acc
                   | None => acc
                   end) acc kvs.

(** The verdict of [clusterNameAndTenantFromParams] as a function of the
    two parameters alone: the error, or the database name, the new options,
    the cluster name and the tenant ID.  [clusterNameAndTenantFromParams_run]
    shows that the code on the heap computes it. *)
Definition identify (database options : string) : error + string * string * string * Z :=
  let '(idDB, databaseName, err) := parseDatabaseParam database in
  match err with
  | Some err => inl err
  | None =>
  let '(idOpt, newOptionsParam, err) := parseOptionsParam options in
  match err with
  | Some err => inl err
  | None =>
  if decide (idDB = EmptyString ∧ idOpt = EmptyString) then
    inl (errors_WithHint (errors_New "missing cluster identifier") clusterIdentifierHint)
  else if decide (idDB ≠ EmptyString ∧ idOpt ≠ EmptyString ∧ idDB ≠ idOpt) then
    inl (errors_WithHint
           (errors_WithHint (errors_New "multiple different cluster identifiers provided")
              ("Is '" +:+ idDB +:+ "' or '" +:+ idOpt
               +:+ "' the identifier for the cluster that you're connecting to?"))
           clusterIdentifierHint)
  else
  let id := if decide (idDB = EmptyString) then idOpt else idDB in
  let sepIdx := LastIndex id clusterTenantSep in
  if decide (sepIdx = -1 ∨ sepIdx = len id - 1) then
    inl (errors_WithHint (errors_WithHint (invalidIdentifier id) missingTenantIDHint)
           clusterNameFormHint)
  else
  let clusterName := default EmptyString (slice id 0 sepIdx) in
  let tenantIDStr := default EmptyString (slice id (sepIdx + 1) (len id)) in
  if negb (clusterNameRegex clusterName) then
    inl (errors_WithHint
           (errors_WithHint (invalidIdentifier id)
              ("Is '" +:+ clusterName +:+ "' a valid cluster name?"))
           clusterNameFormHint)
  else
  match ParseUint tenantIDStr with
  | None =>
    inl (errors_WithHint
           (errors_WithHint (invalidIdentifier id)
              ("Is '" +:+ tenantIDStr +:+ "' a valid tenant ID?"))
           clusterNameFormHint)
  | Some tenID =>
  if decide (tenID < ToUint64 MinTenantID) then
    inl (errors_WithHint (invalidIdentifier id)
           ("Tenant ID " +:+ formatUint tenID +:+ " is invalid."))
  else inr (databaseName, newOptionsParam, clusterName, tenID)
  end end end.

(** The heap a successful run leaves: a new map with the rewritten
    parameters and a new message that holds it. *)
Definition rewritten (h : Heap) (version : Z) (databaseName newOptionsParam : string)
    (c : gmap string string) : Heap :=
  let l := fresh (dom (maps h)) in
  let p := fresh (dom (messages h)) in
  {| messages := <[p:={| ProtocolVersion := version; Parameters := Some l |}]> (messages h);
     maps := <[l:=rewriteEntries databaseName newOptionsParam ∅ (map_to_list c)]> (maps h) |}.

(** ** Concrete startup messages *)

Definition heapOf (c : gmap string string) : Heap :=
  {| messages := {[ 1%positive := {| ProtocolVersion := 196608; Parameters := Some 1%positive |} ]};
     maps := {[ 1%positive := c ]} |}.

Definition paramsDatabase : gmap string string :=
  {[ "database" := "happy-koala-3.defaultdb"; "user" := "bob" ]}.

Definition paramsOptions : gmap string string :=
  {[ "database" := "defaultdb"; "options" := "-c cluster=happy-koala-3"; "user" := "bob" ]}.


Definition paramsDashes : gmap string string :=
  {[ "database" := "happy-7-koala-10.defaultdb"; "user" := "bob" ]}.

Definition paramsReserved : gmap string string :=
  {[ "database" := "happy-koala-0.db" ]}.


Definition twoFlags : string := "-c cluster=happy-koala-3 --cluster=happy-koala-3".

(** A directory that knows no tenant, a resolver that resolves every
    address, and a handler that has both a directory and a routing rule. *)
Definition notFoundDirectory (d : unit) (tenID : TenantID) (name : string)
    : string * option error * unit :=
  (EmptyString, Some (status_Error NotFound "tenant not found"), d).

Definition unavailableDirectory (d : unit) (tenID : TenantID) (name : string)
    : string * option error * unit :=
  (EmptyString, Some (status_Error Unavailable "directory is down"), d).

Definition resolvesAll (network address : string) : option error := None.

Definition ruleHandler : proxyHandler unit :=
  {| RoutingRule := "{{clusterName}}.svc:26257"; directory := Some tt |}.

(** ** handle: the guards and the dial loop *)

(** An error value as [handle] meets it: an error of the kinds above, a
    [*codeError], or [errors.WithHint] around one of these. *)
Inductive herror :=
| Plain (e : error)
| Coded (c : codeError)
| Hinted (e : herror) (hint : string).

(** [errors.As(err, &codeErr)]: the first [*codeError] of the chain. *)
Fixpoint asCodeError (e : herror) : option codeError :=
  match e with
  | Plain _ => None
  | Coded c => Some c
  | Hinted e' _ => asCodeError e'
  end.

Global Instance errorCode_eq_dec : EqDecision errorCode.
Proof. solve_decision. Defined.

(** Modelled from the spec: [newErrorf] is declared in [error.go], outside
    the sources at hand; the spec pairs each code with the formatted
    message, as in [codeParamsRoutingFailed] with "cluster X-Y not found". *)
Definition newErrorf (c : errorCode) (msg : string) : codeError :=
  {| code := c; err := errors_New msg |}.

Definition throttledErrorHint : string :=
  "Connection throttling is triggered by repeated authentication failure. Make"
  +:+ newline +:+ "sure the username and password are correct." +:+ newline.

Definition throttledError : herror :=
  Hinted (Coded (newErrorf codeProxyRefusedConnection "connection attempt throttled"))
    throttledErrorHint.

(** The two fields of [tls.Config] that [handle] sets. *)
Record tlsConfig := {
  ServerName : string;
  InsecureSkipVerify : bool;
}.

(** The calls of [handle] to its collaborators, in the order they are
    made.  The denylist and the throttler are given the tenant ID as a
    string, [tenID.String()], whose code is elsewhere: the event keeps the
    tenant ID. *)
Inductive event :=
| EvSendErrToClient (e : herror)
| EvUpdateMetricsAndSendErrToClient (e : herror)
| EvListenForDenied (ip : string) (tenID : TenantID)
| EvRemoveListener
| EvLoginCheck (ip : string) (tenID : TenantID)
| EvOutgoingAddress (name : string) (tenID : TenantID)
| EvBackendDial (msg : loc) (address : string) (tlsConf : option tlsConfig)
| EvReportFailure (tenID : TenantID) (address : string)
| EvCloseConn.

(** The fields of [ProxyOptions] that the dial loop reads. *)
Record dialOptions := {
  Insecure : bool;
  SkipVerify : bool;
}.

Section Handle.
(** The collaborators of [handle].  The directory and the resolver are
    those of [outgoingAddress]; [ReportFailure] is the method of the
    directory behind [reportFailureToDirectory].  [SplitHostPort] is
    [addr.SplitHostPort], a function of its arguments.  What the denylist,
    the throttler and the backend answer is a function of the calls made so
    far, the call that is answered being the last of them.  [Conn] is the
    type of the connections to the backend. *)
Variable Directory : Type.
Variable Conn : Type.
Variable EnsureTenantAddr : Directory → TenantID → string → string * option error * Directory.
Variable resolveTCPAddr : string → string → option error.
Variable ReportFailure : Directory → TenantID → string → option error * Directory.
Variable SplitHostPort : string → string → string * string * option error.
Variable ListenForDenied : list event → option error.
Variable LoginCheck : list event → option error.
Variable BackendDial : list event → option Conn * option herror.

(** The variables of [handle] that the dial loop reads and writes: the
    handler with the state of its directory, the calls made so far, [err],
    [crdbConn] and [outgoingAddress]. *)
Record dialState := {
  dsHandler : proxyHandler Directory;
  dsTrace : list event;
  dsErr : option herror;
  dsConn : option Conn;
  dsAddress : string;
}.

(** How one turn of the loop ends: [continue], [break], or [return] with
    the error for the client. *)
Inductive dialStep :=
| Continue (s : dialState)
| Break (s : dialState)
| Return (e : herror) (s : dialState).

(** The body of the loop.  The logging and its counters are left out. *)
Definition dialOnce (opts : dialOptions) (clusterName : string) (tenID : TenantID)
    (backendStartupMsg : loc) (s : dialState) : dialStep :=
  let '(outgoingAddress, err, handler) :=
    outgoingAddress EnsureTenantAddr resolveTCPAddr (dsHandler s) clusterName tenID in
  let trace := dsTrace s ++ [EvOutgoingAddress clusterName tenID] in
  match err with
  | Some err =>
      if decide (status_Code err ≠ NotFound) then
        Continue {| dsHandler := handler; dsTrace := trace; dsErr := Some (Plain err);
                    dsConn := dsConn s; dsAddress := outgoingAddress |}
      else
        let err := Coded (newErrorf codeParamsRoutingFailed
                            ("cluster " +:+ clusterName +:+ "-"
                             +:+ formatUint (ToUint64 tenID) +:+ " not found")) in
        Break {| dsHandler := handler; dsTrace := trace; dsErr := Some err;
                 dsConn := dsConn s; dsAddress := outgoingAddress |}
  | None =>
      let dial (tlsConf : option tlsConfig) : dialStep :=
        let trace := trace ++ [EvBackendDial backendStartupMsg outgoingAddress tlsConf] in
        let '(crdbConn, err) := BackendDial trace in
        match err with
        | Some e =>
            match asCodeError e with
            | Some codeErr =>
                if decide (code codeErr = codeBackendDown) then
                  match directory handler with
                  | Some d =>
                      let '(err, d') := ReportFailure d tenID outgoingAddress in
                      Continue {| dsHandler := {| RoutingRule := RoutingRule handler;
                                                  directory := Some d' |};
                                  dsTrace := trace ++ [EvReportFailure tenID outgoingAddress];
                                  dsErr := Plain <$> err;
                                  dsConn := crdbConn; dsAddress := outgoingAddress |}
                  | None =>
                      Continue {| dsHandler := handler; dsTrace := trace; dsErr := Some e;
                                  dsConn := crdbConn; dsAddress := outgoingAddress |}
                  end
                else
                  Break {| dsHandler := handler; dsTrace := trace; dsErr := Some e;
                           dsConn := crdbConn; dsAddress := outgoingAddress |}
            | None =>
                Break {| dsHandler := handler; dsTrace := trace; dsErr := Some e;
                         dsConn := crdbConn; dsAddress := outgoingAddress |}
            end
        | None =>
            Break {| dsHandler := handler; dsTrace := trace; dsErr := None;
                     dsConn := crdbConn; dsAddress := outgoingAddress |}
        end in
      if negb (Insecure opts) then
        let '(outgoingHost, _, err) := SplitHostPort outgoingAddress EmptyString in
        match err with
        | Some _ =>
            let clientErr :=
              Coded (newErrorf codeParamsRoutingFailed
                       ("cluster " +:+ clusterName +:+ "-"
                        +:+ formatUint (ToUint64 tenID) +:+ " not found")) in
            Return clientErr
              {| dsHandler := handler;
                 dsTrace := trace ++ [EvUpdateMetricsAndSendErrToClient clientErr];
                 dsErr := dsErr s; dsConn := dsConn s; dsAddress := outgoingAddress |}
        | None =>
            dial (Some {| ServerName := outgoingHost;
                          InsecureSkipVerify := SkipVerify opts |})
        end
      else dial None
  end.

(** The loop [for r := retry.StartWithCtx(ctx, retryOpts); r.Next(); ...].
    Whether [r.Next()] lets one more turn happen is decided by the context
    and the clock: [attempts] is the number of turns it lets happen before
    it stops the loop.  The result is the state the loop is left in, or the
    error and the state of a [return] from inside the loop. *)
Fixpoint dialLoop (attempts : nat) (opts : dialOptions) (clusterName : string)
    (tenID : TenantID) (backendStartupMsg : loc) (s : dialState)
    : dialState + herror * dialState :=
  match attempts with
  | O => inl s
  | S attempts' =>
      match dialOnce opts clusterName tenID backendStartupMsg s with
      | Continue s' => dialLoop attempts' opts clusterName tenID backendStartupMsg s'
      | Break s' => inl s'
      | Return e s' => inr (e, s')
      end
  end.

(** How [handle] is left, as far as it is followed here: by a [return],
    with its error, or past the dial loop and its check of [err], on to
    the idle monitor, the authentication and the relay, with [crdbConn] and
    [outgoingAddress]. *)
Inductive outcome :=
| Returned (err : option herror)
| Dialed (crdbConn : option Conn) (outgoingAddress : string).

(** [handle] from the result of [FrontendAdmit], the message [msg] and the
    error [admitErr], to the end of the dial loop.  [remoteAddr] is
    [conn.RemoteAddr().String()].  The calls deferred so far are run when
    the function returns, last deferred first; for [Dialed] they are still
    to come.  The result is the outcome, the calls made, the handler and
    the heap. *)
Definition handle (opts : dialOptions) (handler : proxyHandler Directory)
    (attempts : nat) (remoteAddr : string) (msg : option loc)
    (admitErr : option herror) (h : Heap)
    : option (outcome * list event * proxyHandler Directory * Heap) :=
  match admitErr with
  | Some err =>
      Some (Returned (Some err), [EvSendErrToClient err; EvCloseConn], handler, h)
  | None =>
  match msg with
  | None => Some (Returned None, [EvCloseConn], handler, h)
  | Some msg =>
  match handle_backendStartupMsg remoteAddr msg h with
  | None => None
  | Some (inl clientErr, h') =>
      Some (Returned (Some (Coded clientErr)),
            [EvUpdateMetricsAndSendErrToClient (Coded clientErr); EvCloseConn],
            handler, h')
  | Some (inr (backendStartupMsg, clusterName, tenID), h') =>
  let '(ipAddr, _, err) := SplitHostPort remoteAddr EmptyString in
  match err with
  | Some _ =>
      let clientErr :=
        Coded (newErrorf codeParamsRoutingFailed "unexpected connection address") in
      Some (Returned (Some clientErr),
            [EvUpdateMetricsAndSendErrToClient clientErr; EvCloseConn], handler, h')
  | None =>
  let trace := [EvListenForDenied ipAddr tenID] in
  match ListenForDenied trace with
  | Some _ =>
      let err := Coded (newErrorf codeProxyRefusedConnection "connection refused") in
      Some (Returned (Some err),
            trace ++ [EvUpdateMetricsAndSendErrToClient err; EvCloseConn], handler, h')
  | None =>
  let trace := trace ++ [EvLoginCheck ipAddr tenID] in
  match LoginCheck trace with
  | Some _ =>
      Some (Returned (Some throttledError),
            trace ++ [EvUpdateMetricsAndSendErrToClient throttledError;
                      EvRemoveListener; EvCloseConn], handler, h')
  | None =>
  match dialLoop attempts opts clusterName tenID backendStartupMsg
          {| dsHandler := handler; dsTrace := trace; dsErr := None;
             dsConn := None; dsAddress := EmptyString |} with
  | inr (clientErr, s) =>
      Some (Returned (Some clientErr),
            dsTrace s ++ [EvRemoveListener; EvCloseConn], dsHandler s, h')
  | inl s =>
      match dsErr s with
      | Some err =>
          Some (Returned (Some err),
                dsTrace s ++ [EvUpdateMetricsAndSendErrToClient err;
                              EvRemoveListener; EvCloseConn], dsHandler s, h')
      | None => Some (Dialed (dsConn s) (dsAddress s), dsTrace s, dsHandler s, h')
      end
  end end end end end end end.
End Handle.

Arguments dialOnce {_ _} _ _ _ _ _ _ _ _ _ _.
Arguments dialLoop {_ _} _ _ _ _ _ _ _ _ _ _ _.
Arguments handle {_ _} _ _ _ _ _ _ _ _ _ _ _ _ _ _.
Arguments dsHandler {_ _} _.
Arguments dsTrace {_ _} _.
Arguments dsErr {_ _} _.
Arguments dsConn {_ _} _.
Arguments dsAddress {_ _} _.
Arguments Continue {_ _} _.
Arguments Break {_ _} _.
Arguments Return {_ _} _ _.
Arguments Returned {_} _.
Arguments Dialed {_} _ _.

(** *** A backend that is down twice *)

(** The number of dials among the calls. *)
Fixpoint dials (trace : list event) : nat :=
  match trace with
  | [] => O
  | EvBackendDial _ _ _ :: trace' => S (dials trace')
  | _ :: trace' => dials trace'
  end.

(** The number of failure reports among the calls. *)
Fixpoint reports (trace : list event) : nat :=
  match trace with
  | [] => O
  | EvReportFailure _ _ :: trace' => S (reports trace')
  | _ :: trace' => reports trace'
  end.

(** A directory with one pod, which takes every report. *)
Definition onePodDirectory (d : unit) (tenID : TenantID) (name : string)
    : string * option error * unit :=
  ("10.0.0.9:26257", None, d).

Definition takesReport (d : unit) (tenID : TenantID) (address : string)
    : option error * unit :=
  (None, d).

Definition wholeAsHost (hostport defaultPort : string) : string * string * option error :=
  (hostport, defaultPort, None).

Definition allowsAll (trace : list event) : option error := None.

(** The backend is down for the first two dials and up from the third. *)
Definition downTwice (trace : list event) : option unit * option herror :=
  if decide (dials trace ≤ 2)%nat
  then (None, Some (Coded (newErrorf codeBackendDown "unable to reach backend SQL server")))
  else (Some tt, None).

Definition directoryHandler : proxyHandler unit :=
  {| RoutingRule := EmptyString; directory := Some tt |}.

Definition secure : dialOptions := {| Insecure := false; SkipVerify := false |}.

(** The calls of [handle] for a client at 10.0.0.7 that asks for
    happy-koala-3, with five turns of the retry, the backend being down
    twice. *)
Definition downTwiceTrace : list event :=
  let tlsConf := Some {| ServerName := "10.0.0.9:26257"; InsecureSkipVerify := false |} in
  [EvListenForDenied "10.0.0.7:52944" (MakeTenantID 3);
   EvLoginCheck "10.0.0.7:52944" (MakeTenantID 3);
   EvOutgoingAddress "happy-koala" (MakeTenantID 3);
   EvBackendDial 2%positive "10.0.0.9:26257" tlsConf;
   EvReportFailure (MakeTenantID 3) "10.0.0.9:26257";
   EvOutgoingAddress "happy-koala" (MakeTenantID 3);
   EvBackendDial 2%positive "10.0.0.9:26257" tlsConf;
   EvReportFailure (MakeTenantID 3) "10.0.0.9:26257";
   EvOutgoingAddress "happy-koala" (MakeTenantID 3);
   EvBackendDial 2%positive "10.0.0.9:26257" tlsConf].

(** *** A backend that stays down *)

Definition alwaysDown (trace : list event) : option unit * option herror :=
  (None, Some (Coded (newErrorf codeBackendDown "unable to reach backend SQL server"))).

(** A handler with a routing rule and no directory. *)
Definition ruleOnlyHandler : proxyHandler unit :=
  {| RoutingRule := "{{clusterName}}.svc:26257"; directory := None |}.

(** *** A cluster that is not found *)

(** A resolver that resolves no address. *)
Definition resolvesNone (network address : string) : option error :=
  Some (errors_New "no such host").

Definition clusterNotFound : herror :=
  Coded (newErrorf codeParamsRoutingFailed "cluster happy-koala-3 not found").

(** The calls of [handle] for the same client when neither the directory
    nor the routing rule finds the cluster. *)
Definition notFoundTrace : list event :=
  [EvListenForDenied "10.0.0.7:52944" (MakeTenantID 3);
   EvLoginCheck "10.0.0.7:52944" (MakeTenantID 3);
   EvOutgoingAddress "happy-koala" (MakeTenantID 3);
   EvUpdateMetricsAndSendErrToClient clusterNotFound;
   EvRemoveListener; EvCloseConn].

(** ** newProxyHandler and the certificate of the listener *)

Module Setup.

(** [ProxyOptions]; a [time.Duration] is its number of nanoseconds. *)
Record ProxyOptions := {
  Denylist : string;
  ListenAddr : string;
  ListenCert : string;
  ListenKey : string;
  MetricsAddress : string;
  SkipVerify : bool;
  Insecure : bool;
  RoutingRule : string;
  DirectoryAddr : string;
  RatelimitBaseDelay : Z;
  ValidateAccessInterval : Z;
  PollConfigInterval : Z;
  DrainTimeout : Z;
  ThrottleBaseDelay : Z;
}.

(** The certificates that [setupIncomingCert] has [certmgr] make, by the
    call that makes them. *)
Inductive Cert :=
| NewSelfSignedCert (years months days secs : Z)
| NewFileCert (certFile keyFile : string).

(** The collaborators that [newProxyHandler] makes, by the calls that make
    them. *)
Inductive Watcher :=
| WatcherFromFile (file : string) (pollingInterval : Z)
| NilWatcher.

Inductive Service :=
| NewLocalService (baseDelay : Z).

Inductive Monitor :=
| NewMonitor (timeout : Z).

(** What is done besides building the handler, in the order it is done:
    the certificate is reloaded, the connection to the directory dialed,
    its closer handed to the stopper, the pod watcher started on its
    goroutine, the directory made, with or without the option
    [tenant.PodWatcher]. *)
Inductive setupEvent :=
| EvReload (cert : Cert)
| EvGrpcDial (target : string)
| EvAddCloser
| EvGoStartPodWatcher
| EvNewDirectory (podWatcher : bool).

Section Setup.
(** [Directory] is the type of the state of a tenant directory and
    [Certificate] the one of [tls.Certificate].  [certErr] is what
    [cert.Err()] answers after [cert.Reload(ctx)], and [TLSCert] what
    [cert.TLSCert()] answers; [grpcDial] is the error of [grpc.Dial] and
    [NewDirectory] what [tenant.NewDirectory] answers for the address
    dialed, with or without a pod watcher: a directory or an error. *)
Variable Directory : Type.
Variable Certificate : Type.
Variable certErr : Cert → option error.
Variable TLSCert : Cert → option Certificate.
Variable grpcDial : string → option error.
Variable NewDirectory : string → bool → Directory + error.

(** The fields of [proxyHandler], but for [metrics] and [stopper], which
    are the pointers given to [newProxyHandler].  A certificate manager is
    the list of the certificates it manages, with their names. *)
Record proxyHandler := {
  options : ProxyOptions;
  incomingCert : option Cert;
  denyListWatcher : option Watcher;
  throttleService : option Service;
  idleMonitor : option Monitor;
  directory : option Directory;
  certManager : list (string * Cert);
}.

(** The field of [tls.Config] that [incomingTLSConfig] sets. *)
Record listenTLSConfig := {
  Certificates : list Certificate;
}.

Definition incomingTLSConfig (handler : proxyHandler) : option listenTLSConfig :=
  match incomingCert handler with
  | None => None
  | Some cert =>
      match TLSCert cert with
      | None => None
      | Some cert => Some {| Certificates := [cert] |}
      end
  end.

(** [setupIncomingCert]: the error, the handler as it is left, and the
    certificate reloaded, if any.  The result is [None] when the code
    panics, which it would on [cert.Reload] with [cert] left nil. *)
Definition setupIncomingCert (handler : proxyHandler)
    : option (option error * proxyHandler * list setupEvent) :=
  let ListenKey := ListenKey (options handler) in
  let ListenCert := ListenCert (options handler) in
  if xorb (bool_decide (ListenKey = EmptyString))
          (bool_decide (ListenCert = EmptyString)) then
    Some (Some (errors_New "must specify either both or neither of cert and key"),
          handler, [])
  else if decide (ListenCert = EmptyString) then Some (None, handler, [])
  else
    let certMgr : list (string * Cert) := [] in
    let cert : option Cert :=
      if decide (ListenCert = "*") then Some (NewSelfSignedCert 0 3 0 0)
      else if decide (ListenCert ≠ EmptyString) then Some (NewFileCert ListenCert ListenKey)
      else None in
    match cert with
    | None => None
    | Some cert =>
        match certErr cert with
        | Some err => Some (Some err, handler, [EvReload cert])
        | None =>
            let certMgr := certMgr ++ [("client", cert)] in
            Some (None,
                  {| options := options handler;
                     incomingCert := Some cert;
                     denyListWatcher := denyListWatcher handler;
                     throttleService := throttleService handler;
                     idleMonitor := idleMonitor handler;
                     directory := directory handler;
                     certManager := certMgr |},
                  [EvReload cert])
        end
    end.

(** [newProxyHandler]: the handler, the error, and what was done on the
    way; [None] when [setupIncomingCert] panics. *)
Definition newProxyHandler (options : ProxyOptions)
    : option (option proxyHandler * option error * list setupEvent) :=
  let handler :=
    {| options := options; incomingCert := None; denyListWatcher := None;
       throttleService := None; idleMonitor := None; directory := None;
       certManager := [] |} in
  match setupIncomingCert handler with
  | None => None
  | Some (Some err, _, events) => Some (None, Some err, events)
  | Some (None, handler, events) =>
      let watcher :=
        if decide (Denylist options ≠ EmptyString)
        then WatcherFromFile (Denylist options) (PollConfigInterval options)
        else NilWatcher in
      let handler :=
        {| options := Setup.options handler;
           incomingCert := incomingCert handler;
           denyListWatcher := Some watcher;
           throttleService :=
             Some (NewLocalService (ThrottleBaseDelay (Setup.options handler)));
           idleMonitor := idleMonitor handler;
           directory := directory handler;
           certManager := certManager handler |} in
      if decide (DirectoryAddr (Setup.options handler) ≠ EmptyString) then
        let target := DirectoryAddr (Setup.options handler) in
        let events := events ++ [EvGrpcDial target] in
        match grpcDial target with
        | Some err => Some (None, Some err, events)
        | None =>
            let events := events ++ [EvAddCloser] in
            let '(monitor, podWatcher, events) :=
              if decide (DrainTimeout options ≠ 0)
              then (Some (NewMonitor (DrainTimeout options)), true,
                    events ++ [EvGoStartPodWatcher])
              else (idleMonitor handler, false, events) in
            let events := events ++ [EvNewDirectory podWatcher] in
            match NewDirectory target podWatcher with
            | inr err => Some (None, Some err, events)
            | inl dir =>
                Some (Some {| options := Setup.options handler;
                              incomingCert := incomingCert handler;
                              denyListWatcher := denyListWatcher handler;
                              throttleService := throttleService handler;
                              idleMonitor := monitor;
                              directory := Some dir;
                              certManager := certManager handler |},
                      None, events)
            end
        end
      else Some (Some handler, None, events)
  end.
End Setup.

Arguments options {_} _.
Arguments incomingCert {_} _.
Arguments denyListWatcher {_} _.
Arguments throttleService {_} _.
Arguments idleMonitor {_} _.
Arguments directory {_} _.
Arguments certManager {_} _.
Arguments Certificates {_} _.
Arguments incomingTLSConfig {_ _} _ _.
Arguments setupIncomingCert {_} _ _.
Arguments newProxyHandler {_} _ _ _ _.

End Setup.

(** ** startPodWatcher *)

Module PodWatcher.

(** Modelled from the spec: [tenant.Pod] is declared in the tenant package,
    outside the sources at hand; the spec gives a pod an address and a
    state among RUNNING, DRAINING and DELETING. *)
Inductive PodState := RUNNING | DRAINING | DELETING.

Record Pod := {
  Addr : string;
  State : PodState;
}.

Global Instance PodState_eq_dec : EqDecision PodState.
Proof. solve_decision. Defined.

(** What a [select] of the loop gets: the end of the context, or a pod
    from the channel. *)
Inductive selected :=
| ctxDone
| received (pod : Pod).

(** The calls to the idle monitor. *)
Inductive idleCall :=
| SetIdleChecks (addr : string)
| ClearIdleChecks (addr : string).

(** [startPodWatcher] on what its [select]s get, one after the other: the
    calls it makes to the idle monitor, and whether it has returned; when
    the list ends before the context does, it is waiting in [select]. *)
Fixpoint startPodWatcher (selects : list selected) : list idleCall * bool :=
  match selects with
  | [] => ([], false)
  | ctxDone :: _ => ([], true)
  | received pod :: selects' =>
      let call :=
        if decide (State pod = DRAINING) then SetIdleChecks (Addr pod)
        else ClearIdleChecks (Addr pod) in
      let '(calls, returned) := startPodWatcher selects' in
      (call :: calls, returned)
  end.

(** Modelled from the spec: the idle monitor keeps a set of armed
    addresses, to which [SetIdleChecks] adds its address and from which
    [ClearIdleChecks] takes it. *)
Definition armedAfter (armed : gset string) (calls : list idleCall) : gset string :=
  foldl (λ armed call,
           match call with
           | SetIdleChecks addr => armed ∪ {[addr]}
           | ClearIdleChecks addr => armed ∖ {[addr]}
           end) armed calls.

(** The pods received before the context ends. *)
Fixpoint podsReceived (selects : list selected) : list Pod :=
  match selects with
  | [] | ctxDone :: _ => []
  | received pod :: selects' => pod :: podsReceived selects'
  end.

(** The state of the last pod of [pods] at the address [addr]. *)
Fixpoint lastState (addr : string) (pods : list Pod) : option PodState :=
  match pods with
  | [] => None
  | pod :: pods' =>
      match lastState addr pods' with
      | Some state => Some state
      | None => if decide (Addr pod = addr) then Some (State pod) else None
      end
  end.

End PodWatcher.

(** *** A proxy with a self-signed certificate and a directory *)

Definition selfSignedOptions : Setup.ProxyOptions :=
  {| Setup.Denylist := EmptyString;
     Setup.ListenAddr := "127.0.0.1:46257";
     Setup.ListenCert := "*";
     Setup.ListenKey := "*";
     Setup.MetricsAddress := "0.0.0.0:8080";
     Setup.SkipVerify := false;
     Setup.Insecure := false;
     Setup.RoutingRule := EmptyString;
     Setup.DirectoryAddr := "directory:8443";
     Setup.RatelimitBaseDelay := 50000000;
     Setup.ValidateAccessInterval := 30000000000;
     Setup.PollConfigInterval := 30000000000;
     Setup.DrainTimeout := 60000000000;
     Setup.ThrottleBaseDelay := 0 |}.

(** Every certificate loads and is its own TLS certificate; the directory
    is reached, and its state is [tt]. *)
Definition loadsAll (cert : Setup.Cert) : option error := None.

Definition certOf (cert : Setup.Cert) : option Setup.Cert := Some cert.

Definition connectsAll (target : string) : option error := None.

Definition unitDirectory (target : string) (podWatcher : bool) : unit + error := inl tt.

(** The handler before [setupIncomingCert], and the one that
    [newProxyHandler] returns, with what was done on the way. *)
Definition selfSignedStart : Setup.proxyHandler unit :=
  {| Setup.options := selfSignedOptions;
     Setup.incomingCert := None;
     Setup.denyListWatcher := None;
     Setup.throttleService := None;
     Setup.idleMonitor := None;
     Setup.directory := None;
     Setup.certManager := [] |}.

Definition selfSignedHandler : Setup.proxyHandler unit :=
  {| Setup.options := selfSignedOptions;
     Setup.incomingCert := Some (Setup.NewSelfSignedCert 0 3 0 0);
     Setup.denyListWatcher := Some Setup.NilWatcher;
     Setup.throttleService := Some (Setup.NewLocalService 0);
     Setup.idleMonitor := Some (Setup.NewMonitor 60000000000);
     Setup.directory := Some tt;
     Setup.certManager := [("client", Setup.NewSelfSignedCert 0 3 0 0)] |}.

Definition selfSignedEvents : list Setup.setupEvent :=
  [Setup.EvReload (Setup.NewSelfSignedCert 0 3 0 0);
   Setup.EvGrpcDial "directory:8443";
   Setup.EvAddCloser;
   Setup.EvGoStartPodWatcher;
   Setup.EvNewDirectory true].

(** ** Vocabulary of the further properties *)

(** A call of the dial loop. *)
Definition isLoopEvent (ev : event) : bool :=
  match ev with
  | EvOutgoingAddress _ _ | EvBackendDial _ _ _ | EvReportFailure _ _ => true
  | _ => false
  end.

(** The errors sent to the client among the calls, in their order. *)
Fixpoint sends (trace : list event) : list herror :=
  match trace with
  | [] => []
  | EvSendErrToClient e :: trace' => e :: sends trace'
  | EvUpdateMetricsAndSendErrToClient e :: trace' => e :: sends trace'
  | _ :: trace' => sends trace'
  end.

(** The deferred calls among the calls, in their order. *)
Fixpoint deferred (trace : list event) : list event :=
  match trace with
  | [] => []
  | EvRemoveListener :: trace' => EvRemoveListener :: deferred trace'
  | EvCloseConn :: trace' => EvCloseConn :: deferred trace'
  | _ :: trace' => deferred trace'
  end.

(** The first call has registered a listener with the denylist. *)
Definition listening (ListenForDenied : list event → option error)
    (trace : list event) : bool :=
  match trace with
  | EvListenForDenied ip tenID :: _ =>
      match ListenForDenied [EvListenForDenied ip tenID] with
      | None => true
      | Some _ => false
      end
  | _ => false
  end.

(** The error of a dial says that the backend is down. *)
Definition isBackendDown (err : option herror) : bool :=
  match err with
  | Some e =>
      match asCodeError e with
      | Some codeErr => bool_decide (code codeErr = codeBackendDown)
      | None => false
      end
  | None => false
  end.

(** The number of dials of [trace], made after the calls [before], that the
    backend answers as being down. *)
Fixpoint downsFrom {Conn : Type} (BackendDial : list event → option Conn * option herror)
    (before trace : list event) : nat :=
  match trace with
  | [] => O
  | ev :: trace' =>
      (match ev with
       | EvBackendDial _ _ _ =>
           if isBackendDown (BackendDial (before ++ [ev])).2 then 1 else 0
       | _ => 0
       end + downsFrom BackendDial (before ++ [ev]) trace')%nat
  end.


(** The byte [c] occurs in [s]. *)
Fixpoint hasByte (c : ascii) (s : string) : bool :=
  match s with
  | EmptyString => false
  | String b s' => bool_decide (b = c) || hasByte c s'
  end.

(** Every byte of [s] satisfies [p]. *)
Fixpoint allBytes (p : ascii → bool) (s : string) : bool :=
  match s with
  | EmptyString => true
  | String b s' => p b && allBytes p s'
  end.

(** The last byte of [s]. *)
Fixpoint lastByte (s : string) : option ascii :=
  match s with
  | EmptyString => None
  | String b EmptyString => Some b
  | String _ s' => lastByte s'
  end.

(** A byte of the class [[a-z0-9-]]. *)
Definition isNameByte (c : ascii) : bool :=
  isLowerAlnum c || bool_decide (c = "-"%char).

(** A byte of the class [\S]. *)
Definition nonSpace (c : ascii) : bool := negb (reSpace c).

(** The text before the value in a cluster flag: [--cluster=], or [-c], a
    run of [\s] that may be empty, and [cluster=]. *)
Definition clusterFlag (flag : string) : Prop :=
  flag = "--cluster="
  ∨ ∃ ws, allBytes reSpace ws = true ∧ flag = "-c" +:+ ws +:+ "cluster=".

(** [s] is empty, or starts with a byte of [\s]. *)
Definition startsWithSpace (s : string) : Prop :=
  s = EmptyString ∨ ∃ c r, s = String c r ∧ reSpace c = true.

(** No match of the cluster flag starts at a byte of [pre] in [pre +:+ t]. *)
Fixpoint noMatchBefore (pre t : string) : Prop :=
  match pre with
  | EmptyString => True
  | String c pre' =>
      clusterIdentifierLongOptionRE (String c pre' +:+ t) = None
      ∧ noMatchBefore pre' t
  end.

(** * Proofs *)

(** ** Small inputs *)

(** The example of the source: in [foo-7-10] the tenant ID is [10]. *)
Example LastIndex_foo_7_10 :
  LastIndex "foo-7-10" clusterTenantSep = 5
  ∧ slice "foo-7-10" 0 5 = Some "foo-7" ∧ slice "foo-7-10" 6 8 = Some "10".
Proof. by vm_compute. Qed.

Example identify_leading_zeros :
  identify "happy-koala-0-07.defaultdb" EmptyString
  = inr ("defaultdb", EmptyString, "happy-koala-0", 7).
Proof. by vm_compute. Qed.

Example identify_short_name :
  identify "koala-1.db" EmptyString
  = inl (errors_WithHint
           (errors_WithHint (errors_New "invalid cluster identifier 'koala-1'")
              "Is 'koala' a valid cluster name?")
           clusterNameFormHint).
Proof. by vm_compute. Qed.

Example identify_bad_tenant :
  identify "happy-koala-0-7a.defaultdb" EmptyString
  = inl (errors_WithHint
           (errors_WithHint (errors_New "invalid cluster identifier 'happy-koala-0-7a'")
              "Is '7a' a valid tenant ID?")
           clusterNameFormHint).
Proof. by vm_compute. Qed.

Example identify_tenant_out_of_range :
  identify "happy-koala-18446744073709551616.db" EmptyString
  = inl (errors_WithHint
           (errors_WithHint
              (errors_New "invalid cluster identifier 'happy-koala-18446744073709551616'")
              "Is '18446744073709551616' a valid tenant ID?")
           clusterNameFormHint).
Proof. by vm_compute. Qed.

Example parseOptionsParam_keeps_the_rest :
  parseOptionsParam ("-csearch_path=public --cluster=happy-koala-7" +:+ tab +:+ "--foo=bar")
  = ("happy-koala-7", "-csearch_path=public " +:+ tab +:+ "--foo=bar", None).
Proof. by vm_compute. Qed.

Example parseOptionsParam_short_forms :
  parseOptionsParam "-ccluster=happy-koala-7" = ("happy-koala-7", EmptyString, None)
  ∧ parseOptionsParam "-c   cluster=happy-koala-7" = ("happy-koala-7", EmptyString, None)
  ∧ parseOptionsParam "--cluster=" = (EmptyString, EmptyString,
                                       Some (errors_New "invalid cluster flag")).
Proof. by vm_compute. Qed.

(** The text left once the one match is cut out can hold a flag again. *)
Example parseOptionsParam_leaves_a_flag :
  parseOptionsParam "-c--cluster=abcdef-5 cluster=zzzzzz-9"
  = ("abcdef-5", "-c cluster=zzzzzz-9", None).
Proof. by vm_compute. Qed.

Example TrimSpace_unicode :
  TrimSpace (String "194" (String "160" (" a b" +:+ tab +:+ String "226" (String "128" (String "137" newline)))))
  = "a b".
Proof. by vm_compute. Qed.

(** ** The heap monad *)

Ltac step_bind := unfold mbind at 1, M_bind at 1.

Lemma mapContent_heap m h c h' : mapContent m h = Some (c, h') → h' = h.
Proof.
  unfold mapContent. destruct m as [l|]; [destruct (maps h !! l)|]; congruence.
Qed.

Lemma paramsOf_inv h msg c :
  paramsOf h msg = Some c →
  ∃ sm, messages h !! msg = Some sm ∧ mapContent (Parameters sm) h = Some (c, h).
Proof.
  unfold paramsOf, mbind, M_bind, load. intros H.
  destruct (messages h !! msg) as [sm|] eqn:Hsm; [|done].
  exists sm. split; [done|].
  destruct (mapContent (Parameters sm) h) as [[c' h']|] eqn:Hc; simplify_eq/=.
  by rewrite (mapContent_heap _ _ _ _ Hc) in Hc |- *.
Qed.

Lemma paramsOf_intro h msg sm c :
  messages h !! msg = Some sm → mapContent (Parameters sm) h = Some (c, h) →
  paramsOf h msg = Some c.
Proof.
  intros Hsm Hc. unfold paramsOf, mbind, M_bind, load. by rewrite Hsm, Hc.
Qed.

Lemma mapIndex_run m h c key :
  mapContent m h = Some (c, h) → mapIndex m key h = Some (param c key, h).
Proof. intros Hc. unfold mapIndex. step_bind. by rewrite Hc. Qed.

Lemma mapRange_run m h c :
  mapContent m h = Some (c, h) → mapRange m h = Some (map_to_list c, h).
Proof. intros Hc. unfold mapRange. step_bind. by rewrite Hc. Qed.

Lemma Heap_eta h : {| messages := messages h; maps := maps h |} = h.
Proof. by destruct h. Qed.

(** ** The loop that copies the parameters *)

Lemma copyParams_run l databaseName newOptionsParam kvs : ∀ h acc,
  maps h !! l = Some acc →
  copyParams (Some l) databaseName newOptionsParam kvs h
  = Some (tt, {| messages := messages h;
                 maps := <[l:=rewriteEntries databaseName newOptionsParam acc kvs]> (maps h) |}).
Proof.
  induction kvs as [|[key value] kvs IH]; intros h acc Hl; simpl.
  - unfold mret, M_ret. rewrite insert_id by done. by rewrite Heap_eta.
  - unfold mbind, M_bind, copyParam, rewriteParam, mapAssign. simpl.
    repeat case_decide; rewrite ?Hl; unfold mret, M_ret;
      try (erewrite IH by (simpl; apply lookup_insert_eq); simpl;
           by rewrite insert_insert_eq).
    by erewrite IH by done.
Qed.

Lemma rewriteEntries_lookup databaseName newOptionsParam kvs : ∀ acc key,
  NoDup kvs.*1 →
  rewriteEntries databaseName newOptionsParam acc kvs !! key
  = match (list_to_map kvs : gmap string string) !! key with
    | Some value =>
        match rewriteParam databaseName newOptionsParam key value with
        | Some v => Some v
        | None => acc !! key
        end
    | None => acc !! key
    end.
Proof.
  induction kvs as [|[k0 v0] kvs IH]; intros acc key Hnd; simpl.
  - by rewrite lookup_empty.
  - apply NoDup_cons in Hnd as [Hk0 Hnd]. unfold rewriteEntries in *. simpl.
    rewrite IH by done.
    apply not_elem_of_list_to_map_1 in Hk0. simpl in Hk0.
    destruct (decide (key = k0)) as [->|Hne].
    + rewrite Hk0, lookup_insert_eq.
      destruct (rewriteParam _ _ k0 v0); [by rewrite lookup_insert_eq|done].
    + rewrite (lookup_insert_ne _ k0 key) by done.
      destruct (rewriteParam _ _ k0 v0); [by rewrite lookup_insert_ne|done].
Qed.

Lemma rewriteEntries_map databaseName newOptionsParam (c : gmap string string) key :
  rewriteEntries databaseName newOptionsParam ∅ (map_to_list c) !! key
  = c !! key ≫= rewriteParam databaseName newOptionsParam key.
Proof.
  rewrite rewriteEntries_lookup by apply NoDup_fst_map_to_list.
  rewrite list_to_map_to_list, lookup_empty.
  destruct (c !! key) as [v|]; simpl; [|done].
  by destruct (rewriteParam _ _ key v).
Qed.

Lemma rewriteEntries_perm databaseName newOptionsParam (c acc : gmap string string) kvs :
  kvs ≡ₚ map_to_list c →
  rewriteEntries databaseName newOptionsParam acc kvs
  = rewriteEntries databaseName newOptionsParam acc (map_to_list c).
Proof.
  intros Hp. apply map_eq. intros key.
  assert (NoDup kvs.*1) as Hnd.
  { rewrite Hp. apply NoDup_fst_map_to_list. }
  rewrite !rewriteEntries_lookup by (done || apply NoDup_fst_map_to_list).
  by rewrite (list_to_map_proper kvs (map_to_list c)).
Qed.

(** ** The run of clusterNameAndTenantFromParams *)

Lemma String_prefix_nil s : String.prefix EmptyString s = true.
Proof. by destruct s. Qed.

Lemma LastIndex_bounds substr (Hsub : substr ≠ EmptyString) s :
  -1 ≤ LastIndex s substr < len s ∨ (s = EmptyString ∧ LastIndex s substr = -1).
Proof.
  induction s as [|c s IH]; simpl.
  - right. by rewrite decide_False.
  - left. unfold len in *. simpl String.length. rewrite Nat2Z.inj_succ.
    case_decide.
    + destruct IH as [?|[-> ?]]; [lia|]. simpl in *. lia.
    + match goal with |- context [if ?b then 0 else -1] => destruct b end; lia.
Qed.

Lemma slice_Some s lo hi :
  0 ≤ lo → lo ≤ hi → hi ≤ len s → is_Some (slice s lo hi).
Proof. intros. unfold slice. rewrite decide_True by done. eauto. Qed.

Lemma clusterNameAndTenantFromParams_run h msg c :
  paramsOf h msg = Some c →
  ∃ sm, messages h !! msg = Some sm ∧
  clusterNameAndTenantFromParams msg h
  = Some match identify (param c "database") (param c "options") with
         | inl e => ((msg, EmptyString, MaxTenantID, Some e), h)
         | inr (databaseName, newOptionsParam, clusterName, tenID) =>
             ((fresh (dom (messages h)), clusterName, MakeTenantID tenID, None),
              rewritten h (ProtocolVersion sm) databaseName newOptionsParam c)
         end.
Proof.
  intros (sm & Hsm & Hc)%paramsOf_inv. exists sm. split; [done|].
  unfold clusterNameAndTenantFromParams, identify.
  step_bind. unfold load. rewrite Hsm.
  step_bind. rewrite (mapIndex_run _ _ _ _ Hc).
  destruct (parseDatabaseParam (param c "database")) as [[idDB databaseName] [e|]]; [done|].
  step_bind. rewrite (mapIndex_run _ _ _ _ Hc).
  destruct (parseOptionsParam (param c "options")) as [[idOpt newOptionsParam] [e|]]; [done|].
  case_decide; [done|]. case_decide; [done|].
  set (id := if decide (idDB = EmptyString) then idOpt else idDB).
  case_decide as Hsep; [done|].
  destruct (LastIndex_bounds clusterTenantSep ltac:(done) id) as [Hb|[_ Hb]]; [|lia].
  destruct (slice_Some id 0 (LastIndex id clusterTenantSep)) as [clusterName Hname]; [lia..|].
  destruct (slice_Some id (LastIndex id clusterTenantSep + 1) (len id))
    as [tenantIDStr Htid]; [lia..|].
  step_bind. rewrite Hname. simpl liftOption.
  step_bind. rewrite Htid. simpl liftOption. simpl default.
  destruct (clusterNameRegex clusterName); cbn [negb]; [|done].
  destruct (ParseUint tenantIDStr) as [tenID|]; [|done].
  case_decide; [done|].
  step_bind. unfold makeMap. cbv zeta.
  set (l := fresh (dom (maps h))).
  set (h1 := {| messages := messages h; maps := <[l:=∅]> (maps h) |}).
  assert (maps h !! l = None) as Hl.
  { apply not_elem_of_dom. apply is_fresh. }
  assert (mapContent (Parameters sm) h1 = Some (c, h1)) as Hc1.
  { revert Hc. unfold mapContent. destruct (Parameters sm) as [l0|]; [|by intros [= <-]].
    simpl. destruct (maps h !! l0) as [c0|] eqn:Hl0; [|done].
    intros [= ->]. rewrite lookup_insert_ne; [by rewrite Hl0|].
    intros ->. by rewrite Hl in Hl0. }
  step_bind. rewrite (mapRange_run _ _ _ Hc1).
  step_bind.
  rewrite (copyParams_run l _ _ _ h1 ∅) by apply lookup_insert_eq.
  step_bind. unfold new, mret, M_ret. simpl.
  unfold rewritten. fold l. by rewrite insert_insert_eq.
Qed.

(** ** Strings: an identifier [X-N] *)

Lemma append_cons c s r : String c s +:+ r = String c (s +:+ r).
Proof. reflexivity. Qed.

Lemma len_cons c s : len (String c s) = len s + 1.
Proof. unfold len. simpl String.length. lia. Qed.

Lemma len_append s r : len (s +:+ r) = len s + len r.
Proof.
  induction s as [|c s IH]; [done|].
  rewrite append_cons, !len_cons. lia.
Qed.

Lemma substring_all s : String.substring 0 (String.length s) s = s.
Proof. induction s as [|c s IH]; simpl; [done|by rewrite IH]. Qed.

Lemma substring_app_l s r :
  String.substring 0 (String.length s) (s +:+ r) = s.
Proof.
  induction s as [|c s IH]; [by destruct r|].
  rewrite append_cons. simpl. by rewrite IH.
Qed.

Lemma substring_app_r s r m :
  String.substring (String.length s) m (s +:+ r) = String.substring 0 m r.
Proof. induction s as [|c s IH]; [done|]. by rewrite append_cons. Qed.

Lemma digit_not_sep c : between "0" "9" c = true → c ≠ "-"%char.
Proof. intros H ->. done. Qed.

Lemma LastIndex_cons c s substr :
  LastIndex (String c s) substr
  = if decide (0 ≤ LastIndex s substr) then LastIndex s substr + 1
    else if String.prefix substr (String c s) then 0 else -1.
Proof. reflexivity. Qed.

Lemma prefix_sep c s :
  String.prefix clusterTenantSep (String c s) = bool_decide (c = "-"%char).
Proof.
  unfold clusterTenantSep. cbn [String.prefix].
  destruct (ascii_dec "-" c) as [<-|Hne]; [by rewrite String_prefix_nil|].
  by rewrite bool_decide_eq_false_2.
Qed.

Lemma ParseUint_loop_cons c s n :
  ParseUint_loop (String c s) n
  = if between "0" "9" c then
      if decide (maxUint64 / 10 + 1 ≤ n) then None
      else if decide (((n * 10) mod 2 ^ 64 + (byte c - byte "0")) mod 2 ^ 64
                      < (n * 10) mod 2 ^ 64
                      ∨ maxUint64 < ((n * 10) mod 2 ^ 64 + (byte c - byte "0")) mod 2 ^ 64)
           then None
           else ParseUint_loop s (((n * 10) mod 2 ^ 64 + (byte c - byte "0")) mod 2 ^ 64)
    else None.
Proof. reflexivity. Qed.

Lemma ParseUint_loop_no_sep N : ∀ acc n,
  ParseUint_loop N acc = Some n → LastIndex N clusterTenantSep = -1.
Proof.
  induction N as [|c N IH]; intros acc n; [done|].
  rewrite ParseUint_loop_cons, LastIndex_cons, prefix_sep.
  destruct (between "0" "9" c) eqn:Hc; [|done].
  repeat case_decide; try done.
  - intros HI%IH. lia.
  - intros _. apply digit_not_sep in Hc. by rewrite bool_decide_eq_false_2.
Qed.

Lemma LastIndex_sep X N :
  LastIndex N clusterTenantSep = -1 →
  LastIndex (X +:+ clusterTenantSep +:+ N) clusterTenantSep = len X.
Proof.
  intros HN. induction X as [|c X IH].
  - change (LastIndex (String "-" N) clusterTenantSep = 0).
    rewrite LastIndex_cons, prefix_sep, HN. by rewrite decide_False by lia.
  - rewrite append_cons, len_cons, LastIndex_cons, IH.
    rewrite decide_True; [done|]. unfold len. lia.
Qed.

Lemma identifier_split X N n :
  ParseUint N = Some n →
  let id := X +:+ clusterTenantSep +:+ N in
  LastIndex id clusterTenantSep = len X
  ∧ len X ≠ len id - 1
  ∧ slice id 0 (len X) = Some X
  ∧ slice id (len X + 1) (len id) = Some N.
Proof.
  intros Hn id. unfold ParseUint in Hn. case_decide as HN; [done|].
  assert (len id = len X + 1 + len N) as Hlen.
  { unfold id. rewrite !len_append. change (len clusterTenantSep) with 1. lia. }
  assert (0 < len N).
  { destruct N; [done|]. rewrite len_cons. unfold len. lia. }
  assert (0 ≤ len X) by (unfold len; lia).
  split_and!.
  - apply LastIndex_sep. eapply ParseUint_loop_no_sep, Hn.
  - lia.
  - unfold slice. rewrite decide_True by lia. f_equal.
    rewrite Z.sub_0_r. unfold len. rewrite Nat2Z.id. apply substring_app_l.
  - unfold slice. rewrite decide_True by lia. f_equal.
    replace (Z.to_nat (len X + 1)) with (String.length (X +:+ clusterTenantSep)).
    2:{ apply Nat2Z.inj. fold (len (X +:+ clusterTenantSep)). rewrite len_append.
        change (len clusterTenantSep) with 1. lia. }
    replace (Z.to_nat (len id - (len X + 1))) with (String.length N).
    2:{ apply Nat2Z.inj. fold (len N). lia. }
    unfold id.
    replace (X +:+ clusterTenantSep +:+ N) with ((X +:+ clusterTenantSep) +:+ N).
    2:{ clear. induction X as [|c X IH]; [done|]. by rewrite !append_cons, IH. }
    rewrite substring_app_r. apply substring_all.
Qed.

(** ** The verdict on an identifier that the parameters carry *)

Lemma identify_carries c id :
  carries c id →
  ∃ idDB databaseName idOpt newOptionsParam,
    parseDatabaseParam (param c "database") = (idDB, databaseName, None)
    ∧ parseOptionsParam (param c "options") = (idOpt, newOptionsParam, None)
    ∧ ¬ (idDB = EmptyString ∧ idOpt = EmptyString)
    ∧ ¬ (idDB ≠ EmptyString ∧ idOpt ≠ EmptyString ∧ idDB ≠ idOpt)
    ∧ (if decide (idDB = EmptyString) then idOpt else idDB) = id.
Proof.
  intros (idDB & databaseName & idOpt & newOptionsParam & HDB & HOpt & Hid & H1 & H2 & H3).
  exists idDB, databaseName, idOpt, newOptionsParam. split_and!; [done|done|..].
  - intros [-> ->]. destruct H3; congruence.
  - intros (? & ? & ?). destruct H1, H2; congruence.
  - case_decide; destruct H1, H3; congruence.
Qed.

Lemma identify_split c X N n :
  carries c (X +:+ clusterTenantSep +:+ N) →
  clusterNameRegex X = true → ParseUint N = Some n → 2 ≤ n →
  ∃ databaseName newOptionsParam,
    identify (param c "database") (param c "options")
    = inr (databaseName, newOptionsParam, X, n).
Proof.
  intros (idDB & databaseName & idOpt & newOptionsParam & HDB & HOpt & H1 & H2 & Hid)
    %identify_carries HX HN Hn.
  exists databaseName, newOptionsParam.
  destruct (identifier_split X N n HN) as (Hsep & Hlast & Hname & Htid).
  unfold identify. rewrite HDB, HOpt.
  rewrite (decide_False _ _ H1), (decide_False _ _ H2), Hid.
  rewrite Hsep, decide_False by (intros [?|?]; unfold len in *; lia).
  rewrite Hname, Htid. simpl default. rewrite HX, HN. cbn [negb].
  by rewrite decide_False by (simpl; lia).
Qed.

Lemma identify_reserved c X N n :
  carries c (X +:+ clusterTenantSep +:+ N) →
  ParseUint N = Some n → n < 2 →
  ∃ e, identify (param c "database") (param c "options") = inl e.
Proof.
  intros (idDB & databaseName & idOpt & newOptionsParam & HDB & HOpt & H1 & H2 & Hid)
    %identify_carries HN Hn.
  destruct (identifier_split X N n HN) as (Hsep & Hlast & Hname & Htid).
  unfold identify. rewrite HDB, HOpt.
  rewrite (decide_False _ _ H1), (decide_False _ _ H2), Hid.
  rewrite Hsep, decide_False by (intros [?|?]; unfold len in *; lia).
  rewrite Hname, Htid. simpl default. rewrite HN.
  destruct (clusterNameRegex X); cbn [negb]; [|eauto].
  rewrite decide_True by (simpl; lia). eauto.
Qed.

(** ** The cap on the matches *)

Lemma FindAll_from_cons skip n c s :
  FindAll_from skip n (String c s)
  = match skip with
    | S k => FindAll_from k n s
    | O =>
        match n with
        | O => []
        | S n' =>
            match clusterIdentifierLongOptionRE (String c s) with
            | Some (whole, id) => [whole; id] :: FindAll_from (String.length whole - 1) n' s
            | None => FindAll_from O n s
            end
        end
    end.
Proof. reflexivity. Qed.

Lemma FindAll_from_take s : ∀ skip n m,
  (n ≤ m)%nat → FindAll_from skip n s = take n (FindAll_from skip m s).
Proof.
  induction s as [|c s IH]; intros skip n m Hnm.
  - cbn [FindAll_from]. by rewrite take_nil.
  - rewrite !FindAll_from_cons.
    destruct skip as [|k]; [|by apply IH].
    destruct n as [|n]; [by rewrite take_0|].
    destruct m as [|m]; [lia|].
    destruct (clusterIdentifierLongOptionRE (String c s)) as [[whole id]|].
    + rewrite firstn_cons. f_equal. apply IH. lia.
    + apply IH. lia.
Qed.

Lemma FindAllStringSubmatch_cap s :
  FindAllStringSubmatch s 2 = take 2 (FindAllStringSubmatch s (-1)).
Proof.
  unfold FindAllStringSubmatch. destruct s as [|c s]; [done|].
  apply FindAll_from_take. repeat case_decide; try lia.
  rewrite len_cons. unfold len. lia.
Qed.

(** ** The heap after a successful run *)

Lemma paramsOf_rewritten_out h version databaseName newOptionsParam c :
  paramsOf (rewritten h version databaseName newOptionsParam c) (fresh (dom (messages h)))
  = Some (rewriteEntries databaseName newOptionsParam ∅ (map_to_list c)).
Proof.
  eapply paramsOf_intro; simpl; [apply lookup_insert_eq|].
  simpl. by rewrite lookup_insert_eq.
Qed.

Lemma paramsOf_rewritten_frame h version databaseName newOptionsParam c msg c0 :
  paramsOf h msg = Some c0 →
  paramsOf (rewritten h version databaseName newOptionsParam c) msg = Some c0.
Proof.
  intros (sm & Hsm & Hc)%paramsOf_inv.
  assert (messages h !! fresh (dom (messages h)) = None) as Hp
    by apply not_elem_of_dom, is_fresh.
  assert (maps h !! fresh (dom (maps h)) = None) as Hl
    by apply not_elem_of_dom, is_fresh.
  eapply (paramsOf_intro _ _ sm); simpl.
  - rewrite lookup_insert_ne; [done|]. intros He. by rewrite He, Hsm in Hp.
  - revert Hc. unfold mapContent. destruct (Parameters sm) as [l0|]; [|by intros [= <-]].
    simpl. destruct (maps h !! l0) as [c1|] eqn:Hl0; [|done].
    intros [= ->]. rewrite lookup_insert_ne; [by rewrite Hl0|].
    intros He. by rewrite He, Hl0 in Hl.
Qed.

Lemma rewritten_param_database databaseName newOptionsParam (c : gmap string string) idDB :
  parseDatabaseParam (param c "database") = (idDB, databaseName, None) →
  param (rewriteEntries databaseName newOptionsParam ∅ (map_to_list c)) "database"
  = databaseName.
Proof.
  unfold param. rewrite rewriteEntries_map.
  destruct (c !! "database") as [v|]; simpl; [done|].
  by intros [= _ <-].
Qed.

Lemma rewritten_param_options databaseName newOptionsParam (c : gmap string string) idOpt :
  parseOptionsParam (param c "options") = (idOpt, newOptionsParam, None) →
  param (rewriteEntries databaseName newOptionsParam ∅ (map_to_list c)) "options"
  = newOptionsParam.
Proof.
  unfold param. rewrite rewriteEntries_map.
  destruct (c !! "options") as [v|]; simpl.
  - intros _. unfold rewriteParam. simpl. case_decide as Hn; [done|].
    simpl. congruence.
  - by intros [= _ <-].
Qed.

Lemma rewritten_lookup_other databaseName newOptionsParam (c : gmap string string) key :
  key ≠ "database" → key ≠ "options" →
  rewriteEntries databaseName newOptionsParam ∅ (map_to_list c) !! key = c !! key.
Proof.
  intros H1 H2. rewrite rewriteEntries_map. unfold rewriteParam.
  destruct (c !! key) as [v|]; simpl; [|done].
  destruct (decide (key = "database")); [done|].
  by destruct (decide (key = "options")).
Qed.

(** What a success tells about the two parameters. *)
Lemma identify_inr database options databaseName newOptionsParam clusterName tenID :
  identify database options = inr (databaseName, newOptionsParam, clusterName, tenID) →
  ∃ idDB idOpt,
    parseDatabaseParam database = (idDB, databaseName, None)
    ∧ parseOptionsParam options = (idOpt, newOptionsParam, None)
    ∧ 2 ≤ tenID.
Proof.
  unfold identify.
  destruct (parseDatabaseParam database) as [[idDB dbn] [e|]]; [done|].
  destruct (parseOptionsParam options) as [[idOpt newOpt] [e|]]; [done|].
  repeat case_decide; try done.
  all: destruct (negb _); [done|].
  all: destruct (ParseUint _) as [n|]; [|done].
  all: case_decide as Hn; [done|]; intros [= <- <- _ <-].
  all: exists idDB, idOpt; split_and!; [done..|]; simpl in Hn; lia.
Qed.

(** A successful run, read back. *)
Lemma clusterNameAndTenantFromParams_success h msg c out name tid h' :
  paramsOf h msg = Some c →
  clusterNameAndTenantFromParams msg h = Some ((out, name, tid, None), h') →
  ∃ sm databaseName newOptionsParam,
    messages h !! msg = Some sm
    ∧ identify (param c "database") (param c "options")
      = inr (databaseName, newOptionsParam, name, ToUint64 tid)
    ∧ out = fresh (dom (messages h))
    ∧ h' = rewritten h (ProtocolVersion sm) databaseName newOptionsParam c.
Proof.
  intros Hc Hrun. destruct (clusterNameAndTenantFromParams_run h msg c Hc) as (sm & Hsm & Heq).
  rewrite Heq in Hrun. exists sm.
  destruct (identify _ _) as [e|[[[dbn newOpt] name'] n]]; [done|].
  injection Hrun as <- <- <- <-. by exists dbn, newOpt.
Qed.

(** * The claims *)

(** C1: a startup message with [database = happy-koala-3.defaultdb] and no
    [options], and one with [database = defaultdb] and
    [options = -c cluster=happy-koala-3], both yield the cluster name
    [happy-koala] and the tenant ID 3, and a new message whose [database] is
    [defaultdb] and which has no [options] entry. *)
Theorem C1_scenarios h msg c :
  paramsOf h msg = Some c →
  (c !! "database" = Some "happy-koala-3.defaultdb" ∧ c !! "options" = None)
  ∨ (c !! "database" = Some "defaultdb"
     ∧ c !! "options" = Some "-c cluster=happy-koala-3") →
  ∃ out h' c',
    clusterNameAndTenantFromParams msg h
    = Some ((out, "happy-koala", MakeTenantID 3, None), h')
    ∧ paramsOf h' out = Some c'
    ∧ c' !! "database" = Some "defaultdb"
    ∧ c' !! "options" = None.
Proof.
  intros Hc Hcase.
  destruct (clusterNameAndTenantFromParams_run h msg c Hc) as (sm & Hsm & Hrun).
  assert (identify (param c "database") (param c "options")
          = inr ("defaultdb", EmptyString, "happy-koala", 3)) as Hid.
  { unfold param. destruct Hcase as [[-> ->]|[-> ->]]; by vm_compute. }
  rewrite Hid in Hrun. eexists _, _, _. split; [exact Hrun|].
  split; [apply paramsOf_rewritten_out|].
  rewrite !rewriteEntries_map.
  destruct Hcase as [[-> ->]|[-> ->]]; by vm_compute.
Qed.

Lemma C1_scenarios_witness :
  (∃ out h' c',
     clusterNameAndTenantFromParams 1%positive (heapOf paramsDatabase)
     = Some ((out, "happy-koala", MakeTenantID 3, None), h')
     ∧ paramsOf h' out = Some c'
     ∧ c' !! "database" = Some "defaultdb" ∧ c' !! "options" = None)
  ∧ (∃ out h' c',
     clusterNameAndTenantFromParams 1%positive (heapOf paramsOptions)
     = Some ((out, "happy-koala", MakeTenantID 3, None), h')
     ∧ paramsOf h' out = Some c'
     ∧ c' !! "database" = Some "defaultdb" ∧ c' !! "options" = None).
Proof.
  split.
  - apply (C1_scenarios (heapOf paramsDatabase) 1%positive paramsDatabase);
      [reflexivity|left; split; reflexivity].
  - apply (C1_scenarios (heapOf paramsOptions) 1%positive paramsOptions);
      [reflexivity|right; split; reflexivity].
Defined.

(** C3: when the parameters carry an identifier [X-N] whose [N] parses as a
    tenant ID of at least 2 and whose [X] has the format of a cluster name,
    the dash before [N] is the last one of the identifier, the cluster name
    returned is [X], dashes and digits included, and the tenant ID is [N]. *)
Theorem C3_split_at_last_dash h msg c X N n :
  paramsOf h msg = Some c →
  carries c (X +:+ clusterTenantSep +:+ N) →
  ParseUint N = Some n → 2 ≤ n → clusterNameRegex X = true →
  LastIndex (X +:+ clusterTenantSep +:+ N) clusterTenantSep = len X
  ∧ ∃ out h',
      clusterNameAndTenantFromParams msg h = Some ((out, X, MakeTenantID n, None), h').
Proof.
  intros Hc Hid HN Hn HX. split.
  { apply (identifier_split X N n HN). }
  destruct (clusterNameAndTenantFromParams_run h msg c Hc) as (sm & Hsm & Hrun).
  destruct (identify_split c X N n Hid HX HN Hn) as (dbn & newOpt & Hident).
  rewrite Hident in Hrun. eauto.
Qed.

Lemma carries_paramsDashes : carries paramsDashes "happy-7-koala-10".
Proof.
  exists "happy-7-koala-10", "defaultdb", EmptyString, EmptyString.
  split_and!; (reflexivity || discriminate || (left; reflexivity) || (right; reflexivity)).
Defined.

Lemma C3_split_at_last_dash_witness :
  LastIndex "happy-7-koala-10" clusterTenantSep = 13
  ∧ ∃ out h',
      clusterNameAndTenantFromParams 1%positive (heapOf paramsDashes)
      = Some ((out, "happy-7-koala", MakeTenantID 10, None), h').
Proof.
  apply (C3_split_at_last_dash (heapOf paramsDashes) 1%positive paramsDashes
           "happy-7-koala" "10" 10);
    [reflexivity|exact carries_paramsDashes|reflexivity|lia|reflexivity].
Defined.

(** C5: the search of the cluster flag stops at two matches, and an
    [options] parameter in which the flag occurs twice or more is refused
    with [multiple cluster flags provided], whatever the identifiers are. *)
Theorem C5_multiple_flags optionsParam :
  (length (FindAllStringSubmatch optionsParam 2) ≤ 2)%nat
  ∧ ((2 ≤ length (FindAllStringSubmatch optionsParam (-1)))%nat →
     parseOptionsParam optionsParam
     = (EmptyString, EmptyString, Some (errors_New "multiple cluster flags provided"))).
Proof.
  rewrite FindAllStringSubmatch_cap. split.
  - rewrite length_take. lia.
  - intros Hlen. unfold parseOptionsParam. rewrite FindAllStringSubmatch_cap.
    destruct (FindAllStringSubmatch optionsParam (-1)) as [|m0 [|m1 ms]];
      simpl in Hlen; [lia..|done].
Qed.

Lemma C5_multiple_flags_witness :
  (length (FindAllStringSubmatch twoFlags 2) ≤ 2)%nat
  ∧ parseOptionsParam twoFlags
    = (EmptyString, EmptyString, Some (errors_New "multiple cluster flags provided")).
Proof.
  split.
  - apply (C5_multiple_flags twoFlags).
  - apply (C5_multiple_flags twoFlags). vm_compute. lia.
Defined.

(** C6: an identifier whose suffix parses to a tenant ID below 2 is
    refused; for [database = happy-koala-0.db] without [options] the error
    carries the hint [Tenant ID 0 is invalid.]. *)
Theorem C6_reserved_tenant h msg c :
  paramsOf h msg = Some c →
  (∀ X N n,
     carries c (X +:+ clusterTenantSep +:+ N) → ParseUint N = Some n → n < 2 →
     ∃ e, clusterNameAndTenantFromParams msg h
          = Some ((msg, EmptyString, MaxTenantID, Some e), h))
  ∧ (c !! "database" = Some "happy-koala-0.db" → c !! "options" = None →
     clusterNameAndTenantFromParams msg h
     = Some ((msg, EmptyString, MaxTenantID,
              Some (errors_WithHint (errors_New "invalid cluster identifier 'happy-koala-0'")
                      "Tenant ID 0 is invalid.")), h)).
Proof.
  intros Hc.
  destruct (clusterNameAndTenantFromParams_run h msg c Hc) as (sm & Hsm & Hrun).
  split.
  - intros X N n Hid HN Hn.
    destruct (identify_reserved c X N n Hid HN Hn) as [e He].
    rewrite He in Hrun. eauto.
  - intros Hdb Hopt. rewrite Hrun. unfold param. rewrite Hdb, Hopt. by vm_compute.
Qed.

Lemma carries_paramsReserved : carries paramsReserved "happy-koala-0".
Proof.
  exists "happy-koala-0", "db", EmptyString, EmptyString.
  split_and!; (reflexivity || discriminate || (left; reflexivity) || (right; reflexivity)).
Defined.

Lemma C6_reserved_tenant_witness :
  (∃ e, clusterNameAndTenantFromParams 1%positive (heapOf paramsReserved)
        = Some ((1%positive, EmptyString, MaxTenantID, Some e), heapOf paramsReserved))
  ∧ clusterNameAndTenantFromParams 1%positive (heapOf paramsReserved)
    = Some ((1%positive, EmptyString, MaxTenantID,
             Some (errors_WithHint (errors_New "invalid cluster identifier 'happy-koala-0'")
                     "Tenant ID 0 is invalid.")), heapOf paramsReserved).
Proof.
  destruct (C6_reserved_tenant (heapOf paramsReserved) 1%positive paramsReserved)
    as [Hall Hone]; [reflexivity|].
  split.
  - apply (Hall "happy-koala" "0" 0); [exact carries_paramsReserved|reflexivity|lia].
  - apply Hone; reflexivity.
Defined.

(** C7: on a success, every key other than [database] and [options] has in
    the new message the value it has in the old one, and is absent from the
    new one when it is absent from the old one. *)
Theorem C7_other_keys_copied h msg c out name tid h' key :
  paramsOf h msg = Some c →
  clusterNameAndTenantFromParams msg h = Some ((out, name, tid, None), h') →
  key ≠ "database" → key ≠ "options" →
  ∃ c', paramsOf h' out = Some c' ∧ c' !! key = c !! key.
Proof.
  intros Hc Hrun Hdb Hopt.
  destruct (clusterNameAndTenantFromParams_success _ _ _ _ _ _ _ Hc Hrun)
    as (sm & dbn & newOpt & Hsm & Hid & -> & ->).
  eexists. split; [apply paramsOf_rewritten_out|].
  by apply rewritten_lookup_other.
Qed.

Lemma C7_other_keys_copied_witness :
  ∃ c', paramsOf (rewritten (heapOf paramsDatabase) 196608 "defaultdb" EmptyString
                    paramsDatabase) 2%positive = Some c'
        ∧ c' !! "user" = paramsDatabase !! "user".
Proof.
  apply (C7_other_keys_copied (heapOf paramsDatabase) 1%positive paramsDatabase
           2%positive "happy-koala" (MakeTenantID 3) _ "user");
    [reflexivity|by vm_compute|discriminate|discriminate].
Defined.




(** C10: on a valid message the run returns.  Every message and every map
    of the heap is after the run what it was before, the parameters of the
    input among them.  On an error the pointer returned is the input, with
    the empty cluster name and [MaxTenantID], and the heap is the same; on a
    success the message returned and its map are newly allocated. *)
Theorem C10_input_untouched h msg c :
  paramsOf h msg = Some c →
  ∃ out name tid err h',
    clusterNameAndTenantFromParams msg h = Some ((out, name, tid, err), h')
    ∧ messages h ⊆ messages h' ∧ maps h ⊆ maps h'
    ∧ paramsOf h' msg = Some c
    ∧ (err ≠ None →
       out = msg ∧ name = EmptyString ∧ tid = MaxTenantID ∧ h' = h)
    ∧ (err = None →
       messages h !! out = None
       ∧ ∃ sm' l', messages h' !! out = Some sm'
                   ∧ Parameters sm' = Some l' ∧ maps h !! l' = None).
Proof.
  intros Hc.
  destruct (clusterNameAndTenantFromParams_run h msg c Hc) as (sm & Hsm & Hrun).
  assert (messages h !! fresh (dom (messages h)) = None) as Hp
    by apply not_elem_of_dom, is_fresh.
  assert (maps h !! fresh (dom (maps h)) = None) as Hl
    by apply not_elem_of_dom, is_fresh.
  destruct (identify _ _) as [e|[[[dbn newOpt] name] n]].
  - eexists _, _, _, _, _. split; [exact Hrun|]. split_and!; try done.
  - eexists _, _, _, _, _. split; [exact Hrun|]. split_and!.
    + by apply insert_subseteq.
    + by apply insert_subseteq.
    + by apply paramsOf_rewritten_frame.
    + done.
    + intros _. split; [done|]. eexists _, _. simpl.
      split; [apply lookup_insert_eq|]. by split.
Qed.

Lemma C10_input_untouched_witness :
  ∃ out name tid err h',
    clusterNameAndTenantFromParams 1%positive (heapOf paramsDatabase)
    = Some ((out, name, tid, err), h')
    ∧ messages (heapOf paramsDatabase) ⊆ messages h'
    ∧ maps (heapOf paramsDatabase) ⊆ maps h'
    ∧ paramsOf h' 1%positive = Some paramsDatabase
    ∧ (err ≠ None →
       out = 1%positive ∧ name = EmptyString ∧ tid = MaxTenantID
       ∧ h' = heapOf paramsDatabase)
    ∧ (err = None →
       messages (heapOf paramsDatabase) !! out = None
       ∧ ∃ sm' l', messages h' !! out = Some sm'
                   ∧ Parameters sm' = Some l'
                   ∧ maps (heapOf paramsDatabase) !! l' = None).
Proof.
  apply (C10_input_untouched (heapOf paramsDatabase) 1%positive paramsDatabase).
  reflexivity.
Defined.

(** ** handle *)

Lemma paramsOf_frame h h2 msg c :
  paramsOf h msg = Some c →
  messages h ⊆ messages h2 → maps h ⊆ maps h2 →
  paramsOf h2 msg = Some c.
Proof.
  intros (sm & Hsm & Hc)%paramsOf_inv Hmsgs Hmaps.
  apply (paramsOf_intro _ _ sm); [by eapply lookup_weaken|].
  revert Hc. unfold mapContent. destruct (Parameters sm) as [l0|]; [|by intros [= <-]].
  destruct (maps h !! l0) as [c1|] eqn:Hl0; [|done].
  intros [= ->]. by rewrite (lookup_weaken _ _ _ _ Hl0 Hmaps).
Qed.

Lemma handle_backendStartupMsg_run remoteAddr h msg c out name tid h1 :
  paramsOf h msg = Some c →
  clusterNameAndTenantFromParams msg h = Some ((out, name, tid, None), h1) →
  ∃ c1, paramsOf h1 out = Some c1
    ∧ handle_backendStartupMsg remoteAddr msg h
      = Some (inr (out, name, tid),
              {| messages := messages h1;
                 maps := <[fresh (dom (maps h)):=<["crdb:remote_addr":=remoteAddr]> c1]>
                           (maps h1) |}).
Proof.
  intros Hc Hrun.
  destruct (clusterNameAndTenantFromParams_success _ _ _ _ _ _ _ Hc Hrun)
    as (sm & dbn & newOpt & Hsm & Hid & -> & ->).
  exists (rewriteEntries dbn newOpt ∅ (map_to_list c)).
  split; [apply paramsOf_rewritten_out|].
  unfold handle_backendStartupMsg. step_bind. rewrite Hrun.
  step_bind. unfold load. simpl messages.
  rewrite lookup_insert_eq.
  step_bind. unfold mapAssign. simpl.
  by rewrite lookup_insert_eq.
Qed.

(** C8, as the code has it: [clusterNameAndTenantFromParams] leaves the key
    [crdb:remote_addr] as it finds it in the input; it is [handle] that,
    after a successful parse, sets it in the new message to the remote
    address of the client, and the input message keeps its parameters. *)
Theorem C8_remote_addr_set_by_handle remoteAddr h msg c out name tid h1 :
  paramsOf h msg = Some c →
  clusterNameAndTenantFromParams msg h = Some ((out, name, tid, None), h1) →
  (∃ c1, paramsOf h1 out = Some c1
         ∧ c1 !! "crdb:remote_addr" = c !! "crdb:remote_addr")
  ∧ ∃ h2 c2,
      handle_backendStartupMsg remoteAddr msg h = Some (inr (out, name, tid), h2)
      ∧ paramsOf h2 out = Some c2
      ∧ c2 !! "crdb:remote_addr" = Some remoteAddr
      ∧ (∀ key, key ≠ "crdb:remote_addr" → key ≠ "database" → key ≠ "options" →
                c2 !! key = c !! key)
      ∧ paramsOf h2 msg = Some c.
Proof.
  intros Hc Hrun.
  destruct (handle_backendStartupMsg_run remoteAddr _ _ _ _ _ _ _ Hc Hrun)
    as (c1 & Hc1 & Hhandle).
  destruct (clusterNameAndTenantFromParams_success _ _ _ _ _ _ _ Hc Hrun)
    as (sm & dbn & newOpt & Hsm & Hid & -> & ->).
  rewrite paramsOf_rewritten_out in Hc1. injection Hc1 as <-.
  assert (messages h !! fresh (dom (messages h)) = None) as Hp
    by apply not_elem_of_dom, is_fresh.
  assert (maps h !! fresh (dom (maps h)) = None) as Hl
    by apply not_elem_of_dom, is_fresh.
  split.
  { eexists. split; [apply paramsOf_rewritten_out|].
    by apply rewritten_lookup_other. }
  eexists _, _. split; [exact Hhandle|]. split_and!.
  - eapply paramsOf_intro; simpl; [apply lookup_insert_eq|].
    simpl. by rewrite lookup_insert_eq.
  - apply lookup_insert_eq.
  - intros key H1 H2 H3. rewrite lookup_insert_ne by done.
    by apply rewritten_lookup_other.
  - eapply paramsOf_frame; [exact Hc|simpl..].
    + by apply insert_subseteq.
    + rewrite insert_insert_eq. by apply insert_subseteq.
Qed.

Lemma C8_remote_addr_set_by_handle_witness :
  ∃ h2 c2,
    handle_backendStartupMsg "10.0.0.7:52944" 1%positive (heapOf paramsDatabase)
    = Some (inr (2%positive, "happy-koala", MakeTenantID 3), h2)
    ∧ paramsOf h2 2%positive = Some c2
    ∧ c2 !! "crdb:remote_addr" = Some "10.0.0.7:52944"
    ∧ (∀ key, key ≠ "crdb:remote_addr" → key ≠ "database" → key ≠ "options" →
              c2 !! key = paramsDatabase !! key)
    ∧ paramsOf h2 1%positive = Some paramsDatabase.
Proof.
  eapply (C8_remote_addr_set_by_handle "10.0.0.7:52944" (heapOf paramsDatabase)
            1%positive paramsDatabase 2%positive "happy-koala" (MakeTenantID 3));
    [reflexivity|by vm_compute].
Defined.

(** C8 as stated fails: the message that [clusterNameAndTenantFromParams]
    returns for [database = happy-koala-3.defaultdb] has no
    [crdb:remote_addr]. *)
Lemma C8_counterexample :
  ∃ out h' c',
    clusterNameAndTenantFromParams 1%positive (heapOf paramsDatabase)
    = Some ((out, "happy-koala", MakeTenantID 3, None), h')
    ∧ paramsOf h' out = Some c'
    ∧ c' !! "crdb:remote_addr" = None.
Proof.
  exists 2%positive,
    (rewritten (heapOf paramsDatabase) 196608 "defaultdb" EmptyString paramsDatabase),
    (rewriteEntries "defaultdb" EmptyString ∅ (map_to_list paramsDatabase)).
  split_and!; by vm_compute.
Qed.

(** ** Parsing again what was rewritten *)

Lemma Split_cons c s sep :
  Split (String c s) sep
  = if decide (c = sep) then EmptyString :: Split s sep
    else match Split s sep with
         | p :: ps => String c p :: ps
         | [] => [String c EmptyString]
         end.
Proof. reflexivity. Qed.

Lemma Split_elem sep s : ∀ p, p ∈ Split s sep → Split p sep = [p].
Proof.
  induction s as [|c s IH]; intros p.
  - intros ->%list_elem_of_singleton. done.
  - rewrite Split_cons. case_decide as Hc.
    + intros [->|Hp]%elem_of_cons; [done|by apply IH].
    + destruct (Split s sep) as [|q qs] eqn:Hs.
      * intros ->%list_elem_of_singleton. rewrite Split_cons.
        by rewrite decide_False by done.
      * intros [->|Hp]%elem_of_cons.
        -- rewrite Split_cons, decide_False by done.
           rewrite (IH q); [done|]. apply elem_of_cons. by left.
        -- apply IH. apply elem_of_cons. by right.
Qed.

Lemma parseDatabaseParam_again databaseParam idDB databaseName :
  parseDatabaseParam databaseParam = (idDB, databaseName, None) →
  parseDatabaseParam databaseName = (EmptyString, databaseName, None).
Proof.
  unfold parseDatabaseParam at 1.
  case_decide as He; [by intros [= _ <-]|].
  case_decide as Hlen.
  { intros [= _ <-]. unfold parseDatabaseParam.
    by rewrite (decide_False (P := databaseParam = EmptyString)), decide_True. }
  case_decide as Hbad; [done|]. intros [= _ Hdb].
  assert (databaseName ∈ Split databaseParam ".") as Hin.
  { destruct (Split databaseParam ".") as [|p0 [|p1 ps]]; simpl in *; try lia.
    subst. apply elem_of_cons. right. apply elem_of_cons. by left. }
  apply Split_elem in Hin.
  unfold parseDatabaseParam. rewrite Hin.
  rewrite (decide_False (P := databaseName = EmptyString)).
  - by rewrite decide_True by (simpl; lia).
  - intros Hempty. apply Hbad. right. right. by rewrite Hdb.
Qed.

Lemma parseOptionsParam_no_flag optionsParam :
  FindAllStringSubmatch optionsParam 2 = [] →
  parseOptionsParam optionsParam = (EmptyString, optionsParam, None).
Proof. intros H. unfold parseOptionsParam. by rewrite H. Qed.

(** C9, as the code has it: the result does not depend on the order in
    which the loop goes through the entries of the map; the rewritten
    message carries no identifier in [database], so that a second run on it
    does not give the first result again: when its [options] hold no
    cluster flag the second run is the error [missing cluster identifier],
    and it returns the rewritten message as it is. *)
Theorem C9_rerun h msg c out name tid h' :
  paramsOf h msg = Some c →
  clusterNameAndTenantFromParams msg h = Some ((out, name, tid, None), h') →
  (∀ kvs paramsOut acc databaseName newOptionsParam h0,
     kvs ≡ₚ map_to_list c → maps h0 !! paramsOut = Some acc →
     copyParams (Some paramsOut) databaseName newOptionsParam kvs h0
     = copyParams (Some paramsOut) databaseName newOptionsParam (map_to_list c) h0)
  ∧ ∃ c', paramsOf h' out = Some c'
      ∧ (parseDatabaseParam (param c' "database")).1.1 = EmptyString
      ∧ (FindAllStringSubmatch (param c' "options") 2 = [] →
         clusterNameAndTenantFromParams out h'
         = Some ((out, EmptyString, MaxTenantID,
                  Some (errors_WithHint (errors_New "missing cluster identifier")
                          clusterIdentifierHint)), h')).
Proof.
  intros Hc Hrun. split.
  { intros kvs paramsOut acc dbn newOpt h0 Hperm Hacc.
    rewrite !(copyParams_run _ _ _ _ _ acc) by done.
    by rewrite (rewriteEntries_perm _ _ c). }
  destruct (clusterNameAndTenantFromParams_success _ _ _ _ _ _ _ Hc Hrun)
    as (sm & dbn & newOpt & Hsm & Hid & -> & ->).
  destruct (identify_inr _ _ _ _ _ _ Hid) as (idDB & idOpt & HDB & HOpt & _).
  eexists. split; [apply paramsOf_rewritten_out|].
  rewrite (rewritten_param_database _ _ _ _ HDB).
  rewrite (rewritten_param_options _ _ _ _ HOpt).
  pose proof (parseDatabaseParam_again _ _ _ HDB) as HDB'.
  split; [by rewrite HDB'|].
  intros Hflag.
  destruct (clusterNameAndTenantFromParams_run _ _ _
              (paramsOf_rewritten_out h (ProtocolVersion sm) dbn newOpt c))
    as (sm' & _ & ->).
  rewrite (rewritten_param_database _ _ _ _ HDB).
  rewrite (rewritten_param_options _ _ _ _ HOpt).
  unfold identify. rewrite HDB', (parseOptionsParam_no_flag _ Hflag).
  by rewrite decide_True.
Qed.

Lemma C9_rerun_witness :
  ∃ c', paramsOf (rewritten (heapOf paramsOptions) 196608 "defaultdb" EmptyString
                    paramsOptions) 2%positive = Some c'
    ∧ clusterNameAndTenantFromParams 2%positive
        (rewritten (heapOf paramsOptions) 196608 "defaultdb" EmptyString paramsOptions)
      = Some ((2%positive, EmptyString, MaxTenantID,
               Some (errors_WithHint (errors_New "missing cluster identifier")
                       clusterIdentifierHint)),
              rewritten (heapOf paramsOptions) 196608 "defaultdb" EmptyString paramsOptions).
Proof.
  destruct (C9_rerun (heapOf paramsOptions) 1%positive paramsOptions
              2%positive "happy-koala" (MakeTenantID 3)
              (rewritten (heapOf paramsOptions) 196608 "defaultdb" EmptyString paramsOptions))
    as [_ (c' & Hc' & _ & Hrerun)]; [reflexivity|by vm_compute|].
  exists c'. split; [exact Hc'|]. apply Hrerun.
  rewrite paramsOf_rewritten_out in Hc'. apply (inj Some) in Hc'.
  rewrite <- Hc'. vm_compute. reflexivity.
Defined.

(** C9 as stated fails: the run on [database = happy-koala-3.defaultdb]
    succeeds, and the run on the message it returns is an error, with the
    empty cluster name and [MaxTenantID]. *)
Lemma C9_counterexample :
  let h' := rewritten (heapOf paramsDatabase) 196608 "defaultdb" EmptyString paramsDatabase in
  clusterNameAndTenantFromParams 1%positive (heapOf paramsDatabase)
  = Some ((2%positive, "happy-koala", MakeTenantID 3, None), h')
  ∧ clusterNameAndTenantFromParams 2%positive h'
    = Some ((2%positive, EmptyString, MaxTenantID,
             Some (errors_WithHint (errors_New "missing cluster identifier")
                     clusterIdentifierHint)), h').
Proof. split; by vm_compute. Qed.

(** C2, as the code has it: without a directory the address comes from the
    routing rule.  With a directory, [EnsureTenantAddr] is asked first: its
    address is returned, and so is its error when the code of that error is
    not [NotFound]; on [NotFound] the routing rule is tried all the same,
    and its address is returned when it resolves. *)
Theorem C2_directory_then_rule {Directory : Type}
    (EnsureTenantAddr : Directory → TenantID → string → string * option error * Directory)
    (resolveTCPAddr : string → string → option error)
    (handler : proxyHandler Directory) (name : string) (tenID : TenantID) :
  let rule := ReplaceAll (RoutingRule handler) "{{clusterName}}"
                (name +:+ "-" +:+ formatUint (ToUint64 tenID)) in
  let byRule :=
    match resolveTCPAddr "tcp" rule with
    | Some e => (EmptyString, Some (status_Error NotFound (Error e)))
    | None => (rule, None)
    end in
  (directory handler = None →
   outgoingAddress EnsureTenantAddr resolveTCPAddr handler name tenID = (byRule, handler))
  ∧ (∀ d addr err d',
       directory handler = Some d → EnsureTenantAddr d tenID name = (addr, err, d') →
       let handler' := {| RoutingRule := RoutingRule handler; directory := Some d' |} in
       (err = None →
        outgoingAddress EnsureTenantAddr resolveTCPAddr handler name tenID
        = (addr, None, handler'))
       ∧ (∀ e, err = Some e → status_Code e ≠ NotFound →
          outgoingAddress EnsureTenantAddr resolveTCPAddr handler name tenID
          = (EmptyString, Some e, handler'))
       ∧ (∀ e, err = Some e → status_Code e = NotFound →
          outgoingAddress EnsureTenantAddr resolveTCPAddr handler name tenID
          = (byRule, handler'))).
Proof.
  intros rule byRule. unfold outgoingAddress. split.
  - by intros ->.
  - intros d addr err d' -> ->. split_and!.
    + by intros ->.
    + intros e -> Hcode. by rewrite decide_True.
    + intros e -> Hcode. rewrite decide_False by (by intros ?). done.
Qed.

Lemma C2_directory_then_rule_witness :
  outgoingAddress unavailableDirectory resolvesAll ruleHandler "happy-koala" (MakeTenantID 3)
  = (EmptyString, Some (status_Error Unavailable "directory is down"), ruleHandler).
Proof.
  destruct (C2_directory_then_rule unavailableDirectory resolvesAll ruleHandler
              "happy-koala" (MakeTenantID 3)) as [_ Hdir].
  destruct (Hdir tt EmptyString (Some (status_Error Unavailable "directory is down")) tt)
    as (_ & Herr & _); [reflexivity|reflexivity|].
  apply (Herr (status_Error Unavailable "directory is down")); [reflexivity|discriminate].
Defined.

(** C2 as stated fails: the handler has a directory, the directory answers
    [NotFound], and the address of the routing rule is returned without an
    error. *)
Lemma C2_counterexample :
  directory ruleHandler = Some tt
  ∧ (notFoundDirectory tt (MakeTenantID 3) "happy-koala").1.2
    = Some (status_Error NotFound "tenant not found")
  ∧ outgoingAddress notFoundDirectory resolvesAll ruleHandler "happy-koala" (MakeTenantID 3)
    = ("happy-koala-3.svc:26257", None, ruleHandler).
Proof. split_and!; by vm_compute. Qed.

(** * Further properties *)

(** ** parseDatabaseParam *)

Lemma Split_nonempty s sep : Split s sep ≠ [].
Proof.
  destruct s as [|c s]; [done|]. rewrite Split_cons.
  case_decide; [done|]. by destruct (Split s sep).
Qed.

Lemma Split_no_sep s sep : hasByte sep s = false → Split s sep = [s].
Proof.
  induction s as [|c s IH]; [done|]. cbn [hasByte].
  intros [Hc Hs]%orb_false_elim. apply bool_decide_eq_false in Hc.
  by rewrite Split_cons, decide_False, IH.
Qed.

Lemma Split_app_sep a b sep :
  hasByte sep a = false → Split (a +:+ String sep b) sep = a :: Split b sep.
Proof.
  induction a as [|c a IH].
  - intros _. change (EmptyString +:+ String sep b) with (String sep b).
    by rewrite Split_cons, decide_True.
  - cbn [hasByte]. intros [Hc Ha]%orb_false_elim. apply bool_decide_eq_false in Hc.
    by rewrite append_cons, Split_cons, decide_False, IH.
Qed.

Lemma Split_single_inv s sep b : Split s sep = [b] → s = b ∧ hasByte sep s = false.
Proof.
  revert b. induction s as [|c s IH]; intros b.
  - by intros [= <-].
  - rewrite Split_cons. case_decide as Hc.
    + intros [= _ Hs]. by destruct (Split_nonempty s sep).
    + destruct (Split s sep) as [|p ps] eqn:Hs; [by destruct (Split_nonempty s sep)|].
      intros [= <- ->]. destruct (IH p eq_refl) as [-> Hp]. split; [done|].
      cbn [hasByte]. by rewrite bool_decide_eq_false_2.
Qed.

Lemma Split_pair_inv s sep a b :
  Split s sep = [a; b] →
  s = a +:+ String sep b ∧ hasByte sep a = false ∧ hasByte sep b = false.
Proof.
  revert a. induction s as [|c s IH]; intros a; [done|].
  rewrite Split_cons. case_decide as Hc.
  - intros [= <- Hs]. apply Split_single_inv in Hs as [-> Hb]. by subst.
  - destruct (Split s sep) as [|p ps] eqn:Hs; [done|].
    intros [= <- ->]. destruct (IH p eq_refl) as (-> & Hp & Hb).
    split_and!; [done| |done]. cbn [hasByte]. by rewrite bool_decide_eq_false_2.
Qed.

Lemma hasByte_app c a b : hasByte c (a +:+ b) = hasByte c a || hasByte c b.
Proof.
  induction a as [|x a IH]; [done|].
  rewrite append_cons. cbn [hasByte]. by rewrite IH, orb_assoc.
Qed.

(** X1: a cluster identifier and a database name, both non-empty and free
    of dots, joined by a dot, are what [parseDatabaseParam] gives back. *)
Theorem parseDatabaseParam_roundtrip id db :
  id ≠ EmptyString → db ≠ EmptyString →
  hasByte "." id = false → hasByte "." db = false →
  parseDatabaseParam (id +:+ "." +:+ db) = (id, db, None).
Proof.
  intros Hid Hdb Hid' Hdb'. unfold parseDatabaseParam.
  rewrite decide_False by (by destruct id).
  change ("." +:+ db) with (String "." db).
  rewrite Split_app_sep, (Split_no_sep db) by done. simpl.
  case_decide as H2; [|done].
  destruct H2 as [H|[H|H]]; [lia|done|done].
Qed.

Lemma parseDatabaseParam_roundtrip_witness :
  parseDatabaseParam ("happy-koala-3" +:+ "." +:+ "defaultdb")
  = ("happy-koala-3", "defaultdb", None).
Proof. apply parseDatabaseParam_roundtrip; (discriminate || reflexivity). Defined.

Lemma parseDatabaseParam_cases p :
  (hasByte "." p = false ∧ parseDatabaseParam p = (EmptyString, p, None))
  ∨ (∃ id db, id ≠ EmptyString ∧ db ≠ EmptyString
              ∧ hasByte "." id = false ∧ hasByte "." db = false
              ∧ p = id +:+ "." +:+ db ∧ parseDatabaseParam p = (id, db, None))
  ∨ (hasByte "." p = true
     ∧ parseDatabaseParam p
       = (EmptyString, EmptyString, Some (errors_New "invalid database param"))).
Proof.
  destruct (hasByte "." p) eqn:Hdot.
  - right. unfold parseDatabaseParam.
    rewrite (decide_False (P := p = EmptyString)) by (by intros ->).
    destruct (Split p ".") as [|a [|b [|x l]]] eqn:Hs.
    + by destruct (Split_nonempty p ".").
    + apply Split_single_inv in Hs as [_ Hs]. congruence.
    + apply Split_pair_inv in Hs as (-> & Ha & Hb). simpl.
      case_decide as Hbad; [by right|]. left. exists a, b.
      split_and!; try done; intros He; apply Hbad; auto.
    + right. split; [done|].
      rewrite (decide_False (P := (length _ ≤ 1)%nat)) by (simpl; lia).
      by rewrite decide_True by (left; simpl; lia).
  - left. split; [done|]. unfold parseDatabaseParam. case_decide as Hp; [by subst|].
    rewrite Split_no_sep by done. by rewrite decide_True.
Qed.

(** X2: [parseDatabaseParam] fails exactly on a parameter that has a dot
    and is not one non-empty dotless identifier, a dot and one non-empty
    dotless name; the failure is [invalid database param] with both
    strings empty. *)
Theorem parseDatabaseParam_error_iff p :
  ((parseDatabaseParam p).2 ≠ None ↔
   hasByte "." p = true
   ∧ ¬ ∃ id db, id ≠ EmptyString ∧ db ≠ EmptyString
               ∧ hasByte "." id = false ∧ hasByte "." db = false
               ∧ p = id +:+ "." +:+ db)
  ∧ ((parseDatabaseParam p).2 ≠ None →
     parseDatabaseParam p
     = (EmptyString, EmptyString, Some (errors_New "invalid database param"))).
Proof.
  destruct (parseDatabaseParam_cases p)
    as [[Hdot Hp]|[(id & db & Hid & Hdb & Hid' & Hdb' & Hform & Hp)|[Hdot Hp]]];
    rewrite Hp; simpl.
  - split; [|done]. split; [done|]. intros [? _]. congruence.
  - split; [|done]. split; [done|]. intros [_ []]. by exists id, db.
  - split; [|done]. split; [|done]. intros _. split; [done|].
    intros (id & db & Hid & Hdb & Hid' & Hdb' & Hform).
    rewrite Hform, parseDatabaseParam_roundtrip in Hp by done. by simplify_eq.
Qed.

(** X3: neither string that [parseDatabaseParam] returns holds a dot, and
    a parameter without a dot is returned whole as the database name, with
    no identifier. *)
Theorem parseDatabaseParam_dotless p :
  hasByte "." (parseDatabaseParam p).1.1 = false
  ∧ hasByte "." (parseDatabaseParam p).1.2 = false
  ∧ (hasByte "." p = false → parseDatabaseParam p = (EmptyString, p, None)).
Proof.
  destruct (parseDatabaseParam_cases p)
    as [[Hdot Hp]|[(id & db & Hid & Hdb & Hid' & Hdb' & Hform & Hp)|[Hdot Hp]]];
    rewrite Hp; simpl; split_and!; try done.
  - intros Hdot. rewrite Hform, !hasByte_app in Hdot. simpl in Hdot.
    by rewrite orb_true_r in Hdot.
  - congruence.
Qed.

(** ** clusterNameRegex *)

Lemma clusterNameRegex_tail_last k c :
  clusterNameRegex_tail k (String c EmptyString)
  = isLowerAlnum c && (4 <=? k)%nat && (k <=? 18)%nat.
Proof. reflexivity. Qed.

Lemma clusterNameRegex_tail_cons k c d s :
  clusterNameRegex_tail k (String c (String d s))
  = isNameByte c && clusterNameRegex_tail (S k) (String d s).
Proof. reflexivity. Qed.

Lemma isLowerAlnum_isNameByte c : isLowerAlnum c = true → isNameByte c = true.
Proof. unfold isNameByte. by intros ->. Qed.

Lemma clusterNameRegex_tail_spec s : ∀ k,
  clusterNameRegex_tail k s = true ↔
  (5 ≤ k + String.length s ≤ 19)%nat
  ∧ allBytes isNameByte s = true
  ∧ ∃ c, lastByte s = Some c ∧ isLowerAlnum c = true.
Proof.
  induction s as [|c [|d s] IH]; intros k.
  - simpl. split; [done|]. by intros (_ & _ & c & ? & _).
  - rewrite clusterNameRegex_tail_last. cbn [allBytes lastByte String.length].
    rewrite !andb_true_iff, !Nat.leb_le. split.
    + intros [[Hc ?] ?]. split; [lia|]. split; [|by eauto].
      split; [by apply isLowerAlnum_isNameByte|done].
    + intros (? & _ & c' & [= <-] & ?). split; [split|]; (done || lia).
  - rewrite clusterNameRegex_tail_cons, andb_true_iff, IH.
    cbn [allBytes lastByte String.length]. rewrite !andb_true_iff. split.
    + intros (? & ? & [? ?] & ?). split; [lia|]. by split.
    + intros (? & (? & ? & ?) & ?). split; [done|]. split; [lia|]. by split.
Qed.

(** X4: [clusterNameRegex] accepts exactly the names of 6 to 20 bytes, all
    of them lower-case letters, digits or dashes, that neither start nor
    end with a dash. *)
Theorem clusterNameRegex_spec s :
  clusterNameRegex s = true ↔
  (6 ≤ String.length s ≤ 20)%nat
  ∧ allBytes isNameByte s = true
  ∧ (∃ c s', s = String c s' ∧ isLowerAlnum c = true)
  ∧ (∃ c, lastByte s = Some c ∧ isLowerAlnum c = true).
Proof.
  destruct s as [|c s].
  - simpl. split; [done|]. intros (? & _). simpl in *. lia.
  - unfold clusterNameRegex. rewrite andb_true_iff, clusterNameRegex_tail_spec.
    cbn [allBytes String.length]. rewrite andb_true_iff.
    assert (∀ c', (5 ≤ 0 + String.length s)%nat →
                  lastByte (String c s) = Some c' ↔ lastByte s = Some c') as Hlast.
    { intros c' Hlen. destruct s; [simpl in Hlen; lia|done]. }
    split.
    + intros (Hc & Hlen & ? & c' & Hc' & ?).
      split; [lia|]. split; [split; [by apply isLowerAlnum_isNameByte|done]|].
      split; [by eauto|]. exists c'. split; [|done]. apply Hlast; [lia|done].
    + intros (Hlen & [? ?] & (c0 & s0 & [= <- <-] & ?) & c' & Hc' & ?).
      split; [done|]. split; [lia|]. split; [done|].
      exists c'. split; [|done]. apply Hlast; [lia|done].
Qed.

(** ** clusterNameAndTenantFromParams: what a result tells *)

Lemma LastIndex_none s :
  LastIndex s clusterTenantSep = -1 ↔ hasByte "-" s = false.
Proof.
  induction s as [|c s IH]; [done|].
  rewrite LastIndex_cons, prefix_sep. cbn [hasByte].
  destruct (LastIndex_bounds clusterTenantSep ltac:(done) s) as [Hb|[-> Hb]].
  - case_decide as Hr.
    + split; [lia|]. intros [_ Hs]%orb_false_elim. apply IH in Hs. lia.
    + assert (LastIndex s clusterTenantSep = -1) as Hs by lia.
      apply IH in Hs. rewrite Hs, orb_false_r.
      destruct (bool_decide (c = "-"%char)); [split; [lia|done]|done].
  - simpl. destruct (bool_decide (c = "-"%char)); [split; [lia|done]|done].
Qed.

Lemma LastIndex_split s :
  0 ≤ LastIndex s clusterTenantSep →
  ∃ a b, s = a +:+ clusterTenantSep +:+ b
         ∧ len a = LastIndex s clusterTenantSep
         ∧ hasByte "-" b = false.
Proof.
  induction s as [|c s IH]; [simpl; lia|].
  rewrite LastIndex_cons, prefix_sep. case_decide as Hr.
  - intros _. destruct (IH Hr) as (a & b & -> & Ha & Hb).
    exists (String c a), b. rewrite len_cons. split_and!; [done|lia|done].
  - assert (LastIndex s clusterTenantSep = -1) as Hs.
    { destruct (LastIndex_bounds clusterTenantSep ltac:(done) s) as [?|[_ ?]]; lia. }
    case_bool_decide as Hc; [|lia]. intros _. subst c.
    exists EmptyString, s. split_and!; [done|done|by apply LastIndex_none].
Qed.

Lemma slice_split a b :
  slice (a +:+ clusterTenantSep +:+ b) 0 (len a) = Some a
  ∧ slice (a +:+ clusterTenantSep +:+ b) (len a + 1)
      (len (a +:+ clusterTenantSep +:+ b)) = Some b.
Proof.
  set (id := a +:+ clusterTenantSep +:+ b).
  assert (len id = len a + 1 + len b) as Hlen.
  { unfold id. rewrite !len_append. change (len clusterTenantSep) with 1. lia. }
  assert (0 ≤ len a ∧ 0 ≤ len b) as [? ?] by (unfold len; lia).
  split.
  - unfold slice. rewrite decide_True by lia. f_equal.
    rewrite Z.sub_0_r. unfold len. rewrite Nat2Z.id. apply substring_app_l.
  - unfold slice. rewrite decide_True by lia. f_equal.
    replace (Z.to_nat (len a + 1)) with (String.length (a +:+ clusterTenantSep)).
    2:{ apply Nat2Z.inj. fold (len (a +:+ clusterTenantSep)). rewrite len_append.
        change (len clusterTenantSep) with 1. lia. }
    replace (Z.to_nat (len id - (len a + 1))) with (String.length b).
    2:{ apply Nat2Z.inj. fold (len b). lia. }
    unfold id.
    replace (a +:+ clusterTenantSep +:+ b) with ((a +:+ clusterTenantSep) +:+ b).
    2:{ clear. induction a as [|c a IH]; [done|]. by rewrite !append_cons, IH. }
    rewrite substring_app_r. apply substring_all.
Qed.

Lemma ParseUint_loop_bound s : ∀ acc n,
  0 ≤ acc ≤ maxUint64 → ParseUint_loop s acc = Some n → 0 ≤ n ≤ maxUint64.
Proof.
  induction s as [|c s IH]; intros acc n Hacc.
  - by intros [= <-].
  - rewrite ParseUint_loop_cons. destruct (between _ _ c); [|done].
    repeat case_decide; try done. apply IH.
    match goal with |- 0 ≤ ?x mod ?m ≤ _ =>
      pose proof (Z.mod_pos_bound x m ltac:(done)) end.
    unfold maxUint64. lia.
Qed.

Lemma ParseUint_bound s n : ParseUint s = Some n → 0 ≤ n ≤ maxUint64.
Proof.
  unfold ParseUint. case_decide; [done|]. apply ParseUint_loop_bound.
  by vm_compute.
Qed.

(** The checks that a success has passed. *)
Lemma identify_inr_carries (c : gmap string string)
    databaseName newOptionsParam clusterName tenID :
  identify (param c "database") (param c "options")
  = inr (databaseName, newOptionsParam, clusterName, tenID) →
  ∃ N, carries c (clusterName +:+ clusterTenantSep +:+ N)
       ∧ hasByte "-" N = false
       ∧ clusterNameRegex clusterName = true
       ∧ ParseUint N = Some tenID ∧ 2 ≤ tenID.
Proof.
  unfold identify.
  destruct (parseDatabaseParam (param c "database")) as [[idDB dbn] [e|]] eqn:HDB; [done|].
  destruct (parseOptionsParam (param c "options")) as [[idOpt newOpt] [e|]] eqn:HOpt; [done|].
  case_decide as H1; [done|]. case_decide as H2; [done|].
  set (id := if decide (idDB = EmptyString) then idOpt else idDB).
  case_decide as Hsep; [done|].
  destruct (LastIndex_bounds clusterTenantSep ltac:(done) id) as [Hb|[_ Hb]]; [|lia].
  destruct (LastIndex_split id) as (a & N & Hid & Ha & HN); [lia|].
  destruct (slice_split a N) as [Hname Htid].
  rewrite <- Ha, Hid, Hname, Htid. simpl default.
  destruct (clusterNameRegex a) eqn:Hre; cbn [negb]; [|done].
  destruct (ParseUint N) as [n|] eqn:HP; [|done].
  case_decide as Hn; [done|]. intros [= _ _ <- <-].
  exists N. split_and!; [|done|done|done|simpl in Hn; lia].
  exists idDB, dbn, idOpt, newOpt. rewrite <- Hid.
  split_and!; [done|done|..]; unfold id; case_decide as Hd.
  - intros ->. by apply H1.
  - done.
  - by right.
  - by left.
  - by left.
  - destruct (decide (idOpt = EmptyString)); [by right|].
    left. destruct (decide (idOpt = idDB)); [done|]. destruct H2. by split_and!.
  - by right.
  - by left.
Qed.

(** X5: a success comes from an identifier that the parameters carry: the
    cluster name returned has the format of a cluster name, the tenant ID is
    between 2 and the largest 64-bit value, and the identifier is the name,
    a dash, and a text without dashes that [strconv.ParseUint] reads as the
    tenant ID. *)
Theorem clusterNameAndTenantFromParams_sound h msg c out name tid h' :
  paramsOf h msg = Some c →
  clusterNameAndTenantFromParams msg h = Some ((out, name, tid, None), h') →
  clusterNameRegex name = true
  ∧ 2 ≤ ToUint64 tid ≤ maxUint64
  ∧ ∃ N, carries c (name +:+ clusterTenantSep +:+ N)
         ∧ hasByte "-" N = false
         ∧ ParseUint N = Some (ToUint64 tid).
Proof.
  intros Hc Hrun.
  destruct (clusterNameAndTenantFromParams_success _ _ _ _ _ _ _ Hc Hrun)
    as (sm & dbn & newOpt & Hsm & Hid & -> & ->).
  destruct (identify_inr_carries _ _ _ _ _ Hid) as (N & Hcar & HN & Hre & HP & Hn).
  split_and!; [done|done|by eapply ParseUint_bound|by eauto].
Qed.

Lemma clusterNameAndTenantFromParams_sound_witness :
  clusterNameRegex "happy-7-koala" = true
  ∧ 2 ≤ 10 ≤ maxUint64
  ∧ ∃ N, carries paramsDashes ("happy-7-koala" +:+ clusterTenantSep +:+ N)
         ∧ hasByte "-" N = false
         ∧ ParseUint N = Some 10.
Proof.
  apply (clusterNameAndTenantFromParams_sound (heapOf paramsDashes) 1%positive
           paramsDashes 2%positive "happy-7-koala" (MakeTenantID 10)
           (rewritten (heapOf paramsDashes) 196608 "defaultdb" EmptyString paramsDashes));
    [reflexivity|by vm_compute].
Defined.

(** X6: the message of a success has the protocol version of the input; it
    has no key that the input lacks, and every key of the input other than
    [options]; its [options], when present, is not empty, and its
    [database], when present, holds no dot. *)
Theorem clusterNameAndTenantFromParams_output h msg c out name tid h' :
  paramsOf h msg = Some c →
  clusterNameAndTenantFromParams msg h = Some ((out, name, tid, None), h') →
  ∃ sm sm' c',
    messages h !! msg = Some sm ∧ messages h' !! out = Some sm'
    ∧ ProtocolVersion sm' = ProtocolVersion sm
    ∧ paramsOf h' out = Some c'
    ∧ (∀ key, is_Some (c' !! key) → is_Some (c !! key))
    ∧ (∀ key, key ≠ "options" → is_Some (c !! key) → is_Some (c' !! key))
    ∧ c' !! "options" ≠ Some EmptyString
    ∧ (∀ v, c' !! "database" = Some v → hasByte "." v = false).
Proof.
  intros Hc Hrun.
  destruct (clusterNameAndTenantFromParams_success _ _ _ _ _ _ _ Hc Hrun)
    as (sm & dbn & newOpt & Hsm & Hid & -> & ->).
  destruct (identify_inr _ _ _ _ _ _ Hid) as (idDB & idOpt & HDB & HOpt & _).
  eexists sm, _, _. split; [done|]. split; [apply lookup_insert_eq|].
  split; [done|]. split; [apply paramsOf_rewritten_out|].
  split_and!.
  - intros key. rewrite rewriteEntries_map.
    destruct (c !! key); [eauto|]. by intros [? ?].
  - intros key Hkey [v Hv]. rewrite rewriteEntries_map, Hv. simpl.
    unfold rewriteParam. case_decide; [eauto|]. by rewrite decide_False.
  - rewrite rewriteEntries_map. destruct (c !! "options"); [|done]. simpl.
    unfold rewriteParam. simpl. case_decide; [congruence|done].
  - intros v. rewrite rewriteEntries_map. destruct (c !! "database"); [|done]. simpl.
    unfold rewriteParam. simpl. intros [= <-].
    pose proof (parseDatabaseParam_cases (param c "database")) as Hcases.
    rewrite HDB in Hcases.
    destruct Hcases as [[Hdot [= _ ->]]|[(id & db & _ & _ & _ & Hdb & _ & [= _ ->])|[_ ?]]];
      done.
Qed.

Lemma clusterNameAndTenantFromParams_output_witness :
  ∃ sm sm' c',
    messages (heapOf paramsOptions) !! 1%positive = Some sm
    ∧ messages (rewritten (heapOf paramsOptions) 196608 "defaultdb" EmptyString
                  paramsOptions) !! 2%positive = Some sm'
    ∧ ProtocolVersion sm' = ProtocolVersion sm
    ∧ paramsOf (rewritten (heapOf paramsOptions) 196608 "defaultdb" EmptyString
                  paramsOptions) 2%positive = Some c'
    ∧ (∀ key, is_Some (c' !! key) → is_Some (paramsOptions !! key))
    ∧ (∀ key, key ≠ "options" → is_Some (paramsOptions !! key) → is_Some (c' !! key))
    ∧ c' !! "options" ≠ Some EmptyString
    ∧ (∀ v, c' !! "database" = Some v → hasByte "." v = false).
Proof.
  apply (clusterNameAndTenantFromParams_output (heapOf paramsOptions) 1%positive
           paramsOptions 2%positive "happy-koala" (MakeTenantID 3));
    [reflexivity|by vm_compute].
Defined.

(** X7: the cluster name, the tenant ID and the error depend on the
    [database] and [options] parameters alone, an absent parameter counting
    as an empty one: no other key of the startup message has a say. *)
Theorem clusterNameAndTenantFromParams_two_params h1 msg1 c1 h2 msg2 c2 :
  paramsOf h1 msg1 = Some c1 → paramsOf h2 msg2 = Some c2 →
  param c1 "database" = param c2 "database" →
  param c1 "options" = param c2 "options" →
  ∃ out1 out2 name tid err h1' h2',
    clusterNameAndTenantFromParams msg1 h1 = Some ((out1, name, tid, err), h1')
    ∧ clusterNameAndTenantFromParams msg2 h2 = Some ((out2, name, tid, err), h2').
Proof.
  intros Hc1 Hc2 Hdb Hopt.
  destruct (clusterNameAndTenantFromParams_run h1 msg1 c1 Hc1) as (sm1 & _ & ->).
  destruct (clusterNameAndTenantFromParams_run h2 msg2 c2 Hc2) as (sm2 & _ & ->).
  rewrite Hdb, Hopt.
  destruct (identify _ _) as [e|[[[dbn newOpt] name] n]]; by eexists _, _, _, _, _, _, _.
Qed.

Lemma clusterNameAndTenantFromParams_two_params_witness :
  ∃ out1 out2 name tid err h1' h2',
    clusterNameAndTenantFromParams 1%positive (heapOf paramsDatabase)
    = Some ((out1, name, tid, err), h1')
    ∧ clusterNameAndTenantFromParams 1%positive
        (heapOf {[ "database" := "happy-koala-3.defaultdb"; "options" := EmptyString ]})
      = Some ((out2, name, tid, err), h2').
Proof.
  apply (clusterNameAndTenantFromParams_two_params
           (heapOf paramsDatabase) 1%positive paramsDatabase
           (heapOf {[ "database" := "happy-koala-3.defaultdb"; "options" := EmptyString ]})
           1%positive {[ "database" := "happy-koala-3.defaultdb"; "options" := EmptyString ]});
    reflexivity.
Defined.

(** X8: an identifier without a dash, or with nothing after its last dash,
    is refused as [invalid cluster identifier] with the hint that the
    tenant ID may have been forgotten. *)
Theorem clusterNameAndTenantFromParams_no_tenant h msg c id :
  paramsOf h msg = Some c → carries c id →
  hasByte "-" id = false ∨ (∃ a, id = a +:+ clusterTenantSep) →
  clusterNameAndTenantFromParams msg h
  = Some ((msg, EmptyString, MaxTenantID,
           Some (errors_WithHint
                   (errors_WithHint (invalidIdentifier id) missingTenantIDHint)
                   clusterNameFormHint)), h).
Proof.
  intros Hc (idDB & dbn & idOpt & newOpt & HDB & HOpt & H1 & H2 & Hid)%identify_carries Hform.
  destruct (clusterNameAndTenantFromParams_run h msg c Hc) as (sm & _ & ->).
  unfold identify. rewrite HDB, HOpt.
  rewrite (decide_False _ _ H1), (decide_False _ _ H2), Hid.
  rewrite decide_True; [done|].
  destruct Hform as [Hno|[a ->]].
  - left. by apply LastIndex_none.
  - right. replace (a +:+ clusterTenantSep) with (a +:+ clusterTenantSep +:+ EmptyString).
    2:{ clear. induction a as [|x a IH]; [done|]. by rewrite !append_cons, IH. }
    rewrite LastIndex_sep by done. rewrite !len_append.
    change (len clusterTenantSep) with 1. change (len EmptyString) with 0. lia.
Qed.

Lemma clusterNameAndTenantFromParams_no_tenant_witness :
  clusterNameAndTenantFromParams 1%positive (heapOf {[ "database" := "happy2koala.db" ]})
  = Some ((1%positive, EmptyString, MaxTenantID,
           Some (errors_WithHint
                   (errors_WithHint (invalidIdentifier "happy2koala") missingTenantIDHint)
                   clusterNameFormHint)), heapOf {[ "database" := "happy2koala.db" ]}).
Proof.
  apply (clusterNameAndTenantFromParams_no_tenant
           (heapOf {[ "database" := "happy2koala.db" ]}) 1%positive
           {[ "database" := "happy2koala.db" ]} "happy2koala");
    [reflexivity| |left; reflexivity].
  exists "happy2koala", "db", EmptyString, EmptyString.
  split_and!; (reflexivity || discriminate || (left; reflexivity) || (right; reflexivity)).
Defined.

(** ** The tenant ID in decimal *)

Lemma of_uint_acc_le d : ∀ acc, (acc ≤ Pos.of_uint_acc d acc)%positive.
Proof.
  induction d; intros acc; simpl; try reflexivity;
    (etrans; [|apply IHd]); lia.
Qed.

Lemma ParseUint_loop_acc d : ∀ acc,
  Z.pos (Pos.of_uint_acc d acc) ≤ maxUint64 →
  ParseUint_loop (NilEmpty.string_of_uint d) (Z.pos acc)
  = Some (Z.pos (Pos.of_uint_acc d acc)).
Proof.
  induction d; intros acc Hmax; [done|..];
    cbn [NilEmpty.string_of_uint Pos.of_uint_acc] in *;
    rewrite ParseUint_loop_cons;
    match goal with |- context [between _ _ ?c] =>
      change (between "0" "9" c) with true; cbv iota;
      let v := eval vm_compute in (byte c - byte "0") in
      change (byte c - byte "0") with v
    end;
    match type of Hmax with Z.pos (Pos.of_uint_acc _ ?acc') ≤ _ =>
      pose proof (of_uint_acc_le d acc') as Hle;
      assert (Z.pos acc' ≤ maxUint64) as Hacc' by lia
    end;
    change (maxUint64 / 10 + 1) with 1844674407370955162;
    change maxUint64 with 18446744073709551615 in *;
    change (2 ^ 64) with 18446744073709551616;
    rewrite decide_False by lia;
    rewrite (Z.mod_small (Z.pos acc * 10)) by lia;
    match goal with |- context [(?x + ?v) mod _] =>
      rewrite (Z.mod_small (x + v)) by lia end;
    rewrite decide_False by lia;
    rewrite <- IHd by done; f_equal; lia.
Qed.

Lemma ParseUint_loop_zero d :
  d ≠ Decimal.Nil → Z.of_N (Pos.of_uint d) ≤ maxUint64 →
  ParseUint_loop (NilEmpty.string_of_uint d) 0 = Some (Z.of_N (Pos.of_uint d)).
Proof.
  induction d; intros Hnil Hmax; [done|..];
    cbn [NilEmpty.string_of_uint Pos.of_uint] in *;
    rewrite ParseUint_loop_cons;
    match goal with |- context [between _ _ ?c] =>
      change (between "0" "9" c) with true; cbv iota;
      let v := eval vm_compute in (byte c - byte "0") in
      change (byte c - byte "0") with v
    end;
    change (maxUint64 / 10 + 1) with 1844674407370955162;
    rewrite decide_False by lia;
    change ((0 * 10) mod 2 ^ 64) with 0;
    match goal with |- context [(0 + ?v) mod _] =>
      let w := eval vm_compute in ((0 + v) mod 2 ^ 64) in
      change ((0 + v) mod 2 ^ 64) with w end;
    change maxUint64 with 18446744073709551615 in *;
    rewrite decide_False by lia;
    try (by apply ParseUint_loop_acc).
  destruct d; [done|apply IHd; done..].
Qed.

Lemma string_of_uint_nonempty d :
  d ≠ Decimal.Nil → NilEmpty.string_of_uint d ≠ EmptyString.
Proof. by destruct d. Qed.

Lemma ParseUint_formatUint n : 0 ≤ n ≤ maxUint64 → ParseUint (formatUint n) = Some n.
Proof.
  intros Hn. unfold formatUint, ParseUint.
  assert (N.to_uint (Z.to_N n) ≠ Decimal.Nil) as Hnil.
  { destruct (Z.to_N n); [done|]. apply DecimalPos.Unsigned.to_uint_nonnil. }
  rewrite decide_False by (by apply string_of_uint_nonempty).
  assert (Pos.of_uint (N.to_uint (Z.to_N n)) = Z.to_N n) as Hof
    by apply DecimalN.Unsigned.of_to.
  rewrite ParseUint_loop_zero; [|done|rewrite Hof; lia].
  rewrite Hof. f_equal. lia.
Qed.

(** X9: the identifier that [outgoingAddress] puts into the routing rule,
    the cluster name, a dash and the tenant ID in decimal, is read back as
    that cluster name and that tenant ID when the parameters carry it. *)
Theorem clusterNameAndTenantFromParams_formatted h msg c name tid :
  paramsOf h msg = Some c →
  carries c (name +:+ clusterTenantSep +:+ formatUint (ToUint64 tid)) →
  clusterNameRegex name = true → 2 ≤ ToUint64 tid ≤ maxUint64 →
  ∃ out h',
    clusterNameAndTenantFromParams msg h = Some ((out, name, tid, None), h').
Proof.
  intros Hc Hcar Hre Htid.
  destruct (clusterNameAndTenantFromParams_run h msg c Hc) as (sm & _ & ->).
  destruct (identify_split c name (formatUint (ToUint64 tid)) (ToUint64 tid))
    as (dbn & newOpt & ->); [done|done|apply ParseUint_formatUint; lia|lia|].
  destruct tid. eauto.
Qed.

Lemma clusterNameAndTenantFromParams_formatted_witness :
  ∃ out h',
    clusterNameAndTenantFromParams 1%positive (heapOf paramsDatabase)
    = Some ((out, "happy-koala", MakeTenantID 3, None), h').
Proof.
  apply (clusterNameAndTenantFromParams_formatted (heapOf paramsDatabase) 1%positive
           paramsDatabase "happy-koala" (MakeTenantID 3));
    [reflexivity| |reflexivity|by vm_compute].
  exists "happy-koala-3", "defaultdb", EmptyString, EmptyString.
  split_and!; (reflexivity || discriminate || (left; reflexivity) || (right; reflexivity)).
Defined.

(** ** The cluster flag in the options *)

Lemma span_spec p s : ∀ run rest,
  span p s = (run, rest) →
  s = run +:+ rest ∧ allBytes p run = true
  ∧ (rest = EmptyString ∨ ∃ c r, rest = String c r ∧ p c = false).
Proof.
  induction s as [|c s IH]; intros run rest.
  - intros [= <- <-]. by split_and!; [..|left].
  - cbn [span]. destruct (p c) eqn:Hc.
    + destruct (span p s) as [run' rest'] eqn:Hs. intros [= <- <-].
      destruct (IH _ _ eq_refl) as (-> & Hrun & Hrest).
      split_and!; [done| |done]. cbn [allBytes]. by rewrite Hc.
    + intros [= <- <-]. split_and!; [done|done|]. right. eauto.
Qed.

Lemma span_app p a rest :
  allBytes p a = true →
  rest = EmptyString ∨ (∃ c r, rest = String c r ∧ p c = false) →
  span p (a +:+ rest) = (a, rest).
Proof.
  intros Ha Hrest. induction a as [|x a IH].
  - change (EmptyString +:+ rest) with rest.
    destruct Hrest as [->|(c & r & -> & Hc)]; [done|]. cbn [span]. by rewrite Hc.
  - cbn [allBytes] in Ha. apply andb_true_iff in Ha as [Hx Ha].
    rewrite append_cons. cbn [span]. by rewrite Hx, IH.
Qed.

Lemma stripPrefix_app lit r : stripPrefix lit (lit +:+ r) = Some r.
Proof.
  induction lit as [|c lit IH]; [by destruct r|].
  rewrite append_cons. cbn [stripPrefix]. by rewrite decide_True.
Qed.

Lemma stripPrefix_inv lit : ∀ s r, stripPrefix lit s = Some r → s = lit +:+ r.
Proof.
  induction lit as [|c lit IH]; intros s r.
  - destruct s; by intros [= <-].
  - destruct s as [|b s]; [done|]. cbn [stripPrefix].
    case_decide as Hc; [|done]. subst b. intros ->%IH. done.
Qed.

Lemma String_app_assoc a b c : (a +:+ b) +:+ c = a +:+ b +:+ c.
Proof. induction a as [|x a IH]; [done|]. by rewrite !append_cons, IH. Qed.

Lemma String_app_nil_r a : a +:+ EmptyString = a.
Proof. induction a as [|x a IH]; [done|]. by rewrite append_cons, IH. Qed.

Lemma String_length_app a b :
  String.length (a +:+ b) = (String.length a + String.length b)%nat.
Proof. induction a as [|x a IH]; [done|]. rewrite append_cons. simpl. by rewrite IH. Qed.

(** The regular expression, by the first two bytes. *)
Lemma clusterIdentifierLongOptionRE_cases s :
  clusterIdentifierLongOptionRE s
  = match s with
    | String a (String b r) =>
        if decide (a = "-"%char) then
          if decide (b = "c"%char) then
            let '(ws, r1) := span reSpace r in
            match stripPrefix "cluster=" r1 with
            | Some r2 =>
                let '(id, _) := span nonSpace r2 in
                Some ("-c" +:+ ws +:+ "cluster=" +:+ id, id)
            | None => None
            end
          else if decide (b = "-"%char) then
            match stripPrefix "cluster=" r with
            | Some r2 =>
                let '(id, _) := span nonSpace r2 in
                Some ("--cluster=" +:+ id, id)
            | None => None
            end
          else None
        else None
    | _ => None
    end.
Proof.
  destruct s as [|a [|b r]]; [done| |].
  - by destruct a as [[] [] [] [] [] [] [] []].
  - destruct a as [[] [] [] [] [] [] [] []]; try reflexivity.
    destruct b as [[] [] [] [] [] [] [] []]; reflexivity.
Qed.

Lemma clusterIdentifierLongOptionRE_inv t whole id :
  clusterIdentifierLongOptionRE t = Some (whole, id) →
  ∃ flag post,
    t = whole +:+ post ∧ whole = flag +:+ id ∧ clusterFlag flag
    ∧ allBytes nonSpace id = true ∧ startsWithSpace post.
Proof.
  rewrite clusterIdentifierLongOptionRE_cases.
  destruct t as [|a [|b r]]; [done..|].
  case_decide as Ha; [subst a|done]. case_decide as Hb; [subst b|].
  - destruct (span reSpace r) as [ws r1] eqn:Hws.
    destruct (stripPrefix "cluster=" r1) as [r2|] eqn:Hr2; [|done].
    destruct (span nonSpace r2) as [id' post] eqn:Hid. intros [= <- <-].
    apply span_spec in Hws as (-> & Hws & _).
    apply stripPrefix_inv in Hr2 as ->.
    apply span_spec in Hid as (-> & Hid & Hpost).
    exists ("-c" +:+ ws +:+ "cluster="), post. split_and!.
    + change (String "-" (String "c" ?x)) with ("-c" +:+ x).
      by rewrite !String_app_assoc.
    + by rewrite !String_app_assoc.
    + right. by exists ws.
    + done.
    + destruct Hpost as [->|(c & r' & -> & Hc)]; [by left|right].
      exists c, r'. split; [done|]. unfold nonSpace in Hc. by destruct (reSpace c).
  - case_decide as Hb'; [subst b|done].
    destruct (stripPrefix "cluster=" r) as [r2|] eqn:Hr2; [|done].
    destruct (span nonSpace r2) as [id' post] eqn:Hid. intros [= <- <-].
    apply stripPrefix_inv in Hr2 as ->.
    apply span_spec in Hid as (-> & Hid & Hpost).
    exists "--cluster=", post. split_and!.
    + change (String "-" (String "-" ?x)) with ("--" +:+ x).
      by rewrite !String_app_assoc.
    + done.
    + by left.
    + done.
    + destruct Hpost as [->|(c & r' & -> & Hc)]; [by left|right].
      exists c, r'. split; [done|]. unfold nonSpace in Hc. by destruct (reSpace c).
Qed.

(** A flag, a value without white space, and what follows it from a white
    space on: the match is the flag and the value. *)
Lemma clusterIdentifierLongOptionRE_flag flag id post :
  clusterFlag flag → allBytes nonSpace id = true → startsWithSpace post →
  clusterIdentifierLongOptionRE (flag +:+ id +:+ post) = Some (flag +:+ id, id).
Proof.
  intros Hflag Hid Hpost.
  assert (span nonSpace (id +:+ post) = (id, post)) as Hspan.
  { apply span_app; [done|]. destruct Hpost as [->|(c & r & -> & Hc)]; [by left|right].
    exists c, r. split; [done|]. unfold nonSpace. by rewrite Hc. }
  destruct Hflag as [->|(ws & Hws & ->)].
  - change ("--cluster=" +:+ id +:+ post)
      with (String "-" (String "-" ("cluster=" +:+ id +:+ post))).
    rewrite clusterIdentifierLongOptionRE_cases.
    rewrite decide_True, decide_False, decide_True by done.
    by rewrite stripPrefix_app, Hspan.
  - rewrite !String_app_assoc.
    change ("-c" +:+ ?x) with (String "-" (String "c" x)).
    rewrite clusterIdentifierLongOptionRE_cases.
    rewrite decide_True, decide_True by done.
    rewrite (span_app reSpace ws); [|done|right; by eexists _, _].
    by rewrite stripPrefix_app, Hspan, ?String_app_assoc.
Qed.

Lemma prefix_cons a s1 b s2 :
  String.prefix (String a s1) (String b s2)
  = if ascii_dec a b then String.prefix s1 s2 else false.
Proof. reflexivity. Qed.

Lemma prefix_inv a : ∀ u, String.prefix a u = true → ∃ r, u = a +:+ r.
Proof.
  induction a as [|x a IH]; intros u; [by exists u|].
  destruct u as [|y u]; [done|]. rewrite prefix_cons.
  destruct (ascii_dec x y) as [<-|]; [|done].
  intros [r ->]%IH. by exists r.
Qed.

Lemma prefix_app a r : String.prefix a (a +:+ r) = true.
Proof.
  induction a as [|x a IH]; [apply String_prefix_nil|].
  rewrite append_cons, prefix_cons. by destruct (ascii_dec x x).
Qed.

Lemma clusterIdentifierLongOptionRE_flag_any flag x :
  clusterFlag flag → clusterIdentifierLongOptionRE (flag +:+ x) ≠ None.
Proof.
  intros [->|(ws & Hws & ->)].
  - change ("--cluster=" +:+ x) with (String "-" (String "-" ("cluster=" +:+ x))).
    rewrite clusterIdentifierLongOptionRE_cases.
    rewrite decide_True, decide_False, decide_True by done.
    rewrite stripPrefix_app. by destruct (span nonSpace x).
  - rewrite !String_app_assoc.
    change ("-c" +:+ ?y) with (String "-" (String "c" y)).
    rewrite clusterIdentifierLongOptionRE_cases.
    rewrite decide_True, decide_True by done.
    rewrite (span_app reSpace ws); [|done|right; by eexists _, _].
    rewrite stripPrefix_app. by destruct (span nonSpace x).
Qed.

(** A text that starts with the text of a match holds a match at its
    front. *)
Lemma clusterIdentifierLongOptionRE_prefix t whole id u :
  clusterIdentifierLongOptionRE t = Some (whole, id) →
  String.prefix whole u = true → clusterIdentifierLongOptionRE u ≠ None.
Proof.
  intros (flag & post & _ & -> & Hflag & _ & _)%clusterIdentifierLongOptionRE_inv.
  intros [r ->]%prefix_inv. rewrite String_app_assoc.
  by apply clusterIdentifierLongOptionRE_flag_any.
Qed.

Lemma clusterFlag_nonempty flag id : clusterFlag flag → flag +:+ id ≠ EmptyString.
Proof. by intros [->|(ws & _ & ->)]. Qed.

(** *** The matches *)

Lemma FindAll_from_skip w : ∀ n post,
  FindAll_from (String.length w) n (w +:+ post) = FindAll_from O n post.
Proof.
  induction w as [|c w IH]; intros n post; [done|].
  rewrite append_cons. cbn [String.length]. by rewrite FindAll_from_cons.
Qed.

Lemma FindAll_from_nil n s :
  FindAll_from O (S n) s = [] ↔ noMatchBefore s EmptyString.
Proof.
  induction s as [|c s IH]; [done|].
  rewrite FindAll_from_cons. cbn [noMatchBefore]. rewrite String_app_nil_r.
  destruct (clusterIdentifierLongOptionRE (String c s)) as [[whole id]|].
  - split; [done|]. by intros [? _].
  - rewrite IH. split; [done|]. by intros [_ ?].
Qed.

Lemma FindAll_from_pre n pre t :
  noMatchBefore pre t → FindAll_from O n (pre +:+ t) = FindAll_from O n t.
Proof.
  induction pre as [|c pre IH]; [done|]. intros [Hc Hpre].
  rewrite append_cons, FindAll_from_cons. rewrite append_cons in Hc. rewrite Hc.
  destruct n as [|n]; [|by apply IH].
  destruct t as [|x t]; [|by rewrite FindAll_from_cons].
  by destruct (pre +:+ EmptyString).
Qed.

Lemma FindAll_from_match n t whole id post :
  clusterIdentifierLongOptionRE t = Some (whole, id) → t = whole +:+ post →
  FindAll_from O (S n) t = [whole; id] :: FindAll_from O n post.
Proof.
  intros Ht ->. 
  destruct whole as [|c w].
  { apply clusterIdentifierLongOptionRE_inv in Ht as (flag & ? & _ & Hw & Hflag & _).
    by destruct (clusterFlag_nonempty flag id Hflag). }
  rewrite append_cons, FindAll_from_cons. rewrite append_cons in Ht. rewrite Ht.
  replace (String.length (String c w) - 1)%nat with (String.length w)
    by (simpl; lia).
  by rewrite FindAll_from_skip.
Qed.

Lemma FindAll_from_first n s m rest :
  FindAll_from O (S n) s = m :: rest →
  ∃ pre whole id post,
    s = pre +:+ whole +:+ post
    ∧ noMatchBefore pre (whole +:+ post)
    ∧ clusterIdentifierLongOptionRE (whole +:+ post) = Some (whole, id)
    ∧ m = [whole; id]
    ∧ rest = FindAll_from O n post.
Proof.
  induction s as [|c s IH]; [done|].
  destruct (clusterIdentifierLongOptionRE (String c s)) as [[whole id]|] eqn:Hre.
  - destruct (clusterIdentifierLongOptionRE_inv _ _ _ Hre)
      as (flag & post & Hs & _).
    rewrite (FindAll_from_match n _ whole id post Hre Hs). intros [= <- <-].
    exists EmptyString, whole, id, post. rewrite <- Hs. by split_and!.
  - rewrite FindAll_from_cons, Hre.
    intros (pre & whole & id & post & -> & Hpre & Hm & -> & ->)%IH.
    exists (String c pre), whole, id, post.
    split_and!; try done; cbn [noMatchBefore]; by rewrite append_cons.
Qed.

(** *** Cutting the match out *)

Lemma ReplaceAll_from_cons skip c s old new :
  ReplaceAll_from skip (String c s) old new
  = match skip with
    | S k => ReplaceAll_from k s old new
    | O =>
        if String.prefix old (String c s)
        then new +:+ ReplaceAll_from (String.length old - 1) s old new
        else String c (ReplaceAll_from O s old new)
    end.
Proof. reflexivity. Qed.

Lemma ReplaceAll_from_skip w : ∀ post old new,
  ReplaceAll_from (String.length w) (w +:+ post) old new
  = ReplaceAll_from O post old new.
Proof.
  induction w as [|c w IH]; intros post old new; [done|].
  rewrite append_cons. cbn [String.length]. by rewrite ReplaceAll_from_cons.
Qed.

Lemma ReplaceAll_from_pre t0 whole id0 new pre t :
  clusterIdentifierLongOptionRE t0 = Some (whole, id0) →
  noMatchBefore pre t →
  ReplaceAll_from O (pre +:+ t) whole new = pre +:+ ReplaceAll_from O t whole new.
Proof.
  intros Ht0. induction pre as [|c pre IH]; [done|]. intros [Hc Hpre].
  rewrite append_cons, ReplaceAll_from_cons. rewrite append_cons in Hc.
  destruct (String.prefix whole (String c (pre +:+ t))) eqn:Hp.
  - by destruct (clusterIdentifierLongOptionRE_prefix _ _ _ _ Ht0 Hp).
  - by rewrite IH.
Qed.

Lemma ReplaceAll_cut pre whole id post :
  clusterIdentifierLongOptionRE (whole +:+ post) = Some (whole, id) →
  noMatchBefore pre (whole +:+ post) → noMatchBefore post EmptyString →
  ReplaceAll (pre +:+ whole +:+ post) whole EmptyString = pre +:+ post.
Proof.
  intros Hre Hpre Hpost. unfold ReplaceAll.
  destruct whole as [|c w].
  { apply clusterIdentifierLongOptionRE_inv in Hre as (flag & ? & _ & Hw & Hflag & _).
    by destruct (clusterFlag_nonempty flag id Hflag). }
  rewrite decide_False by done.
  rewrite (ReplaceAll_from_pre _ _ _ _ _ _ Hre Hpre). f_equal.
  rewrite append_cons, ReplaceAll_from_cons.
  rewrite <- append_cons, prefix_app.
  replace (String.length (String c w) - 1)%nat with (String.length w)
    by (simpl; lia).
  rewrite ReplaceAll_from_skip.
  change (EmptyString +:+ ?x) with x.
  rewrite <- (String_app_nil_r post) at 1.
  rewrite (ReplaceAll_from_pre _ _ _ _ _ _ Hre Hpost).
  apply String_app_nil_r.
Qed.

Lemma FindAllStringSubmatch_2 s : FindAllStringSubmatch s 2 = FindAll_from O 2 s.
Proof. reflexivity. Qed.

(** X10: when [parseOptionsParam] returns without error, either no cluster
    flag starts anywhere in the options and they are returned as they are,
    with no identifier; or the options are some text, one cluster flag with
    its value, and the rest, the value is the identifier returned, not
    empty and free of white space, and the new options are the text before
    and the rest put together and trimmed. *)
Theorem parseOptionsParam_cut optionsParam id newOptionsParam :
  parseOptionsParam optionsParam = (id, newOptionsParam, None) →
  (id = EmptyString ∧ newOptionsParam = optionsParam
   ∧ noMatchBefore optionsParam EmptyString)
  ∨ (id ≠ EmptyString
     ∧ ∃ pre flag post,
         optionsParam = pre +:+ flag +:+ id +:+ post
         ∧ clusterFlag flag ∧ allBytes nonSpace id = true ∧ startsWithSpace post
         ∧ noMatchBefore pre (flag +:+ id +:+ post)
         ∧ noMatchBefore post EmptyString
         ∧ newOptionsParam = TrimSpace (pre +:+ post)).
Proof.
  unfold parseOptionsParam. rewrite FindAllStringSubmatch_2.
  destruct (FindAll_from O 2 optionsParam) as [|m0 [|m1 ms]] eqn:Hall; [..|done].
  - intros [= <- <-]. left. split_and!; [done..|]. by apply (FindAll_from_nil 1).
  - apply FindAll_from_first in Hall
      as (pre & whole & id' & post & -> & Hpre & Hre & -> & Hrest).
    symmetry in Hrest. apply FindAll_from_nil in Hrest.
    case_decide as Hid; [done|]. intros [= <- <-]. right.
    split; [by destruct id'|].
    rewrite (ReplaceAll_cut _ _ _ _ Hre Hpre Hrest).
    destruct (clusterIdentifierLongOptionRE_inv _ _ _ Hre)
      as (flag & post' & Hpost' & -> & Hflag & Hid' & Hsp).
    apply String.app_inj in Hpost' as <-.
    exists pre, flag, post. rewrite !String_app_assoc in *. by split_and!.
Qed.

Lemma parseOptionsParam_cut_witness :
  ∃ pre flag post,
    "-csearch_path=public --cluster=happy-koala-7 --foo=bar"
    = pre +:+ flag +:+ "happy-koala-7" +:+ post
    ∧ clusterFlag flag ∧ allBytes nonSpace "happy-koala-7" = true
    ∧ startsWithSpace post
    ∧ noMatchBefore pre (flag +:+ "happy-koala-7" +:+ post)
    ∧ noMatchBefore post EmptyString
    ∧ "-csearch_path=public  --foo=bar" = TrimSpace (pre +:+ post).
Proof.
  destruct (parseOptionsParam_cut
              "-csearch_path=public --cluster=happy-koala-7 --foo=bar"
              "happy-koala-7" "-csearch_path=public  --foo=bar")
    as [[Hid _]|[_ H]]; [by vm_compute|done|exact H].
Defined.

(** X11: conversely, options made of some text, one cluster flag with a
    value that is not empty and has no white space, and a rest that is
    empty or starts with white space, where no other cluster flag starts,
    give that value as the identifier and the text and the rest, trimmed,
    as the new options. *)
Theorem parseOptionsParam_flag pre flag id post :
  clusterFlag flag → id ≠ EmptyString → allBytes nonSpace id = true →
  startsWithSpace post →
  noMatchBefore pre (flag +:+ id +:+ post) → noMatchBefore post EmptyString →
  parseOptionsParam (pre +:+ flag +:+ id +:+ post)
  = (id, TrimSpace (pre +:+ post), None).
Proof.
  intros Hflag Hid Hid' Hsp Hpre Hpost.
  pose proof (clusterIdentifierLongOptionRE_flag flag id post Hflag Hid' Hsp) as Hre.
  unfold parseOptionsParam. rewrite FindAllStringSubmatch_2.
  rewrite (FindAll_from_pre _ _ _ Hpre).
  rewrite (FindAll_from_match 1 _ (flag +:+ id) id post Hre)
    by (by rewrite String_app_assoc).
  rewrite (proj2 (FindAll_from_nil 0 post) Hpost).
  rewrite decide_False by (by destruct id).
  rewrite <- (String_app_assoc flag id post) in Hre, Hpre |- *.
  by rewrite (ReplaceAll_cut _ _ _ _ Hre Hpre Hpost).
Qed.

Lemma parseOptionsParam_flag_witness :
  parseOptionsParam ("-csearch_path=public " +:+ ("-c" +:+ "  " +:+ "cluster=")
                     +:+ "happy-koala-7" +:+ " --foo=bar")
  = ("happy-koala-7", TrimSpace ("-csearch_path=public " +:+ " --foo=bar"), None).
Proof.
  apply parseOptionsParam_flag;
    [right; by exists "  "|discriminate|reflexivity|right; by eexists _, _
    |vm_compute; by repeat split|vm_compute; by repeat split].
Defined.

(** ** outgoingAddress: what its results tell *)

Lemma outgoingAddress_rule_cases {Directory : Type}
    (resolveTCPAddr : string → string → option error)
    (handler : proxyHandler Directory) name tenID addr err :
  outgoingAddress_rule resolveTCPAddr handler name tenID = (addr, err) →
  (err = None
   ∧ addr = ReplaceAll (RoutingRule handler) "{{clusterName}}"
              (name +:+ "-" +:+ formatUint (ToUint64 tenID))
   ∧ resolveTCPAddr "tcp" addr = None)
  ∨ (∃ e, err = Some (status_Error NotFound (Error e)) ∧ addr = EmptyString
          ∧ resolveTCPAddr "tcp"
              (ReplaceAll (RoutingRule handler) "{{clusterName}}"
                 (name +:+ "-" +:+ formatUint (ToUint64 tenID))) = Some e).
Proof.
  unfold outgoingAddress_rule.
  destruct (resolveTCPAddr "tcp" _) as [e|] eqn:He; intros [= <- <-]; eauto.
Qed.

(** X12: an error of [outgoingAddress] comes with the empty address and is
    of one of two kinds: the error of the directory itself, whose code is
    not [NotFound], or a [NotFound] made from the failure of the resolver on
    the address of the routing rule.  So without a directory every error is
    a [NotFound], and a [NotFound] of the directory is never passed on. *)
Theorem outgoingAddress_error {Directory : Type}
    (EnsureTenantAddr : Directory → TenantID → string → string * option error * Directory)
    (resolveTCPAddr : string → string → option error)
    (handler handler' : proxyHandler Directory) name tenID addr e :
  outgoingAddress EnsureTenantAddr resolveTCPAddr handler name tenID
  = (addr, Some e, handler') →
  addr = EmptyString
  ∧ ((∃ d a d', directory handler = Some d
                ∧ EnsureTenantAddr d tenID name = (a, Some e, d')
                ∧ status_Code e ≠ NotFound)
     ∨ (∃ e', e = status_Error NotFound (Error e')
              ∧ resolveTCPAddr "tcp"
                  (ReplaceAll (RoutingRule handler) "{{clusterName}}"
                     (name +:+ "-" +:+ formatUint (ToUint64 tenID))) = Some e'))
  ∧ (directory handler = None → status_Code e = NotFound).
Proof.
  unfold outgoingAddress. destruct (directory handler) as [d|] eqn:Hd.
  - destruct (EnsureTenantAddr d tenID name) as [[a [e0|]] d'] eqn:HE; [|done].
    case_decide as Hcode.
    + intros [= <- <- <-]. split_and!; [done| |done]. left. by exists d, a, d'.
    + destruct (outgoingAddress_rule _ _ _ _) as [addr0 err0] eqn:Hrule.
      intros [= <- -> <-].
      apply outgoingAddress_rule_cases in Hrule as [(? & _)|(e' & [= ->] & -> & He')];
        [done|].
      split_and!; [done| |done]. right. by exists e'.
  - destruct (outgoingAddress_rule _ _ _ _) as [addr0 err0] eqn:Hrule.
    intros [= <- -> <-].
    apply outgoingAddress_rule_cases in Hrule as [(? & _)|(e' & [= ->] & -> & He')];
      [done|].
    split_and!; [done| |done]. right. by exists e'.
Qed.

Lemma outgoingAddress_error_witness :
  EmptyString = EmptyString
  ∧ ((∃ d a d', directory ruleHandler = Some d
                ∧ unavailableDirectory d (MakeTenantID 3) "happy-koala"
                  = (a, Some (status_Error Unavailable "directory is down"), d')
                ∧ status_Code (status_Error Unavailable "directory is down") ≠ NotFound)
     ∨ (∃ e', status_Error Unavailable "directory is down"
              = status_Error NotFound (Error e')
              ∧ resolvesAll "tcp"
                  (ReplaceAll (RoutingRule ruleHandler) "{{clusterName}}"
                     ("happy-koala" +:+ "-" +:+ formatUint 3)) = Some e'))
  ∧ (directory ruleHandler = None
     → status_Code (status_Error Unavailable "directory is down") = NotFound).
Proof.
  apply (outgoingAddress_error unavailableDirectory resolvesAll ruleHandler ruleHandler
           "happy-koala" (MakeTenantID 3) EmptyString). reflexivity.
Defined.

(** X13: [outgoingAddress] leaves the routing rule of the handler as it is
    and a directory in place when there is one; and when the directory
    gives an address, or an error whose code is not [NotFound], neither the
    resolver nor the routing rule has a say in the result. *)
Theorem outgoingAddress_directory_first {Directory : Type}
    (EnsureTenantAddr : Directory → TenantID → string → string * option error * Directory)
    (resolveTCPAddr : string → string → option error)
    (handler : proxyHandler Directory) name tenID :
  let handler' := (outgoingAddress EnsureTenantAddr resolveTCPAddr handler name tenID).2 in
  RoutingRule handler' = RoutingRule handler
  ∧ (directory handler' = None ↔ directory handler = None)
  ∧ (∀ d addr err d' resolveTCPAddr' rule',
       directory handler = Some d →
       EnsureTenantAddr d tenID name = (addr, err, d') →
       (∀ e, err = Some e → status_Code e ≠ NotFound) →
       (outgoingAddress EnsureTenantAddr resolveTCPAddr handler name tenID).1
       = (outgoingAddress EnsureTenantAddr resolveTCPAddr'
            {| RoutingRule := rule'; directory := Some d |} name tenID).1).
Proof.
  unfold outgoingAddress. split_and!.
  - destruct (directory handler) as [d|]; [|done].
    destruct (EnsureTenantAddr d tenID name) as [[a [e0|]] d']; [|done].
    by case_decide.
  - destruct (directory handler) as [d|] eqn:Hd; [|by simpl; rewrite Hd].
    destruct (EnsureTenantAddr d tenID name) as [[a [e0|]] d']; [|done].
    by case_decide.
  - intros d addr err d' r' rule' -> HE Herr. simpl. rewrite HE.
    destruct err as [e|]; [|done].
    by rewrite !decide_True by (by apply Herr).
Qed.

(** *** The routing rule as a template *)

Lemma ReplaceAll_from_no_first c old' new s :
  hasByte c s = false → ReplaceAll_from O s (String c old') new = s.
Proof.
  induction s as [|x s IH]; [done|]. cbn [hasByte].
  intros [Hx Hs]%orb_false_elim. apply bool_decide_eq_false in Hx.
  rewrite ReplaceAll_from_cons, prefix_cons.
  destruct (ascii_dec c x) as [->|]; [done|]. by rewrite IH.
Qed.

Lemma ReplaceAll_from_template c old' new pre post :
  hasByte c pre = false → hasByte c post = false →
  ReplaceAll_from O (pre +:+ String c old' +:+ post) (String c old') new
  = pre +:+ new +:+ post.
Proof.
  intros Hpre Hpost. induction pre as [|x pre IH].
  - change (EmptyString +:+ ?y) with y.
    change (String c old' +:+ post) with (String c (old' +:+ post)).
    rewrite ReplaceAll_from_cons. rewrite <- append_cons, prefix_app.
    replace (String.length (String c old') - 1)%nat with (String.length old')
      by (simpl; lia).
    by rewrite ReplaceAll_from_skip, ReplaceAll_from_no_first.
  - cbn [hasByte] in Hpre. apply orb_false_elim in Hpre as [Hx Hpre].
    apply bool_decide_eq_false in Hx.
    rewrite !(append_cons x pre), ReplaceAll_from_cons, prefix_cons.
    destruct (ascii_dec c x) as [->|]; [done|]. by rewrite IH.
Qed.

(** X14: with no directory and a routing rule made of a text, the
    placeholder [{{clusterName}}] and a text, both texts free of braces, an
    address that resolves is the first text, the cluster name, a dash, the
    tenant ID in decimal, and the second text. *)
Theorem outgoingAddress_template {Directory : Type}
    (EnsureTenantAddr : Directory → TenantID → string → string * option error * Directory)
    (resolveTCPAddr : string → string → option error)
    (pre post name : string) (tenID : TenantID) :
  hasByte "{" pre = false → hasByte "{" post = false →
  let addr := pre +:+ (name +:+ "-" +:+ formatUint (ToUint64 tenID)) +:+ post in
  let handler := {| RoutingRule := pre +:+ "{{clusterName}}" +:+ post;
                    directory := None |} in
  resolveTCPAddr "tcp" addr = None →
  outgoingAddress EnsureTenantAddr resolveTCPAddr handler name tenID
  = (addr, None, handler).
Proof.
  intros Hpre Hpost addr handler Hres.
  unfold outgoingAddress, outgoingAddress_rule, ReplaceAll. simpl.
  rewrite ReplaceAll_from_template by done. fold addr. by rewrite Hres.
Qed.

Lemma outgoingAddress_template_witness :
  outgoingAddress notFoundDirectory resolvesAll
    {| RoutingRule := "tenant-" +:+ "{{clusterName}}" +:+ ".svc:26257"; directory := None |}
    "happy-koala" (MakeTenantID 3)
  = ("tenant-" +:+ ("happy-koala" +:+ "-" +:+ formatUint 3) +:+ ".svc:26257", None,
     {| RoutingRule := "tenant-" +:+ "{{clusterName}}" +:+ ".svc:26257"; directory := None |}).
Proof.
  apply (outgoingAddress_template notFoundDirectory resolvesAll
           "tenant-" ".svc:26257" "happy-koala" (MakeTenantID 3)); reflexivity.
Defined.

(** ** handle: the guards and the dial loop *)

Section HandleProofs.
Context {Directory Conn : Type}.
Context (EnsureTenantAddr : Directory → TenantID → string → string * option error * Directory).
Context (resolveTCPAddr : string → string → option error).
Context (ReportFailure : Directory → TenantID → string → option error * Directory).
Context (SplitHostPort : string → string → string * string * option error).
Context (ListenForDenied LoginCheck : list event → option error).
Context (BackendDial : list event → option Conn * option herror).

Local Abbreviation dialOnce' := (dialOnce EnsureTenantAddr resolveTCPAddr ReportFailure
                         SplitHostPort BackendDial).
Local Abbreviation dialLoop' := (dialLoop EnsureTenantAddr resolveTCPAddr ReportFailure
                         SplitHostPort BackendDial).
Local Abbreviation handle' := (handle EnsureTenantAddr resolveTCPAddr ReportFailure
                       SplitHostPort ListenForDenied LoginCheck BackendDial).

(** An invariant [I] of the head of the loop gives [I] when the retry stops
    the loop, [B] after a [break] and [Q] after a [return]. *)
Lemma dialLoop_inv (I B : dialState Directory Conn → Prop)
    (Q : herror → dialState Directory Conn → Prop) opts name tenID msg :
  (∀ s, I s →
        match dialOnce' opts name tenID msg s with
        | Continue s' => I s'
        | Break s' => B s'
        | Return e s' => Q e s'
        end) →
  ∀ attempts s, I s →
    match dialLoop' attempts opts name tenID msg s with
    | inl s' => I s' ∨ B s'
    | inr (e, s') => Q e s'
    end.
Proof.
  intros Hstep. induction attempts as [|n IH]; intros s Hs; simpl; [by left|].
  specialize (Hstep s Hs).
  destruct (dialOnce' opts name tenID msg s) as [s'|s'|e s']; [by apply IH|by right|done].
Qed.

(** The cases of one turn of the loop. *)
Ltac dial_cases :=
  unfold dialOnce;
  let a := fresh "a" in let e := fresh "e" in let hd := fresh "hd" in
  let HA := fresh "HA" in
  destruct (outgoingAddress _ _ _ _ _) as [[a [e|]] hd] eqn:HA;
  [case_decide
  |let Hins := fresh "Hins" in
   destruct (Insecure _) eqn:Hins; cbn [negb];
   [|let host := fresh "host" in let port := fresh "port" in let HS := fresh "HS" in
     destruct (SplitHostPort a _) as [[host port] [?|]] eqn:HS];
   try (let c := fresh "c" in let HB := fresh "HB" in
        let HAs := fresh "HAs" in let Hd := fresh "Hd" in let HR := fresh "HR" in
        destruct (BackendDial _) as [c [?e|]] eqn:HB;
        [destruct (asCodeError _) as [?codeErr|] eqn:HAs;
         [case_decide;
          [destruct (directory hd) as [?d|] eqn:Hd;
           [destruct (ReportFailure _ _ _) as [?rerr ?d'] eqn:HR|]|]|]|])].

Lemma dialOnce_trace opts name tenID msg s :
  ∃ more,
    match dialOnce' opts name tenID msg s with
    | Continue s' | Break s' | Return _ s' => dsTrace s' = dsTrace s ++ more
    end.
Proof.
  dial_cases; simpl; rewrite <- ?app_assoc; eauto.
Qed.

Lemma dialLoop_trace attempts opts name tenID msg s :
  ∃ more,
    match dialLoop' attempts opts name tenID msg s with
    | inl s' | inr (_, s') => dsTrace s' = dsTrace s ++ more
    end.
Proof.
  pose proof (dialLoop_inv
    (λ s', ∃ more, dsTrace s' = dsTrace s ++ more)
    (λ s', ∃ more, dsTrace s' = dsTrace s ++ more)
    (λ _ s', ∃ more, dsTrace s' = dsTrace s ++ more) opts name tenID msg) as H.
  specialize (H ltac:(
    intros s1 [more1 H1]; destruct (dialOnce_trace opts name tenID msg s1) as [more2 H2];
    destruct (dialOnce' opts name tenID msg s1); rewrite H2, H1, <- app_assoc; eauto)
    attempts s ltac:(exists []; by rewrite app_nil_r)).
  destruct (dialLoop' attempts opts name tenID msg s) as [s'|[e s']]; [|done].
  by destruct H.
Qed.

Lemma sends_app t1 t2 : sends (t1 ++ t2) = sends t1 ++ sends t2.
Proof.
  induction t1 as [|ev t1 IH]; [done|]. by destruct ev; simpl; rewrite IH.
Qed.

Lemma deferred_app t1 t2 : deferred (t1 ++ t2) = deferred t1 ++ deferred t2.
Proof.
  induction t1 as [|ev t1 IH]; [done|]. by destruct ev; simpl; rewrite IH.
Qed.

Lemma reports_app t1 t2 : reports (t1 ++ t2) = (reports t1 + reports t2)%nat.
Proof.
  induction t1 as [|ev t1 IH]; [done|]. by destruct ev; simpl; rewrite IH.
Qed.

Lemma dials_app t1 t2 : dials (t1 ++ t2) = (dials t1 + dials t2)%nat.
Proof.
  induction t1 as [|ev t1 IH]; [done|]. by destruct ev; simpl; rewrite IH.
Qed.

Lemma downsFrom_app before t1 t2 :
  downsFrom BackendDial before (t1 ++ t2)
  = (downsFrom BackendDial before t1 + downsFrom BackendDial (before ++ t1) t2)%nat.
Proof.
  revert before. induction t1 as [|ev t1 IH]; intros before; simpl.
  - by rewrite app_nil_r.
  - rewrite IH, <- app_assoc. simpl. lia.
Qed.

(** The ways through [handle] up to the dial loop. *)
Ltac handle_cases Hrun :=
  unfold handle in Hrun;
  repeat lazymatch type of Hrun with
  | match ?x with _ => _ end = _ =>
      lazymatch x with
      | dialLoop _ _ _ _ _ _ _ _ _ _ _ => fail
      | _ => destruct x eqn:?; cbv beta iota zeta in Hrun
      end
  end;
  try discriminate Hrun.

(** The invariant [I] of the loop in [Hrun]: its step, its start, and
    the ways out of the loop. *)
Ltac handle_loop Hrun I B Q HI :=
  lazymatch type of Hrun with
  | context [dialLoop ?E ?r ?R ?S ?D ?n ?o ?a ?b ?c ?init] =>
      assert (match dialLoop E r R S D n o a b c init with
              | inl s' => I s' ∨ B s'
              | inr (e, s') => Q e s'
              end) as HI;
      [apply (dialLoop_inv I B Q)
      |destruct (dialLoop E r R S D n o a b c init) as [?st|[?e ?st]];
       [destruct (dsErr _) eqn:?| ]]
  end.

(** X15: the denylist and the throttler come first.  In every run of
    [handle] in which an address is resolved, the backend dialed or a
    failure reported, the first two calls are [ListenForDenied] and
    [LoginCheck], and both have answered without error. *)
Theorem handle_guards_first opts handler attempts remoteAddr msg admitErr h
    o trace handler' h' ev :
  handle' opts handler attempts remoteAddr msg admitErr h
  = Some (o, trace, handler', h') →
  ev ∈ trace → isLoopEvent ev = true →
  ∃ ip tenID rest,
    trace = EvListenForDenied ip tenID :: EvLoginCheck ip tenID :: rest
    ∧ ListenForDenied [EvListenForDenied ip tenID] = None
    ∧ LoginCheck [EvListenForDenied ip tenID; EvLoginCheck ip tenID] = None.
Proof.
  unfold handle. intros Hrun Hev Hloop.
  assert (∀ l : list event, ev ∈ l → Forall (λ x, isLoopEvent x = false) l → False) as Hno.
  { intros l Hin Hall. rewrite Forall_forall in Hall. specialize (Hall ev Hin). congruence. }
  destruct admitErr as [e|].
  { injection Hrun as <- <- <- <-. exfalso. eapply Hno; [done|]. by repeat constructor. }
  destruct msg as [msg|].
  2:{ injection Hrun as <- <- <- <-. exfalso. eapply Hno; [done|]. by repeat constructor. }
  destruct (handle_backendStartupMsg remoteAddr msg h)
    as [[[clientErr|[[out name] tenID]] h1]|]; [| |done].
  { injection Hrun as <- <- <- <-. exfalso. eapply Hno; [done|]. by repeat constructor. }
  destruct (SplitHostPort remoteAddr EmptyString) as [[ip port] [e|]].
  { injection Hrun as <- <- <- <-. exfalso. eapply Hno; [done|]. by repeat constructor. }
  destruct (ListenForDenied [EvListenForDenied ip tenID]) as [e|] eqn:HL.
  { injection Hrun as <- <- <- <-. exfalso. eapply Hno; [done|]. by repeat constructor. }
  cbn [app] in Hrun.
  destruct (LoginCheck [EvListenForDenied ip tenID; EvLoginCheck ip tenID]) as [e|] eqn:HC.
  { injection Hrun as <- <- <- <-. exfalso. eapply Hno; [done|]. by repeat constructor. }
  match type of Hrun with context [dialLoop' ?n ?o ?a ?b ?c ?s] =>
    destruct (dialLoop_trace n o a b c s) as [more Hmore];
    destruct (dialLoop' n o a b c s) as [s'|[e s']] end.
  - simpl in Hmore. destruct (dsErr s'); injection Hrun as <- <- <- <-;
      rewrite Hmore; simpl; eexists _, _, _; (split; [reflexivity|by split]).
  - simpl in Hmore. injection Hrun as <- <- <- <-. rewrite Hmore. simpl.
    eexists _, _, _; (split; [reflexivity|by split]).
Qed.

(** X16: the error that [handle] returns is the error it has sent to the
    client, and it is sent once.  A run that returns an error has sent this
    error and nothing else; a run that returns no error, or goes on past
    the dial loop, has sent nothing. *)
Theorem handle_sends opts handler attempts remoteAddr msg admitErr h
    o trace handler' h' :
  handle' opts handler attempts remoteAddr msg admitErr h
  = Some (o, trace, handler', h') →
  sends trace = match o with Returned (Some e) => [e] | _ => [] end.
Proof.
  intros Hrun. handle_cases Hrun; try by injection Hrun as <- <- <- <-.
  cbn [app] in Hrun.
  handle_loop Hrun
    (λ s : dialState Directory Conn, sends (dsTrace s) = [])
    (λ s : dialState Directory Conn, sends (dsTrace s) = [])
    (λ e (s : dialState Directory Conn), sends (dsTrace s) = [e]) HI.
  - intros st Hs. dial_cases; simpl; rewrite ?sends_app, Hs; done.
  - reflexivity.
  - injection Hrun as <- <- <- <-. rewrite sends_app. by destruct HI as [->| ->].
  - injection Hrun as <- <- <- <-. by destruct HI as [->| ->].
  - injection Hrun as <- <- <- <-. rewrite sends_app, HI. done.
Qed.

(** X17: the deferred calls.  When [handle] returns, the calls it has
    deferred are its last calls: the connection of the client is closed,
    once and last, and just before, the listener of the denylist is removed,
    once, if and only if [ListenForDenied] has registered it.  Up to the end
    of the dial loop none of them is made. *)
Theorem handle_deferred opts handler attempts remoteAddr msg admitErr h
    o trace handler' h' :
  handle' opts handler attempts remoteAddr msg admitErr h
  = Some (o, trace, handler', h') →
  match o with
  | Returned _ =>
      deferred trace
      = (if listening ListenForDenied trace then [EvRemoveListener] else [])
        ++ [EvCloseConn]
      ∧ ∃ body, trace = body ++ deferred trace
  | Dialed _ _ => deferred trace = []
  end.
Proof.
  intros Hrun. handle_cases Hrun.
  all: try (injection Hrun as <- <- <- <-; simpl;
            try match goal with H : ListenForDenied _ = _ |- _ => rewrite H end;
            (split; [done|]);
            first [by exists []|by eexists [_]|by eexists [_; _]|by eexists [_; _; _]]).
  cbn [app] in Hrun.
  match goal with H : ListenForDenied [EvListenForDenied ?ip ?t] = None |- _ =>
    rename H into HL; set (t0 := [EvListenForDenied ip t; EvLoginCheck ip t]) in *
  end.
  handle_loop Hrun
    (λ s : dialState Directory Conn,
       deferred (dsTrace s) = [] ∧ ∃ more, dsTrace s = t0 ++ more)
    (λ s : dialState Directory Conn,
       deferred (dsTrace s) = [] ∧ ∃ more, dsTrace s = t0 ++ more)
    (λ (_ : herror) (s : dialState Directory Conn),
       deferred (dsTrace s) = [] ∧ ∃ more, dsTrace s = t0 ++ more) HI.
  - intros st [Hs [more Hm]]. dial_cases; simpl;
      rewrite ?deferred_app, Hs, Hm, <- ?app_assoc; eauto.
  - split; [done|by exists []].
  - injection Hrun as <- <- <- <-.
    assert (deferred (dsTrace st) = [] ∧ ∃ more, dsTrace st = t0 ++ more)
      as [Hd [more Hm]] by (by destruct HI).
    rewrite deferred_app, Hd. simpl. rewrite Hm. simpl. rewrite HL. split; [done|].
    eexists (_ :: _ :: more ++ [_]). simpl. by rewrite <- app_assoc.
  - injection Hrun as <- <- <- <-. by destruct HI as [[? _]|[? _]].
  - injection Hrun as <- <- <- <-. destruct HI as [Hd [more Hm]].
    rewrite deferred_app, Hd. simpl. rewrite Hm. simpl. rewrite HL. split; [done|].
    by eexists (_ :: _ :: more).
Qed.

Lemma outgoingAddress_keeps_directory (hd : proxyHandler Directory) name tenID :
  directory (outgoingAddress EnsureTenantAddr resolveTCPAddr hd name tenID).2 = None
  ↔ directory hd = None.
Proof.
  unfold outgoingAddress. destruct (directory hd) as [d|] eqn:Hd.
  - destruct (EnsureTenantAddr d tenID name) as [[a [e|]] d']; [case_decide|]; simpl;
      (split; intros; congruence).
  - by simpl.
Qed.

(** X18: every dial that finds the backend down is reported to the
    directory, and nothing else is.  With a directory, the failure reports
    of a run are as many as its dials that the backend answers with
    [codeBackendDown]; without a directory there is no report. *)
Theorem handle_reports opts handler attempts remoteAddr msg admitErr h
    o trace handler' h' :
  handle' opts handler attempts remoteAddr msg admitErr h
  = Some (o, trace, handler', h') →
  reports trace
  = match directory handler with
    | Some _ => downsFrom BackendDial [] trace
    | None => O
    end.
Proof.
  intros Hrun.
  set (inv := λ s : dialState Directory Conn,
    (directory (dsHandler s) = None ↔ directory handler = None)
    ∧ reports (dsTrace s)
      = match directory handler with
        | Some _ => downsFrom BackendDial [] (dsTrace s)
        | None => O
        end).
  assert (∀ opts name tenID m s, inv s →
            match dialOnce' opts name tenID m s with
            | Continue s' | Break s' | Return _ s' => inv s'
            end) as Hstep.
  { intros opts1 name tenID m s [Hdir Hs]. unfold inv.
    pose proof (outgoingAddress_keeps_directory (dsHandler s) name tenID) as Hk.
    dial_cases; simpl in Hk; simpl;
      rewrite ?reports_app, ?downsFrom_app, Hs; simpl; rewrite ?HB; simpl;
      rewrite ?HAs; try rewrite bool_decide_true by done;
      try rewrite bool_decide_false by done;
      (split; [try (rewrite Hk; exact Hdir)|]);
      try (destruct (directory handler); lia).
    all: destruct (directory handler) as [d0|] eqn:Hd0;
      try (exfalso; apply Hk in Hd; apply Hdir in Hd; discriminate);
      try (exfalso; destruct Hdir as [_ Hdir]; specialize (Hdir eq_refl);
           apply Hk in Hdir; congruence);
      try lia; try (split; intros; congruence). }
  handle_cases Hrun; try (injection Hrun as <- <- <- <-; simpl; by destruct (directory handler)).
  cbn [app] in Hrun.
  handle_loop Hrun inv inv (λ (_ : herror), inv) HI.
  - intros st Hs. by apply Hstep.
  - split; [done|]. simpl. by destruct (directory handler).
  - injection Hrun as <- <- <- <-.
    assert (inv st) as [_ Hs] by (by destruct HI).
    rewrite reports_app, downsFrom_app, Hs. simpl. destruct (directory handler); lia.
  - injection Hrun as <- <- <- <-. assert (inv st) as [_ Hs] by (by destruct HI). done.
  - injection Hrun as <- <- <- <-. destruct HI as [_ Hs].
    rewrite reports_app, downsFrom_app, Hs. simpl. destruct (directory handler); lia.
Qed.
(** X19: what [handle] goes on with past the dial loop.  When the loop is
    left without error, either the last call is a dial of the address kept,
    which the backend has answered without error with the connection kept;
    or the retry has stopped the loop just after a failure report that the
    directory took without error, and the connection kept is the one of a
    dial that found the backend down; or the retry has let no turn happen,
    and there is no connection and no address. *)
Theorem handle_dialed opts handler attempts remoteAddr msg admitErr h
    crdbConn address trace handler' h' :
  handle' opts handler attempts remoteAddr msg admitErr h
  = Some (Dialed crdbConn address, trace, handler', h') →
  (∃ before m tlsConf,
     trace = before ++ [EvBackendDial m address tlsConf]
     ∧ BackendDial trace = (crdbConn, None))
  ∨ (∃ before m tlsConf tenID e d,
       trace = before ++ [EvBackendDial m address tlsConf;
                          EvReportFailure tenID address]
       ∧ BackendDial (before ++ [EvBackendDial m address tlsConf])
         = (crdbConn, Some e)
       ∧ isBackendDown (Some e) = true
       ∧ (ReportFailure d tenID address).1 = None)
  ∨ (∃ ip tenID,
       trace = [EvListenForDenied ip tenID; EvLoginCheck ip tenID]
       ∧ crdbConn = None ∧ address = EmptyString).
Proof.
  intros Hrun. handle_cases Hrun. cbn [app] in Hrun.
  match type of Hrun with context [dialLoop' _ _ _ _ _ ?init] => set (start := init) in * end.
  handle_loop Hrun
    (λ s : dialState Directory Conn, dsErr s = None →
       s = start
       ∨ ∃ before m tlsConf tenID e d,
           dsTrace s = before ++ [EvBackendDial m (dsAddress s) tlsConf;
                                  EvReportFailure tenID (dsAddress s)]
           ∧ BackendDial (before ++ [EvBackendDial m (dsAddress s) tlsConf])
             = (dsConn s, Some e)
           ∧ isBackendDown (Some e) = true
           ∧ (ReportFailure d tenID (dsAddress s)).1 = None)
    (λ s : dialState Directory Conn, dsErr s = None →
       ∃ before m tlsConf,
         dsTrace s = before ++ [EvBackendDial m (dsAddress s) tlsConf]
         ∧ BackendDial (dsTrace s) = (dsConn s, None))
    (λ (_ : herror) (_ : dialState Directory Conn), True) HI.
  - intros st _. dial_cases; simpl; try done.
    all: try (intros _; by eexists _, _, _).
    all: destruct rerr; [done|]; intros _; right.
    all: eexists _, _, _, _, _, _; rewrite <- app_assoc;
      (split; [reflexivity|]); rewrite HB, HR; simpl; rewrite HAs;
      by rewrite bool_decide_true.
  - by left.
  - discriminate Hrun.
  - injection Hrun as <- <- <- <- <-.
    destruct HI as [HI|HI]; specialize (HI eq_refl).
    + destruct HI as [->|HI]; [|by right; left].
      right; right. by eexists _, _.
    + by left.
  - discriminate Hrun.
Qed.

(** X21: a cluster that is not found ends the dial loop at once.  When the
    guards are passed and [outgoingAddress] answers the first turn with an
    error of the code [NotFound], [handle] returns, however many turns the
    retry would allow, the error [codeParamsRoutingFailed] with the text
    "cluster NAME-ID not found", after having sent it to the client; the
    backend is not dialed and nothing is reported. *)
Theorem handle_not_found opts handler attempts remoteAddr msg h
    m name tenID h1 ip port address e handler1 :
  handle_backendStartupMsg remoteAddr msg h = Some (inr (m, name, tenID), h1) →
  SplitHostPort remoteAddr EmptyString = (ip, port, None) →
  ListenForDenied [EvListenForDenied ip tenID] = None →
  LoginCheck [EvListenForDenied ip tenID; EvLoginCheck ip tenID] = None →
  outgoingAddress EnsureTenantAddr resolveTCPAddr handler name tenID
  = (address, Some e, handler1) →
  status_Code e = NotFound →
  let clientErr :=
    Coded (newErrorf codeParamsRoutingFailed
             ("cluster " +:+ name +:+ "-" +:+ formatUint (ToUint64 tenID)
              +:+ " not found")) in
  handle' opts handler (S attempts) remoteAddr (Some msg) None h
  = Some (Returned (Some clientErr),
          [EvListenForDenied ip tenID; EvLoginCheck ip tenID;
           EvOutgoingAddress name tenID;
           EvUpdateMetricsAndSendErrToClient clientErr;
           EvRemoveListener; EvCloseConn],
          handler1, h1).
Proof.
  intros Hmsg Hsplit Hlisten Hlogin Hout Hcode clientErr.
  unfold handle. rewrite Hmsg, Hsplit, Hlisten. cbn [app]. rewrite Hlogin.
  cbn [dialLoop]. unfold dialOnce. cbn [dsHandler dsTrace]. rewrite Hout.
  rewrite decide_False by (intros Hne; by apply Hne).
  reflexivity.
Qed.

Section UntilUp.
Context (opts : dialOptions) (name : string) (tenID : TenantID) (m : loc).
Context (address : string) (k : nat).
Context (Hresolve : ∀ d, (EnsureTenantAddr d tenID name).1 = (address, None)).
Context (Hsplit : Insecure opts = false
                  → (SplitHostPort address EmptyString).2 = None).
Context (Hdown : ∀ trace, (dials trace ≤ k)%nat
                          → isBackendDown (BackendDial trace).2 = true).
Context (Hup : ∀ trace, dials trace = S k → (BackendDial trace).2 = None).

(** The dial loop against a backend that is down up to its [k]-th dial. *)
Lemma dialLoop_until_up attempts (s : dialState Directory Conn) :
  directory (dsHandler s) ≠ None →
  (dials (dsTrace s) ≤ k)%nat →
  (k - dials (dsTrace s) < attempts)%nat →
  ∃ s',
    dialLoop' attempts opts name tenID m s = inl s'
    ∧ dsErr s' = None ∧ dsAddress s' = address
    ∧ dials (dsTrace s') = S k
    ∧ reports (dsTrace s') = (reports (dsTrace s) + (k - dials (dsTrace s)))%nat
    ∧ BackendDial (dsTrace s') = (dsConn s', None).
Proof.
  revert s. induction attempts as [|n IH]; intros s Hdir Hle Hlt; [lia|].
  cbn [dialLoop]. unfold dialOnce, outgoingAddress.
  destruct (directory (dsHandler s)) as [d|] eqn:Hd; [|done].
  pose proof (Hresolve d) as Hr.
  destruct (EnsureTenantAddr d tenID name) as [[a1 e1] d1]. simpl in Hr.
  injection Hr as -> ->.
  destruct (Insecure opts) eqn:Hins; cbn [negb];
    [|specialize (Hsplit eq_refl);
      destruct (SplitHostPort address EmptyString) as [[host port] e2];
      simpl in Hsplit; subst e2].
  all: cbv zeta;
    match goal with |- context [BackendDial ?t] => set (t2 := t) end;
    assert (dials t2 = S (dials (dsTrace s))) as Hd2
      by (unfold t2; rewrite !dials_app; simpl; lia);
    assert (reports t2 = reports (dsTrace s)) as Hr2
      by (unfold t2; rewrite !reports_app; simpl; lia);
    destruct (BackendDial t2) as [c e2] eqn:HB;
    destruct (decide (dials t2 ≤ k)%nat) as [Hk|Hk].
  1,3: pose proof (Hdown t2 Hk) as Hdn; rewrite HB in Hdn; simpl in Hdn;
    destruct e2 as [e2|]; [|done]; simpl in Hdn;
    destruct (asCodeError e2) as [codeErr|]; [|done];
    apply bool_decide_eq_true in Hdn; rewrite decide_True by done;
    cbn [directory];
    destruct (ReportFailure d1 tenID address) as [rerr d2];
    edestruct (IH {| dsHandler := {| RoutingRule := RoutingRule (dsHandler s);
                                     directory := Some d2 |};
                     dsTrace := t2 ++ [EvReportFailure tenID address];
                     dsErr := Plain <$> rerr; dsConn := c;
                     dsAddress := address |})
      as (s' & Hrun & Herr & Haddr & Hdials & Hreports & Hlast);
    [done
    |cbn [dsTrace]; rewrite dials_app; simpl; lia
    |cbn [dsTrace]; rewrite dials_app; simpl; lia
    |exists s'; cbn [dsTrace] in Hreports, Hdials;
     rewrite reports_app, dials_app in Hreports; simpl in Hreports;
     split; [exact Hrun|]; split_and!; [done|done|done| |done];
     rewrite Hreports; lia].
  all: pose proof (Hup t2 ltac:(lia)) as Hu; rewrite HB in Hu; simpl in Hu; subst e2;
    eexists; (split; [reflexivity|]); cbn [dsErr dsAddress dsTrace dsConn];
    split_and!; [done|done|lia|lia|done].
Qed.
End UntilUp.

(** X22: a backend that is down for a while is dialed until it is up.
    With a directory that resolves the tenant to [address], a backend that
    answers [codeBackendDown] to its first [k] dials and no error to the
    next, and a retry that allows more than [k] turns, [handle] passes the
    dial loop with the connection of the dial number [k + 1], after [k]
    failure reports, whatever the directory answers to the reports. *)
Theorem handle_retries_until_up opts handler attempts remoteAddr msg h
    m name tenID h1 ip port address k :
  handle_backendStartupMsg remoteAddr msg h = Some (inr (m, name, tenID), h1) →
  SplitHostPort remoteAddr EmptyString = (ip, port, None) →
  ListenForDenied [EvListenForDenied ip tenID] = None →
  LoginCheck [EvListenForDenied ip tenID; EvLoginCheck ip tenID] = None →
  directory handler ≠ None →
  (∀ d, (EnsureTenantAddr d tenID name).1 = (address, None)) →
  (Insecure opts = false → (SplitHostPort address EmptyString).2 = None) →
  (∀ trace, (dials trace ≤ k)%nat → isBackendDown (BackendDial trace).2 = true) →
  (∀ trace, dials trace = S k → (BackendDial trace).2 = None) →
  (k < attempts)%nat →
  ∃ crdbConn trace handler1,
    handle' opts handler attempts remoteAddr (Some msg) None h
    = Some (Dialed crdbConn address, trace, handler1, h1)
    ∧ dials trace = S k ∧ reports trace = k
    ∧ BackendDial trace = (crdbConn, None).
Proof.
  intros Hmsg Hsplit Hlisten Hlogin Hdir Hresolve Hhost Hdown Hup Hk.
  unfold handle. rewrite Hmsg, Hsplit, Hlisten. cbn [app]. rewrite Hlogin.
  edestruct (dialLoop_until_up opts name tenID m address k Hresolve Hhost Hdown Hup
               attempts
               {| dsHandler := handler;
                  dsTrace := [EvListenForDenied ip tenID; EvLoginCheck ip tenID];
                  dsErr := None; dsConn := None; dsAddress := EmptyString |})
    as (s' & Hrun & Herr & Haddr & Hdials & Hreports & Hlast).
  - done.
  - simpl. lia.
  - simpl. lia.
  - rewrite Hrun, Herr, Haddr. eexists _, _, _. split; [reflexivity|].
    simpl in Hreports. split_and!; [done|lia|done].
Qed.
End HandleProofs.

Lemma handle_guards_first_witness :
  ∃ ip tenID rest,
    downTwiceTrace = EvListenForDenied ip tenID :: EvLoginCheck ip tenID :: rest
    ∧ allowsAll [EvListenForDenied ip tenID] = None
    ∧ allowsAll [EvListenForDenied ip tenID; EvLoginCheck ip tenID] = None.
Proof.
  eapply (handle_guards_first onePodDirectory resolvesAll takesReport wholeAsHost
            allowsAll allowsAll downTwice secure directoryHandler 5 "10.0.0.7:52944"
            (Some 1%positive) None (heapOf paramsDatabase)
            _ _ _ _ (EvOutgoingAddress "happy-koala" (MakeTenantID 3)));
    [by vm_compute| |reflexivity].
  do 2 apply list_elem_of_further. apply list_elem_of_here.
Defined.

Lemma handle_sends_witness : sends notFoundTrace = [clusterNotFound].
Proof.
  apply (handle_sends notFoundDirectory resolvesNone takesReport wholeAsHost
           allowsAll allowsAll downTwice secure ruleHandler 5 "10.0.0.7:52944"
           (Some 1%positive) None (heapOf paramsDatabase)
           (Returned (Some clusterNotFound)) notFoundTrace ruleHandler
           (default (heapOf paramsDatabase)
              (snd <$> handle_backendStartupMsg "10.0.0.7:52944" 1%positive
                         (heapOf paramsDatabase)))).
  by vm_compute.
Defined.

Lemma handle_deferred_witness :
  deferred notFoundTrace = [EvRemoveListener; EvCloseConn]
  ∧ ∃ body, notFoundTrace = body ++ deferred notFoundTrace.
Proof.
  apply (handle_deferred notFoundDirectory resolvesNone takesReport wholeAsHost
           allowsAll allowsAll downTwice secure ruleHandler 5 "10.0.0.7:52944"
           (Some 1%positive) None (heapOf paramsDatabase)
           (Returned (Some clusterNotFound)) notFoundTrace ruleHandler
           (default (heapOf paramsDatabase)
              (snd <$> handle_backendStartupMsg "10.0.0.7:52944" 1%positive
                         (heapOf paramsDatabase)))).
  by vm_compute.
Defined.

Lemma handle_reports_witness :
  reports downTwiceTrace = downsFrom downTwice [] downTwiceTrace.
Proof.
  apply (handle_reports onePodDirectory resolvesAll takesReport wholeAsHost
           allowsAll allowsAll downTwice secure directoryHandler 5 "10.0.0.7:52944"
           (Some 1%positive) None (heapOf paramsDatabase)
           (Dialed (Some tt) "10.0.0.9:26257") downTwiceTrace directoryHandler
           (default (heapOf paramsDatabase)
              (snd <$> handle_backendStartupMsg "10.0.0.7:52944" 1%positive
                         (heapOf paramsDatabase)))).
  by vm_compute.
Defined.

Lemma handle_dialed_witness :
  (∃ before m tlsConf,
     downTwiceTrace = before ++ [EvBackendDial m "10.0.0.9:26257" tlsConf]
     ∧ downTwice downTwiceTrace = (Some tt, None))
  ∨ (∃ before m tlsConf tenID e d,
       downTwiceTrace = before ++ [EvBackendDial m "10.0.0.9:26257" tlsConf;
                                   EvReportFailure tenID "10.0.0.9:26257"]
       ∧ downTwice (before ++ [EvBackendDial m "10.0.0.9:26257" tlsConf])
         = (Some tt, Some e)
       ∧ isBackendDown (Some e) = true
       ∧ (takesReport d tenID "10.0.0.9:26257").1 = None)
  ∨ (∃ ip tenID,
       downTwiceTrace = [EvListenForDenied ip tenID; EvLoginCheck ip tenID]
       ∧ Some tt = None ∧ "10.0.0.9:26257" = EmptyString).
Proof.
  apply (handle_dialed onePodDirectory resolvesAll takesReport wholeAsHost
           allowsAll allowsAll downTwice secure directoryHandler 5 "10.0.0.7:52944"
           (Some 1%positive) None (heapOf paramsDatabase)
           (Some tt) "10.0.0.9:26257" downTwiceTrace directoryHandler
           (default (heapOf paramsDatabase)
              (snd <$> handle_backendStartupMsg "10.0.0.7:52944" 1%positive
                         (heapOf paramsDatabase)))).
  by vm_compute.
Defined.


Lemma handle_not_found_witness :
  handle notFoundDirectory resolvesNone takesReport wholeAsHost allowsAll allowsAll
    downTwice secure ruleHandler 5 "10.0.0.7:52944" (Some 1%positive) None
    (heapOf paramsDatabase)
  = Some (Returned (Some clusterNotFound), notFoundTrace, ruleHandler,
          default (heapOf paramsDatabase)
            (snd <$> handle_backendStartupMsg "10.0.0.7:52944" 1%positive
                       (heapOf paramsDatabase))).
Proof.
  apply (handle_not_found notFoundDirectory resolvesNone takesReport wholeAsHost
           allowsAll allowsAll downTwice secure ruleHandler 4 "10.0.0.7:52944"
           1%positive (heapOf paramsDatabase) 2%positive "happy-koala" (MakeTenantID 3)
           _ "10.0.0.7:52944" EmptyString EmptyString
           (status_Error NotFound (Error (errors_New "no such host"))) ruleHandler).
  - by vm_compute.
  - reflexivity.
  - reflexivity.
  - reflexivity.
  - by vm_compute.
  - reflexivity.
Defined.

Lemma handle_retries_until_up_witness :
  ∃ crdbConn trace handler1,
    handle onePodDirectory resolvesAll takesReport wholeAsHost allowsAll allowsAll
      downTwice secure directoryHandler 5 "10.0.0.7:52944" (Some 1%positive) None
      (heapOf paramsDatabase)
    = Some (Dialed crdbConn "10.0.0.9:26257", trace, handler1,
            default (heapOf paramsDatabase)
              (snd <$> handle_backendStartupMsg "10.0.0.7:52944" 1%positive
                         (heapOf paramsDatabase)))
    ∧ dials trace = 3%nat ∧ reports trace = 2%nat
    ∧ downTwice trace = (crdbConn, None).
Proof.
  apply (handle_retries_until_up onePodDirectory resolvesAll takesReport wholeAsHost
           allowsAll allowsAll downTwice secure directoryHandler 5 "10.0.0.7:52944"
           1%positive (heapOf paramsDatabase) 2%positive "happy-koala" (MakeTenantID 3)
           _ "10.0.0.7:52944" EmptyString "10.0.0.9:26257" 2).
  - by vm_compute.
  - reflexivity.
  - reflexivity.
  - reflexivity.
  - discriminate.
  - reflexivity.
  - reflexivity.
  - intros trace Hle. unfold downTwice. by rewrite decide_True.
  - intros trace Heq. unfold downTwice. rewrite decide_False; [done|lia].
  - lia.
Defined.

(** ** A backend that stays down *)

Section AlwaysDown.
Context {Directory Conn : Type}.
Context (EnsureTenantAddr : Directory → TenantID → string → string * option error * Directory).
Context (resolveTCPAddr : string → string → option error).
Context (ReportFailure : Directory → TenantID → string → option error * Directory).
Context (SplitHostPort : string → string → string * string * option error).
Context (ListenForDenied LoginCheck : list event → option error).
Context (BackendDial : list event → option Conn * option herror).
Context (opts : dialOptions) (name : string) (tenID : TenantID) (m : loc).
Context (address : string).
(** The address is one whose host [SplitHostPort] splits off, unless the
    backend is dialed without TLS, and the backend answers every dial with
    [codeBackendDown]. *)
Context (Hsplit : Insecure opts = false
                  → (SplitHostPort address EmptyString).2 = None).
Context (Hdown : ∀ trace, isBackendDown (BackendDial trace).2 = true).

Local Abbreviation dialLoop' := (dialLoop EnsureTenantAddr resolveTCPAddr ReportFailure
                                   SplitHostPort BackendDial).

(** The dial loop with a directory that resolves the tenant and takes the
    reports. *)
Lemma dialLoop_reported attempts (s : dialState Directory Conn) :
  (∀ d, (EnsureTenantAddr d tenID name).1 = (address, None)) →
  (∀ d, (ReportFailure d tenID address).1 = None) →
  directory (dsHandler s) ≠ None →
  ∃ s',
    dialLoop' attempts opts name tenID m s = inl s'
    ∧ (attempts = O → s' = s)
    ∧ (attempts ≠ O → dsErr s' = None ∧ dsAddress s' = address)
    ∧ dials (dsTrace s') = (dials (dsTrace s) + attempts)%nat
    ∧ reports (dsTrace s') = (reports (dsTrace s) + attempts)%nat.
Proof.
  intros Hresolve Hreport. revert s.
  induction attempts as [|n IH]; intros s Hdir.
  { exists s. split_and!; [done|done|done|simpl; lia|simpl; lia]. }
  cbn [dialLoop]. unfold dialOnce, outgoingAddress.
  destruct (directory (dsHandler s)) as [d|] eqn:Hd; [|done].
  pose proof (Hresolve d) as Hr.
  destruct (EnsureTenantAddr d tenID name) as [[a1 e1] d1]. simpl in Hr.
  injection Hr as -> ->.
  destruct (Insecure opts) eqn:Hins; cbn [negb];
    [|specialize (Hsplit eq_refl);
      destruct (SplitHostPort address EmptyString) as [[host port] e2];
      simpl in Hsplit; subst e2].
  all: cbv zeta;
    match goal with |- context [BackendDial ?t] => set (t2 := t) end;
    assert (dials t2 = S (dials (dsTrace s))) as Hd2
      by (unfold t2; rewrite !dials_app; simpl; lia);
    assert (reports t2 = reports (dsTrace s)) as Hr2
      by (unfold t2; rewrite !reports_app; simpl; lia);
    pose proof (Hdown t2) as Hdn;
    destruct (BackendDial t2) as [c [e2|]]; [|done]; simpl in Hdn;
    destruct (asCodeError e2) as [codeErr|]; [|done];
    apply bool_decide_eq_true in Hdn; rewrite decide_True by done;
    cbn [directory];
    pose proof (Hreport d1) as Hrep;
    destruct (ReportFailure d1 tenID address) as [rerr d2];
    simpl in Hrep; subst rerr;
    edestruct (IH {| dsHandler := {| RoutingRule := RoutingRule (dsHandler s);
                                     directory := Some d2 |};
                     dsTrace := t2 ++ [EvReportFailure tenID address];
                     dsErr := None; dsConn := c; dsAddress := address |})
      as (s' & Hrun & Hzero & Hpos & Hdials & Hreports); [done|];
    exists s'; cbn [dsTrace] in Hdials, Hreports;
    rewrite dials_app in Hdials; rewrite reports_app in Hreports;
    simpl in Hdials, Hreports;
    (split; [exact Hrun|]); (split; [done|]); split_and!; [|lia|lia];
    intros _; destruct n as [|n']; [by rewrite (Hzero eq_refl)|by apply Hpos].
Qed.

(** The dial loop without a directory, when the address of the routing
    rule resolves. *)
Lemma dialLoop_unreported attempts (s : dialState Directory Conn) :
  directory (dsHandler s) = None →
  outgoingAddress_rule resolveTCPAddr (dsHandler s) name tenID = (address, None) →
  ∃ s',
    dialLoop' attempts opts name tenID m s = inl s'
    ∧ dsHandler s' = dsHandler s
    ∧ (attempts = O → s' = s)
    ∧ (attempts ≠ O →
       ∃ before tlsConf e,
         dsTrace s' = before ++ [EvBackendDial m address tlsConf]
         ∧ BackendDial (dsTrace s') = (dsConn s', Some e) ∧ dsErr s' = Some e)
    ∧ dials (dsTrace s') = (dials (dsTrace s) + attempts)%nat
    ∧ reports (dsTrace s') = reports (dsTrace s).
Proof.
  revert s. induction attempts as [|n IH]; intros s Hdir Hrule.
  { exists s. split_and!; [done|done|done|done|simpl; lia|done]. }
  cbn [dialLoop]. unfold dialOnce, outgoingAddress. rewrite Hdir, Hrule.
  destruct (Insecure opts) eqn:Hins; cbn [negb];
    [|specialize (Hsplit eq_refl);
      destruct (SplitHostPort address EmptyString) as [[host port] e2];
      simpl in Hsplit; subst e2].
  all: cbv zeta;
    match goal with |- context [BackendDial ?t] => set (t2 := t) end;
    assert (dials t2 = S (dials (dsTrace s))) as Hd2
      by (unfold t2; rewrite !dials_app; simpl; lia);
    assert (reports t2 = reports (dsTrace s)) as Hr2
      by (unfold t2; rewrite !reports_app; simpl; lia);
    pose proof (Hdown t2) as Hdn;
    destruct (BackendDial t2) as [c [e2|]] eqn:HB; [|done]; simpl in Hdn;
    destruct (asCodeError e2) as [codeErr|]; [|done];
    apply bool_decide_eq_true in Hdn; rewrite decide_True by done;
    rewrite Hdir;
    edestruct (IH {| dsHandler := dsHandler s; dsTrace := t2; dsErr := Some e2;
                     dsConn := c; dsAddress := address |})
      as (s' & Hrun & Hh & Hzero & Hpos & Hdials & Hreports); [done|done|];
    exists s'; cbn [dsTrace dsHandler] in Hdials, Hreports, Hh;
    (split; [exact Hrun|]); (split; [done|]); (split; [done|]);
    split_and!; [|lia|lia];
    intros _; destruct n as [|n'];
    [rewrite (Hzero eq_refl); cbn [dsTrace dsErr dsConn];
     eexists _, _, e2; by split_and!
    |by apply Hpos].
Qed.

Local Abbreviation handle' := (handle EnsureTenantAddr resolveTCPAddr ReportFailure
                                 SplitHostPort ListenForDenied LoginCheck BackendDial).

(** X29: a retry that stops hides the failure of the backend.  With a
    directory that resolves the tenant and takes every report without
    error, and a backend that answers every dial with [codeBackendDown],
    [handle] does not return an error when the retry stops the loop,
    after any number of turns: [err] is then the nil of the last report,
    or the nil of the start, and [handle] goes on to the authentication
    with what the last dial has left in [crdbConn]. *)
Theorem handle_retry_stopped handler attempts remoteAddr msg h h1 ip port :
  handle_backendStartupMsg remoteAddr msg h = Some (inr (m, name, tenID), h1) →
  SplitHostPort remoteAddr EmptyString = (ip, port, None) →
  ListenForDenied [EvListenForDenied ip tenID] = None →
  LoginCheck [EvListenForDenied ip tenID; EvLoginCheck ip tenID] = None →
  directory handler ≠ None →
  (∀ d, (EnsureTenantAddr d tenID name).1 = (address, None)) →
  (∀ d, (ReportFailure d tenID address).1 = None) →
  ∃ crdbConn trace handler1,
    handle' opts handler attempts remoteAddr (Some msg) None h
    = Some (Dialed crdbConn (if attempts is O then EmptyString else address),
            trace, handler1, h1)
    ∧ dials trace = attempts ∧ reports trace = attempts
    ∧ downsFrom BackendDial [] trace = attempts.
Proof.
  intros Hmsg Hremote Hlisten Hlogin Hdir Hresolve Hreport.
  unfold handle. rewrite Hmsg, Hremote, Hlisten. cbn [app]. rewrite Hlogin.
  edestruct (dialLoop_reported attempts
               {| dsHandler := handler;
                  dsTrace := [EvListenForDenied ip tenID; EvLoginCheck ip tenID];
                  dsErr := None; dsConn := None; dsAddress := EmptyString |})
    as (s' & Hrun & Hzero & Hpos & Hdials & Hreports); [done|done|done|].
  rewrite Hrun.
  assert (dsErr s' = None
          ∧ dsAddress s' = (if attempts is O then EmptyString else address))
    as [-> ->].
  { destruct attempts; [by rewrite (Hzero eq_refl)|by apply Hpos]. }
  eexists _, _, _. split; [reflexivity|]. simpl in Hdials, Hreports.
  split; [done|]. split; [done|].
  assert (∀ before t, downsFrom BackendDial before t = dials t) as Hall.
  { intros before t. revert before. induction t as [|ev t IHt]; intros before; [done|].
    simpl. rewrite IHt. destruct ev; try done. by rewrite Hdown. }
  by rewrite Hall.
Qed.

(** X30: without a directory the failure of the backend reaches the
    client.  With no directory, a routing rule whose address resolves, and
    a backend that answers every dial with [codeBackendDown], [handle]
    returns, when the retry stops after at least one turn, the error of
    the last dial, after having sent it to the client; the backend has
    been dialed once for every turn and nothing has been reported. *)
Theorem handle_retry_stopped_no_directory handler attempts remoteAddr msg h h1
    ip port :
  handle_backendStartupMsg remoteAddr msg h = Some (inr (m, name, tenID), h1) →
  SplitHostPort remoteAddr EmptyString = (ip, port, None) →
  ListenForDenied [EvListenForDenied ip tenID] = None →
  LoginCheck [EvListenForDenied ip tenID; EvLoginCheck ip tenID] = None →
  directory handler = None →
  outgoingAddress_rule resolveTCPAddr handler name tenID = (address, None) →
  attempts ≠ O →
  ∃ e before,
    handle' opts handler attempts remoteAddr (Some msg) None h
    = Some (Returned (Some e),
            before ++ [EvUpdateMetricsAndSendErrToClient e; EvRemoveListener;
                       EvCloseConn],
            handler, h1)
    ∧ (BackendDial before).2 = Some e ∧ isBackendDown (Some e) = true
    ∧ dials before = attempts ∧ reports before = O.
Proof.
  intros Hmsg Hremote Hlisten Hlogin Hdir Hrule Hpos.
  unfold handle. rewrite Hmsg, Hremote, Hlisten. cbn [app]. rewrite Hlogin.
  edestruct (dialLoop_unreported attempts
               {| dsHandler := handler;
                  dsTrace := [EvListenForDenied ip tenID; EvLoginCheck ip tenID];
                  dsErr := None; dsConn := None; dsAddress := EmptyString |})
    as (s' & Hrun & Hh & _ & Hlast & Hdials & Hreports); [done|done|].
  rewrite Hrun. destruct (Hlast Hpos) as (before & tlsConf & e & Ht & HB & ->).
  exists e, (dsTrace s'). rewrite Hh. split; [reflexivity|].
  rewrite HB. split; [done|]. split; [|by split].
  pose proof (Hdown (dsTrace s')) as Hdn. by rewrite HB in Hdn.
Qed.
End AlwaysDown.

Lemma handle_retry_stopped_witness :
  ∃ crdbConn trace handler1,
    handle onePodDirectory resolvesAll takesReport wholeAsHost allowsAll allowsAll
      alwaysDown secure directoryHandler 2 "10.0.0.7:52944" (Some 1%positive) None
      (heapOf paramsDatabase)
    = Some (Dialed crdbConn "10.0.0.9:26257", trace, handler1,
            default (heapOf paramsDatabase)
              (snd <$> handle_backendStartupMsg "10.0.0.7:52944" 1%positive
                         (heapOf paramsDatabase)))
    ∧ dials trace = 2%nat ∧ reports trace = 2%nat
    ∧ downsFrom alwaysDown [] trace = 2%nat.
Proof.
  apply (handle_retry_stopped onePodDirectory resolvesAll takesReport wholeAsHost
           allowsAll allowsAll alwaysDown secure "happy-koala" (MakeTenantID 3)
           2%positive "10.0.0.9:26257" ltac:(reflexivity) ltac:(reflexivity)
           directoryHandler 2 "10.0.0.7:52944" 1%positive (heapOf paramsDatabase)
           _ "10.0.0.7:52944" EmptyString).
  - by vm_compute.
  - reflexivity.
  - reflexivity.
  - reflexivity.
  - discriminate.
  - reflexivity.
  - reflexivity.
Defined.

Lemma handle_retry_stopped_no_directory_witness :
  ∃ e before,
    handle notFoundDirectory resolvesAll takesReport wholeAsHost allowsAll allowsAll
      alwaysDown secure ruleOnlyHandler 2 "10.0.0.7:52944" (Some 1%positive) None
      (heapOf paramsDatabase)
    = Some (Returned (Some e),
            before ++ [EvUpdateMetricsAndSendErrToClient e; EvRemoveListener;
                       EvCloseConn],
            ruleOnlyHandler,
            default (heapOf paramsDatabase)
              (snd <$> handle_backendStartupMsg "10.0.0.7:52944" 1%positive
                         (heapOf paramsDatabase)))
    ∧ (alwaysDown before).2 = Some e ∧ isBackendDown (Some e) = true
    ∧ dials before = 2%nat ∧ reports before = O.
Proof.
  apply (handle_retry_stopped_no_directory notFoundDirectory resolvesAll takesReport
           wholeAsHost allowsAll allowsAll alwaysDown secure "happy-koala"
           (MakeTenantID 3) 2%positive "happy-koala-3.svc:26257"
           ltac:(reflexivity) ltac:(reflexivity)
           ruleOnlyHandler 2 "10.0.0.7:52944" 1%positive (heapOf paramsDatabase)
           _ "10.0.0.7:52944" EmptyString).
  - by vm_compute.
  - reflexivity.
  - reflexivity.
  - reflexivity.
  - reflexivity.
  - by vm_compute.
  - discriminate.
Defined.

(** ** The certificate of the listener *)

Section SetupProofs.
Context {Directory Certificate : Type}.
Context (certErr : Setup.Cert → option error).
Context (TLSCert : Setup.Cert → option Certificate).
Context (grpcDial : string → option error).
Context (NewDirectory : string → bool → Directory + error).

(** The certificate that the options ask for. *)
Lemma setupIncomingCert_cases (handler : Setup.proxyHandler Directory) :
  let cert := Setup.ListenCert (Setup.options handler) in
  let key := Setup.ListenKey (Setup.options handler) in
  (xorb (bool_decide (key = EmptyString)) (bool_decide (cert = EmptyString)) = true
   ∧ Setup.setupIncomingCert certErr handler
     = Some (Some (errors_New "must specify either both or neither of cert and key"),
             handler, []))
  ∨ (cert = EmptyString ∧ key = EmptyString
     ∧ Setup.setupIncomingCert certErr handler = Some (None, handler, []))
  ∨ (cert ≠ EmptyString ∧ key ≠ EmptyString
     ∧ ∃ c, c = (if decide (cert = "*") then Setup.NewSelfSignedCert 0 3 0 0
                 else Setup.NewFileCert cert key)
       ∧ Setup.setupIncomingCert certErr handler
         = match certErr c with
           | Some e => Some (Some e, handler, [Setup.EvReload c])
           | None =>
               Some (None,
                     {| Setup.options := Setup.options handler;
                        Setup.incomingCert := Some c;
                        Setup.denyListWatcher := Setup.denyListWatcher handler;
                        Setup.throttleService := Setup.throttleService handler;
                        Setup.idleMonitor := Setup.idleMonitor handler;
                        Setup.directory := Setup.directory handler;
                        Setup.certManager := [("client", c)] |},
                     [Setup.EvReload c])
           end).
Proof.
  intros cert key.
  destruct (decide (key = EmptyString)) as [Hk|Hk],
           (decide (cert = EmptyString)) as [Hc|Hc];
    unfold Setup.setupIncomingCert; fold cert key.
  - right; left. rewrite !bool_decide_true by done. cbn [xorb].
    by rewrite decide_True.
  - left. by rewrite bool_decide_true, bool_decide_false.
  - left. by rewrite bool_decide_false, bool_decide_true.
  - right; right. rewrite !bool_decide_false by done. cbn [xorb].
    rewrite (decide_False (P := cert = EmptyString)) by done.
    split; [done|]. split; [done|]. eexists. split; [reflexivity|].
    destruct (decide (cert = "*")) as [Hs|Hs].
    + by destruct (certErr _).
    + rewrite decide_True by done. by destruct (certErr _).
Qed.
(** The ways through [newProxyHandler]. *)
Ltac newProxyHandler_cases opts :=
  unfold Setup.newProxyHandler;
  let Hx := fresh "Hx" in let Hc := fresh "Hc" in let Hk := fresh "Hk" in
  let c := fresh "c" in let Hrun := fresh "Hsetup" in
  match goal with
  | |- context [Setup.setupIncomingCert ?ce ?h0] =>
      destruct (setupIncomingCert_cases h0)
        as [(Hx & Hrun)|[(Hc & Hk & Hrun)|(Hc & Hk & c & -> & Hrun)]];
      rewrite Hrun; clear Hrun; cbn [Setup.options Setup.ListenCert Setup.ListenKey
                                     Setup.incomingCert Setup.certManager] in *;
      [|
       |let Hce := fresh "Hce" in destruct (certErr _) as [?e|] eqn:Hce]
  end;
  cbn [Setup.options Setup.incomingCert Setup.certManager Setup.denyListWatcher
       Setup.throttleService Setup.idleMonitor Setup.directory];
  try (destruct (decide (Setup.DirectoryAddr opts ≠ EmptyString)) as [?Hdir|?Hdir];
       [destruct (grpcDial (Setup.DirectoryAddr opts)) as [?e|] eqn:?Hdial;
        [|destruct (decide (Setup.DrainTimeout opts ≠ 0)) as [?Hdrain|?Hdrain];
          destruct (NewDirectory (Setup.DirectoryAddr opts) _) as [?dir|?e] eqn:?Hnew]
       |]).

(** X23: [setupIncomingCert] never dereferences a nil certificate; when it
    fails it leaves the handler as it was; it reloads a certificate only
    when both a certificate and a key are named; and when it succeeds,
    either no certificate is named and the handler is as it was, or the
    handler has a certificate that has loaded without error and a
    certificate manager that manages it, alone, as [client]. *)
Theorem setupIncomingCert_outcome (handler : Setup.proxyHandler Directory) :
  ∃ err handler' events,
    Setup.setupIncomingCert certErr handler = Some (err, handler', events)
    ∧ (err ≠ None → handler' = handler)
    ∧ (events = [] ↔ Setup.ListenCert (Setup.options handler) = EmptyString
                     ∨ Setup.ListenKey (Setup.options handler) = EmptyString)
    ∧ (err = None →
       (Setup.ListenCert (Setup.options handler) = EmptyString ∧ handler' = handler)
       ∨ ∃ c, Setup.incomingCert handler' = Some c ∧ certErr c = None
              ∧ Setup.certManager handler' = [("client", c)]
              ∧ events = [Setup.EvReload c]).
Proof.
  destruct (setupIncomingCert_cases handler)
    as [(Hx & ->)|[(Hc & Hk & ->)|(Hc & Hk & c & -> & ->)]].
  - eexists _, _, _. split; [reflexivity|]. split; [done|]. split; [|done].
    split; [intros _|done].
    destruct (decide (Setup.ListenCert (Setup.options handler) = EmptyString));
      [by left|right].
    destruct (decide (Setup.ListenKey (Setup.options handler) = EmptyString)); [done|].
    by rewrite !bool_decide_false in Hx.
  - eexists _, _, _. split; [reflexivity|]. split; [done|]. split; [|by left].
    split; [by left|done].
  - destruct (certErr _) as [e|] eqn:Hce.
    + eexists _, _, _. split; [reflexivity|]. split; [done|]. split; [|done].
      split; [done|]. by intros [?|?].
    + eexists _, _, _. split; [reflexivity|]. split; [done|]. split.
      * split; [done|]. by intros [?|?].
      * intros _. right. eexists. by split_and!.
Qed.

(** X24: with [*] as the certificate, the key only has to be named: what
    it names is not looked at.  The certificate is the self-signed one,
    made for three months, and the result is the same for every key that
    is not empty. *)
Theorem setupIncomingCert_self_signed (handler : Setup.proxyHandler Directory) :
  Setup.ListenCert (Setup.options handler) = "*" →
  Setup.ListenKey (Setup.options handler) ≠ EmptyString →
  let cert := Setup.NewSelfSignedCert 0 3 0 0 in
  Setup.setupIncomingCert certErr handler
  = match certErr cert with
    | Some e => Some (Some e, handler, [Setup.EvReload cert])
    | None =>
        Some (None,
              {| Setup.options := Setup.options handler;
                 Setup.incomingCert := Some cert;
                 Setup.denyListWatcher := Setup.denyListWatcher handler;
                 Setup.throttleService := Setup.throttleService handler;
                 Setup.idleMonitor := Setup.idleMonitor handler;
                 Setup.directory := Setup.directory handler;
                 Setup.certManager := [("client", cert)] |},
              [Setup.EvReload cert])
    end.
Proof.
  intros Hstar Hkey cert.
  destruct (setupIncomingCert_cases handler)
    as [(Hx & _)|[(Hc & _)|(Hc & Hk & c & -> & ->)]].
  - rewrite Hstar, bool_decide_false, bool_decide_false in Hx by done. done.
  - by rewrite Hstar in Hc.
  - by rewrite decide_True.
Qed.

(** X25: the TLS configuration of the listener, from the options.  For a
    handler that [newProxyHandler] has built, [incomingTLSConfig] is nil
    when no certificate is named in the options; and a configuration it
    gives holds one certificate, the one that the certificate named in the
    options, loaded without error, answers to [TLSCert]. *)
Theorem incomingTLSConfig_of_options opts handler events :
  Setup.newProxyHandler certErr grpcDial NewDirectory opts
  = Some (Some handler, None, events) →
  (Setup.ListenCert opts = EmptyString →
   Setup.incomingTLSConfig TLSCert handler = None)
  ∧ (∀ config, Setup.incomingTLSConfig TLSCert handler = Some config →
       Setup.ListenCert opts ≠ EmptyString ∧ Setup.ListenKey opts ≠ EmptyString
       ∧ ∃ cert crt,
           cert = (if decide (Setup.ListenCert opts = "*")
                   then Setup.NewSelfSignedCert 0 3 0 0
                   else Setup.NewFileCert (Setup.ListenCert opts) (Setup.ListenKey opts))
           ∧ certErr cert = None ∧ TLSCert cert = Some crt
           ∧ Setup.Certificates config = [crt]).
Proof.
  newProxyHandler_cases opts; intros Hrun; try discriminate Hrun.
  all: apply (inj Some) in Hrun; injection Hrun as <- <-.
  all: unfold Setup.incomingTLSConfig; cbn [Setup.incomingCert].
  1-3: by split.
  all: split; [done|]; intros config Hconfig;
    destruct (TLSCert _) as [crt|] eqn:Hcrt; [|done];
    injection Hconfig as <-; split; [done|]; split; [done|];
    eexists _, crt; by split_and!.
Qed.

(** X26: what the options turn on.  A handler that [newProxyHandler] has
    built has the options as they were given, a denylist watcher and a
    throttle service; it has a directory exactly when the options name the
    address of one, and an idle monitor exactly when, besides, the drain
    timeout is not zero; the pod watcher has been started exactly when
    there is an idle monitor for it, and the directory has been given its
    channel exactly then. *)
Theorem newProxyHandler_wiring opts handler events :
  Setup.newProxyHandler certErr grpcDial NewDirectory opts
  = Some (Some handler, None, events) →
  Setup.options handler = opts
  ∧ Setup.denyListWatcher handler
    = Some (if decide (Setup.Denylist opts ≠ EmptyString)
            then Setup.WatcherFromFile (Setup.Denylist opts)
                   (Setup.PollConfigInterval opts)
            else Setup.NilWatcher)
  ∧ Setup.throttleService handler
    = Some (Setup.NewLocalService (Setup.ThrottleBaseDelay opts))
  ∧ (Setup.directory handler = None ↔ Setup.DirectoryAddr opts = EmptyString)
  ∧ (Setup.idleMonitor handler ≠ None
     ↔ Setup.DirectoryAddr opts ≠ EmptyString ∧ Setup.DrainTimeout opts ≠ 0)
  ∧ (Setup.idleMonitor handler ≠ None
     → Setup.idleMonitor handler = Some (Setup.NewMonitor (Setup.DrainTimeout opts)))
  ∧ (Setup.EvGoStartPodWatcher ∈ events ↔ Setup.idleMonitor handler ≠ None)
  ∧ (Setup.EvNewDirectory true ∈ events ↔ Setup.idleMonitor handler ≠ None).
Proof.
  newProxyHandler_cases opts; intros Hrun; try discriminate Hrun.
  all: apply (inj Some) in Hrun; injection Hrun as <- <-.
  all: cbn [Setup.options Setup.denyListWatcher Setup.throttleService
            Setup.directory Setup.idleMonitor app].
  all: split_and!; try done.
  all: try (split; [done|]; intros Haddr; exfalso; by apply Hdir).
  all: try (split; [intros _; by split|done]).
  all: try (split; [done|intros [_ ?]; done]).
  all: try (split; [done|by intros [? _]]).
  all: try (split; [intros _; done|intros _]).
  all: try (split; [intros Hin|done]).
  all: repeat match goal with
       | H : _ ∈ _ :: _ |- _ => apply elem_of_cons in H as [H|H]; [discriminate H|]
       | H : _ ∈ [] |- _ => by apply elem_of_nil in H
       end.
  all: try (by repeat first [apply list_elem_of_here|apply list_elem_of_further]).
  all: destruct (decide (Setup.DirectoryAddr opts = EmptyString)) as [Heq|Hne];
    [exact Heq|by destruct Hdir].
Qed.
(** X27: how [newProxyHandler] fails.  It returns a handler or an error,
    never both and never neither.  The error is the one of the
    certificate and the key of which only one is named, before anything
    is done; or the one of the certificate that does not load, nothing
    else being done; or the one of the dial of the directory; or the one
    of [tenant.NewDirectory], and then, with a drain timeout, the pod
    watcher has been started all the same. *)
Theorem newProxyHandler_failure opts :
  ∃ handler err events,
    Setup.newProxyHandler certErr grpcDial NewDirectory opts
    = Some (handler, err, events)
    ∧ (handler = None ↔ err ≠ None)
    ∧ (∀ e, err = Some e →
         (e = errors_New "must specify either both or neither of cert and key"
          ∧ events = [])
         ∨ (∃ c, certErr c = Some e ∧ events = [Setup.EvReload c])
         ∨ (Setup.DirectoryAddr opts ≠ EmptyString
            ∧ grpcDial (Setup.DirectoryAddr opts) = Some e
            ∧ last events = Some (Setup.EvGrpcDial (Setup.DirectoryAddr opts)))
         ∨ (Setup.DirectoryAddr opts ≠ EmptyString
            ∧ ∃ podWatcher,
                NewDirectory (Setup.DirectoryAddr opts) podWatcher = inr e
                ∧ (podWatcher = true ↔ Setup.DrainTimeout opts ≠ 0)
                ∧ last events = Some (Setup.EvNewDirectory podWatcher)
                ∧ (podWatcher = true → Setup.EvGoStartPodWatcher ∈ events))).
Proof.
  newProxyHandler_cases opts; eexists _, _, _; (split; [reflexivity|]).
  all: split; [by split|]; intros e' [= <-].
  - by left.
  - right; right; left. by rewrite last_snoc.
  - right; right; right. split; [done|]. exists true.
    rewrite last_snoc. split_and!; [done|done|done|intros _].
    apply elem_of_app. left. apply elem_of_app. right. apply list_elem_of_here.
  - right; right; right. split; [done|]. exists false.
    rewrite last_snoc. split_and!; [done| |done|done].
    split; [done|]. intros Hne. by destruct Hdrain.
  - right; left. by eexists.
  - right; right; left. by rewrite last_snoc.
  - right; right; right. split; [done|]. exists true.
    rewrite last_snoc. split_and!; [done|done|done|intros _].
    apply elem_of_app. left. apply elem_of_app. right. apply list_elem_of_here.
  - right; right; right. split; [done|]. exists false.
    rewrite last_snoc. split_and!; [done| |done|done].
    split; [done|]. intros Hne. by destruct Hdrain.
Qed.
End SetupProofs.

(** ** The pod watcher *)

Lemma armedAfter_cons armed call calls :
  PodWatcher.armedAfter armed (call :: calls)
  = PodWatcher.armedAfter
      match call with
      | PodWatcher.SetIdleChecks addr => armed ∪ {[addr]}
      | PodWatcher.ClearIdleChecks addr => armed ∖ {[addr]}
      end calls.
Proof. reflexivity. Qed.

(** X28: the last state of a pod decides.  After the pod watcher has
    taken what its [select]s got, idle checks are set for an address
    exactly when the last pod received for it, before the context ended,
    was DRAINING, or, no pod having been received for it, when they were
    set before; the watcher makes one call for each pod received, and it
    has returned exactly when the context has ended. *)
Theorem startPodWatcher_armed selects armed addr :
  (addr ∈ PodWatcher.armedAfter armed (PodWatcher.startPodWatcher selects).1 ↔
   match PodWatcher.lastState addr (PodWatcher.podsReceived selects) with
   | Some state => state = PodWatcher.DRAINING
   | None => addr ∈ armed
   end)
  ∧ length (PodWatcher.startPodWatcher selects).1
    = length (PodWatcher.podsReceived selects)
  ∧ ((PodWatcher.startPodWatcher selects).2 = true ↔ PodWatcher.ctxDone ∈ selects).
Proof.
  revert armed. induction selects as [|[|pod] selects IH]; intros armed.
  - simpl. split; [done|]. split; [done|]. split; [done|]. by intros ?%elem_of_nil.
  - simpl. split; [done|]. split; [done|]. split; [intros _|done].
    apply list_elem_of_here.
  - cbn [PodWatcher.startPodWatcher PodWatcher.podsReceived PodWatcher.lastState].
    destruct (PodWatcher.startPodWatcher selects) as [calls returned] eqn:Hrun.
    cbn [fst snd] in *. rewrite armedAfter_cons.
    split; [|split].
    + match goal with |- _ ∈ PodWatcher.armedAfter ?a _ ↔ _ =>
        destruct (IH a) as [IHa _] end.
      rewrite IHa.
      destruct (PodWatcher.lastState addr (PodWatcher.podsReceived selects)); [done|].
      destruct (decide (PodWatcher.State pod = PodWatcher.DRAINING)) as [Hs|Hs],
               (decide (PodWatcher.Addr pod = addr)) as [Ha|Ha];
        rewrite ?elem_of_union, ?elem_of_difference, ?elem_of_singleton;
        clear IH IHa; intuition congruence.
    + destruct (IH armed) as (_ & IHl & _). simpl. by rewrite IHl.
    + destruct (IH armed) as (_ & _ & IHr). rewrite IHr. split.
      * apply list_elem_of_further.
      * intros [H|H]%elem_of_cons; [discriminate H|done].
Qed.

Lemma setupIncomingCert_self_signed_witness :
  Setup.setupIncomingCert loadsAll selfSignedStart
  = Some (None,
          {| Setup.options := selfSignedOptions;
             Setup.incomingCert := Some (Setup.NewSelfSignedCert 0 3 0 0);
             Setup.denyListWatcher := None;
             Setup.throttleService := None;
             Setup.idleMonitor := None;
             Setup.directory := None;
             Setup.certManager := [("client", Setup.NewSelfSignedCert 0 3 0 0)] |},
          [Setup.EvReload (Setup.NewSelfSignedCert 0 3 0 0)]).
Proof.
  apply (setupIncomingCert_self_signed loadsAll selfSignedStart);
    [reflexivity|discriminate].
Defined.

Lemma incomingTLSConfig_of_options_witness :
  (Setup.ListenCert selfSignedOptions = EmptyString →
   Setup.incomingTLSConfig certOf selfSignedHandler = None)
  ∧ (∀ config, Setup.incomingTLSConfig certOf selfSignedHandler = Some config →
       Setup.ListenCert selfSignedOptions ≠ EmptyString
       ∧ Setup.ListenKey selfSignedOptions ≠ EmptyString
       ∧ ∃ cert crt,
           cert = (if decide (Setup.ListenCert selfSignedOptions = "*")
                   then Setup.NewSelfSignedCert 0 3 0 0
                   else Setup.NewFileCert (Setup.ListenCert selfSignedOptions)
                          (Setup.ListenKey selfSignedOptions))
           ∧ loadsAll cert = None ∧ certOf cert = Some crt
           ∧ Setup.Certificates config = [crt]).
Proof.
  apply (incomingTLSConfig_of_options loadsAll certOf connectsAll unitDirectory
           selfSignedOptions selfSignedHandler selfSignedEvents).
  reflexivity.
Defined.

Lemma newProxyHandler_wiring_witness :
  Setup.options selfSignedHandler = selfSignedOptions
  ∧ Setup.denyListWatcher selfSignedHandler
    = Some (if decide (Setup.Denylist selfSignedOptions ≠ EmptyString)
            then Setup.WatcherFromFile (Setup.Denylist selfSignedOptions)
                   (Setup.PollConfigInterval selfSignedOptions)
            else Setup.NilWatcher)
  ∧ Setup.throttleService selfSignedHandler
    = Some (Setup.NewLocalService (Setup.ThrottleBaseDelay selfSignedOptions))
  ∧ (Setup.directory selfSignedHandler = None
     ↔ Setup.DirectoryAddr selfSignedOptions = EmptyString)
  ∧ (Setup.idleMonitor selfSignedHandler ≠ None
     ↔ Setup.DirectoryAddr selfSignedOptions ≠ EmptyString
       ∧ Setup.DrainTimeout selfSignedOptions ≠ 0)
  ∧ (Setup.idleMonitor selfSignedHandler ≠ None
     → Setup.idleMonitor selfSignedHandler
       = Some (Setup.NewMonitor (Setup.DrainTimeout selfSignedOptions)))
  ∧ (Setup.EvGoStartPodWatcher ∈ selfSignedEvents
     ↔ Setup.idleMonitor selfSignedHandler ≠ None)
  ∧ (Setup.EvNewDirectory true ∈ selfSignedEvents
     ↔ Setup.idleMonitor selfSignedHandler ≠ None).
Proof.
  apply (newProxyHandler_wiring loadsAll connectsAll unitDirectory
           selfSignedOptions selfSignedHandler selfSignedEvents).
  reflexivity.
Defined.
